(** * Post-processing of YOLOX page-element detections

    A shallow embedding of [src/nv_ingest/util/nim/yolox.py]: the detector
    output normalizer ([postprocess_model_prediction], [postprocess_results]),
    the box fusion engine ([weighted_boxes_fusion] and its helpers), the
    layout heuristics ([expand_table_bboxes], [expand_chart_bboxes]) and the
    final threshold filter of [process_inference_results].

    Numbers.  The Python code computes on binary floating point values
    (float64, and float32 inside the fusion engine).  The embedding computes
    on exact rationals [Q]: every arithmetic operation, comparison, [min],
    [max], [abs] and [clip] is the exact one, and [round(x, 4)] is rounding
    to the nearest multiple of 1/10000, ties to even.  Results that the code
    computes are therefore compared with [==] (equality of rationals), data
    that the code only passes along with [=].  A division by zero, which
    gives nan or an infinity in numpy, gives 0 here; the rounding of the
    rows of the fusion engine to single precision is not represented.

    Exceptions.  A Python exception is a value of [exn]; code that can raise
    returns a [result]. *)

From Stdlib Require Import String.
From Stdlib Require Import QArith Qminmax Qabs Qround ZArith List Bool Lia Lqa.
From Stdlib Require Import PeanoNat Sorted Permutation.
Import ListNotations.

Open Scope Q_scope.

(** ** Exceptions and the error monad *)

Inductive exn : Type :=
| IndexError
| ZeroDivisionError
| SystemExit
  (** numpy's [ValueError] for [max], [argmax] and the like of an empty
      array *)
| EmptyReduction
  (** the [ValueError] that [postprocess_results] raises: its message holds
      [result.shape], [original_image_shape] and the exception caught *)
| ValueError (result_shape : nat * nat) (original_image_shape : list nat)
             (e : exn).

Inductive result (A : Type) : Type :=
| Ok (a : A)
| Raise (e : exn).

Arguments Ok {A} a.
Arguments Raise {A} e.

Definition bind {A B : Type} (m : result A) (k : A -> result B) : result B :=
  match m with
  | Ok a => k a
  | Raise e => Raise e
  end.

Notation "x <- m ;; k" := (bind m (fun x => k))
  (at level 61, m at next level, right associativity).

Notation "' p <- m ;; k" := (bind m (fun x => let p := x in k))
  (at level 61, p pattern, m at next level, right associativity).

(** [l[i]] for a Python list or a numpy axis: [IndexError] out of range. *)
Definition getitem {A : Type} (l : list A) (i : nat) : result A :=
  match nth_error l i with
  | Some a => Ok a
  | None => Raise IndexError
  end.

(** [arr[idxs]] for a list of row indices (numpy fancy indexing). *)
Fixpoint take_rows {A : Type} (arr : list A) (idxs : list nat)
  : result (list A) :=
  match idxs with
  | [] => Ok []
  | i :: rest =>
      a <- getitem arr i ;;
      r <- take_rows arr rest ;;
      Ok (a :: r)
  end.

Fixpoint mapM {A B : Type} (f : A -> result B) (l : list A)
  : result (list B) :=
  match l with
  | [] => Ok []
  | a :: rest =>
      b <- f a ;;
      r <- mapM f rest ;;
      Ok (b :: r)
  end.

(** ** Numbers *)

Definition Qlt_bool (x y : Q) : bool := negb (Qle_bool y x).

(** [np.clip(x, lo, hi)], which is [minimum(maximum(x, lo), hi)]. *)
Definition clip (x lo hi : Q) : Q := Qmin (Qmax x lo) hi.

(** Nearest integer, ties to even. *)
Definition round_half_even (x : Q) : Z :=
  let n := Qfloor x in
  let r := x - inject_Z n in
  if Qlt_bool r (1 # 2) then n
  else if Qlt_bool (1 # 2) r then (n + 1)%Z
  else if Z.even n then n else (n + 1)%Z.

(** [round(float(x), 4)]. *)
Definition round4 (x : Q) : Q := round_half_even (x * 10000) # 10000.

(** [np.max] and [np.min] of a non-empty array, [np.argmax] and [np.argmin]
    (the first index that attains the extremum). *)
Definition list_max (x : Q) (l : list Q) : Q := fold_left Qmax l x.
Definition list_min (x : Q) (l : list Q) : Q := fold_left Qmin l x.

Fixpoint argmax_from (best : Q) (besti : nat) (i : nat) (l : list Q) : nat :=
  match l with
  | [] => besti
  | x :: rest =>
      if Qlt_bool best x then argmax_from x i (S i) rest
      else argmax_from best besti (S i) rest
  end.

Definition argmax (l : list Q) : result nat :=
  match l with
  | [] => Raise EmptyReduction
  | x :: rest => Ok (argmax_from x 0%nat 1%nat rest)
  end.

Fixpoint argmin_from (best : Q) (besti : nat) (i : nat) (l : list Q) : nat :=
  match l with
  | [] => besti
  | x :: rest =>
      if Qlt_bool x best then argmin_from x i (S i) rest
      else argmin_from best besti (S i) rest
  end.

Definition argmin (l : list Q) : result nat :=
  match l with
  | [] => Raise EmptyReduction
  | x :: rest => Ok (argmin_from x 0%nat 1%nat rest)
  end.

Definition np_max (l : list Q) : result Q :=
  match l with
  | [] => Raise EmptyReduction
  | x :: rest => Ok (list_max x rest)
  end.

Definition np_min (l : list Q) : result Q :=
  match l with
  | [] => Raise EmptyReduction
  | x :: rest => Ok (list_min x rest)
  end.

Definition np_sum (l : list Q) : Q := fold_left Qplus l 0.

(** [np.mean]; of an empty array numpy returns nan with a warning, here the
    quotient by zero, which is 0. *)
Definition np_mean (l : list Q) : Q := np_sum l / inject_Z (Z.of_nat (length l)).

(** ** Data model *)

(** A row [x1, y1, x2, y2]. *)
Record Box : Type := mkBox { x1 : Q; y1 : Q; x2 : Q; y2 : Q }.

(** An annotation entry [x1, y1, x2, y2, confidence]. *)
Record Detection : Type := mkDet { bbox : Box; confidence : Q }.

(** The three keys of an annotation dictionary, in the order of
    [class_labels]; the class index of a label is its position. *)
Inductive Label : Type := Table | Chart | Title.

Definition class_index (l : Label) : Z :=
  match l with Table => 0 | Chart => 1 | Title => 2 end%Z.

Definition Label_eqb (a b : Label) : bool :=
  match a, b with
  | Table, Table | Chart, Chart | Title, Title => true
  | _, _ => false
  end.

(** The dictionary [{"table": [...], "chart": [...], "title": [...]}]. *)
Record AnnotationSet : Type := mkAnn {
  table : list Detection;
  chart : list Detection;
  title : list Detection
}.

Definition empty_annotation : AnnotationSet := mkAnn [] [] [].

(** [annotation_dict.items()], in insertion order. *)
Definition items (a : AnnotationSet) : list (Label * list Detection) :=
  [(Table, table a); (Chart, chart a); (Title, title a)].

(** [d[label].append(x)]. *)
Definition append_at (l : Label) (x : Detection) (a : AnnotationSet)
  : AnnotationSet :=
  match l with
  | Table => mkAnn (table a ++ [x]) (chart a) (title a)
  | Chart => mkAnn (table a) (chart a ++ [x]) (title a)
  | Title => mkAnn (table a) (chart a) (title a ++ [x])
  end.

(** ** Geometry *)

Definition area (b : Box) : Q := (x2 b - x1 b) * (y2 b - y1 b).

(** One entry of [bb_iou_array(boxes, new_box)].  The quotient by a zero
    denominator is 0 here, and nan or an infinity in numpy: the statements
    about an IoU assume that the denominator is not zero ([iou_defined]
    below), or that the two boxes are valid, which makes it positive. *)
Definition bb_iou (b new_box : Box) : Q :=
  let xA := Qmax (x1 b) (x1 new_box) in
  let yA := Qmax (y1 b) (y1 new_box) in
  let xB := Qmin (x2 b) (x2 new_box) in
  let yB := Qmin (y2 b) (y2 new_box) in
  let interArea := Qmax (xB - xA) 0 * Qmax (yB - yA) 0 in
  let boxAArea := area b in
  let boxBArea := area new_box in
  interArea / (boxAArea + boxBArea - interArea).

Definition bb_iou_array (boxes : list Box) (new_box : Box) : list Q :=
  map (fun b => bb_iou b new_box) boxes.

Definition merge_boxes (b1 b2 : Box) : Box :=
  mkBox (Qmin (x1 b1) (x1 b2)) (Qmin (y1 b1) (y1 b2))
        (Qmax (x2 b1) (x2 b2)) (Qmax (y2 b1) (y2 b2)).

(** One row of [expand_boxes(boxes, r_x, r_y)]. *)
Definition expand_box (r_x r_y : Q) (b : Box) : Box :=
  let dw := (x2 b - x1 b) / 2 * (r_x - 1) in
  let dh := (y2 b - y1 b) / 2 * (r_y - 1) in
  mkBox (clip (x1 b - dw) 0 1) (clip (y1 b - dh) 0 1)
        (clip (x2 b + dw) 0 1) (clip (y2 b + dh) 0 1).

Definition expand_boxes (boxes : list Box) (r_x r_y : Q) : list Box :=
  map (expand_box r_x r_y) boxes.

(** ** Table caption expansion *)

Definition round_entry (b : Box) (score : Q) : Detection :=
  mkDet (mkBox (round4 (x1 b)) (round4 (y1 b)) (round4 (x2 b)) (round4 (y2 b)))
        (round4 score).

(** The body of the inner loop of [expand_table_bboxes]. *)
Definition expand_table_entry (label : Label) (bbox_and_score : Detection)
  : Detection :=
  let bbox := bbox bbox_and_score in
  let score := confidence bbox_and_score in
  let bbox :=
    if Label_eqb label Table then
      let height := y2 bbox - y1 bbox in
      mkBox (x1 bbox) (Qmax 0 (Qmin 1 (y1 bbox - height * 0.2)))
            (x2 bbox) (y2 bbox)
    else bbox in
  round_entry bbox score.

Definition expand_table_bboxes (annotation_dict : AnnotationSet)
  : AnnotationSet :=
  if (length (table annotation_dict) =? 0)%nat then annotation_dict
  else
    fold_left
      (fun new_annotation_dict '(label, bboxes) =>
         fold_left
           (fun acc bbox_and_score =>
              append_at label (expand_table_entry label bbox_and_score) acc)
           bboxes new_annotation_dict)
      (items annotation_dict) empty_annotation.

(** ** Final threshold filter *)

(** The loop body at the end of [process_inference_results]. *)
Definition final_filter (final_thresh : Q) (annotation_dict : AnnotationSet)
  : AnnotationSet :=
  mkAnn
    (filter (fun bb => Qle_bool final_thresh (confidence bb))
            (table annotation_dict))
    (filter (fun bb => Qle_bool final_thresh (confidence bb))
            (chart annotation_dict))
    (title annotation_dict).

(** ** Box fusion engine *)

Inductive conf_type : Type := Avg | Max.
Inductive merge_type : Type := Weighted | Biggest.

(** The 8-wide row [label, score, weight, model index, x1, y1, x2, y2]. *)
Record FusionRecord : Type := mkRec {
  f_label : Z;
  f_score : Q;
  f_weight : Q;
  f_model : Z;
  f_box : Box
}.

(** A key of the dictionary of [prefilter_boxes]: the label, or ["*"]
    ([None]) in class-agnostic mode.  The dictionary keeps insertion order. *)
Definition bucket_key : Type := option Z.

Definition key_eqb (a b : bucket_key) : bool :=
  match a, b with
  | Some x, Some y => (x =? y)%Z
  | None, None => true
  | _, _ => false
  end.

Definition buckets : Type := list (bucket_key * list FusionRecord).

(** [if k not in d: d[k] = []] followed by [d[k].append(b)]. *)
Fixpoint bucket_append (k : bucket_key) (b : FusionRecord) (d : buckets)
  : buckets :=
  match d with
  | [] => [(k, [b])]
  | (k', l) :: rest =>
      if key_eqb k k' then (k', l ++ [b]) :: rest
      else (k', l) :: bucket_append k b rest
  end.

(** [arr[arr[:, 1].argsort()[::-1]]]: ascending sort on the score, reversed.
    numpy's default sort is not specified to be stable; here the ascending
    sort is the stable insertion sort (what numpy runs on short arrays), so
    rows of equal score come out in the reverse of their arrival order. *)
Fixpoint insert_by_score (x : FusionRecord) (l : list FusionRecord)
  : list FusionRecord :=
  match l with
  | [] => [x]
  | y :: rest =>
      if Qle_bool (f_score x) (f_score y) then x :: y :: rest
      else y :: insert_by_score x rest
  end.

Definition sort_by_score (l : list FusionRecord) : list FusionRecord :=
  fold_right insert_by_score [] l.

Definition sort_by_score_desc (l : list FusionRecord) : list FusionRecord :=
  rev (sort_by_score l).

(** The coordinate checks of [prefilter_boxes]: swaps, then clamps. *)
Definition repair_box (box_part : Box) : Box :=
  let x1' := x1 box_part in
  let y1' := y1 box_part in
  let x2' := x2 box_part in
  let y2' := y2 box_part in
  let '(x1', x2') := if Qlt_bool x2' x1' then (x2', x1') else (x1', x2') in
  let '(y1', y2') := if Qlt_bool y2' y1' then (y2', y1') else (y1', y2') in
  let x1' := if Qlt_bool x1' 0 then 0 else x1' in
  let x1' := if Qlt_bool 1 x1' then 1 else x1' in
  let x2' := if Qlt_bool x2' 0 then 0 else x2' in
  let x2' := if Qlt_bool 1 x2' then 1 else x2' in
  let y1' := if Qlt_bool y1' 0 then 0 else y1' in
  let y1' := if Qlt_bool 1 y1' then 1 else y1' in
  let y2' := if Qlt_bool y2' 0 then 0 else y2' in
  let y2' := if Qlt_bool 1 y2' then 1 else y2' in
  mkBox x1' y1' x2' y2'.

(** The body of the loop over [j] of [prefilter_boxes], for model [t].
    [weights[t]] is read when the row is built, so only for a box that
    passes the score and the area tests; a missing weight is an
    [IndexError] there. *)
Definition prefilter_one (t : nat) (weights : list Q) (thr : Q)
  (class_agnostic : bool) (new_boxes : buckets)
  (box_part : Box) (score : Q) (label : Z) : result buckets :=
  if Qlt_bool score thr then Ok new_boxes
  else
    let b := repair_box box_part in
    if Qeq_bool ((x2 b - x1 b) * (y2 b - y1 b)) 0 then Ok new_boxes
    else
      weight <- getitem weights t ;;
      let r := mkRec label (score * weight) weight (Z.of_nat t) b in
      let label_k := if class_agnostic then None else Some label in
      Ok (bucket_append label_k r new_boxes).

Fixpoint prefilter_rows (t : nat) (weights : list Q) (thr : Q)
  (class_agnostic : bool) (new_boxes : buckets)
  (boxes : list Box) (scores : list Q) (labels : list Z) : result buckets :=
  match boxes, scores, labels with
  | box_part :: boxes', score :: scores', label :: labels' =>
      new_boxes' <-
        prefilter_one t weights thr class_agnostic new_boxes
          box_part score label ;;
      prefilter_rows t weights thr class_agnostic new_boxes'
        boxes' scores' labels'
  | _, _, _ => Ok new_boxes
  end.

(** The loop over [t] of [prefilter_boxes].  A length mismatch inside a
    model ends the process ([exit()]); a missing [scores[t]] or [labels[t]]
    is an [IndexError]. *)
Fixpoint prefilter_models (t : nat) (boxes : list (list Box))
  (scores : list (list Q)) (labels : list (list Z)) (weights : list Q)
  (thr : Q) (class_agnostic : bool) (new_boxes : buckets) : result buckets :=
  match boxes with
  | [] => Ok new_boxes
  | boxes_t :: boxes' =>
      scores_t <- getitem scores t ;;
      if negb (length boxes_t =? length scores_t)%nat then Raise SystemExit
      else
        labels_t <- getitem labels t ;;
        if negb (length boxes_t =? length labels_t)%nat then Raise SystemExit
        else
          new_boxes' <-
            prefilter_rows t weights thr class_agnostic new_boxes
              boxes_t scores_t labels_t ;;
          prefilter_models (S t) boxes' scores labels weights thr
            class_agnostic new_boxes'
  end.

Definition prefilter_boxes (boxes : list (list Box)) (scores : list (list Q))
  (labels : list (list Z)) (weights : list Q) (thr : Q)
  (class_agnostic : bool) : result buckets :=
  new_boxes <-
    prefilter_models 0 boxes scores labels weights thr class_agnostic [] ;;
  Ok (map (fun '(k, current_boxes) => (k, sort_by_score_desc current_boxes))
          new_boxes).

(** [find_matching_box_fast]; the index [-1] is [None]. *)
Definition find_matching_box_fast (boxes_list : list FusionRecord)
  (new_box : FusionRecord) (match_iou : Q) : option nat * Q :=
  match bb_iou_array (map f_box boxes_list) (f_box new_box) with
  | [] => (None, match_iou)
  | iou0 :: ious' =>
      let best_idx := argmax_from iou0 0%nat 1%nat ious' in
      let best_iou := nth best_idx (iou0 :: ious') 0 in
      if Qle_bool best_iou match_iou then (None, match_iou)
      else (Some best_idx, best_iou)
  end.

(** [list(set(l))] for a list of row indices: the distinct elements, taken
    in increasing order.  Python leaves the order of iteration of a set
    open.  CPython iterates a set of non-negative integers in increasing
    order as long as they are below the size of its table, which is 8 for
    a set of up to four members; beyond, the order may be another one.
    What is proved of the clusters below is about their members. *)
Fixpoint set_add (x : nat) (s : list nat) : list nat :=
  match s with
  | [] => [x]
  | y :: rest =>
      if (x <? y)%nat then x :: y :: rest
      else if (x =? y)%nat then y :: rest
      else y :: set_add x rest
  end.

Definition list_set (l : list nat) : list nat :=
  fold_left (fun s x => set_add x s) l [].

Definition mem (x : nat) (l : list nat) : bool := existsb (Nat.eqb x) l.

(** [[ci for ci, clust in enumerate(clusters) if j in clust or index in
    clust]], counting from [ci]. *)
Fixpoint cluster_idx_from (ci : nat) (j index : nat)
  (clusters : list (list nat)) : list nat :=
  match clusters with
  | [] => []
  | clust :: rest =>
      if mem j clust || mem index clust
      then ci :: cluster_idx_from (S ci) j index rest
      else cluster_idx_from (S ci) j index rest
  end.

(** [l[i] = v] for [i] in range. *)
Fixpoint setitem {A : Type} (l : list A) (i : nat) (v : A) : list A :=
  match l, i with
  | [], _ => []
  | _ :: rest, O => v :: rest
  | a :: rest, S i' => a :: setitem rest i' v
  end.

(** The body of the clustering loop of [weighted_boxes_fusion]. *)
Definition cluster_step (boxes : list FusionRecord) (iou_thr : Q)
  (clusters : list (list nat)) (j : nat) : result (list (list nat)) :=
  let ids := filter (fun i => negb (i =? j)%nat) (seq 0 (length boxes)) in
  boxes_ids <- take_rows boxes ids ;;
  boxes_j <- getitem boxes j ;;
  match fst (find_matching_box_fast boxes_ids boxes_j iou_thr) with
  | Some index =>
      index <- getitem ids index ;;
      match cluster_idx_from 0 j index clusters with
      | cluster_idx :: _ =>
          clust <- getitem clusters cluster_idx ;;
          Ok (setitem clusters cluster_idx (list_set (clust ++ [index; j])))
      | [] => Ok (clusters ++ [[index; j]])
      end
  | None => Ok (clusters ++ [[j]])
  end.

Fixpoint clusterize_from (boxes : list FusionRecord) (iou_thr : Q)
  (clusters : list (list nat)) (js : list nat) : result (list (list nat)) :=
  match js with
  | [] => Ok clusters
  | j :: js' =>
      clusters' <- cluster_step boxes iou_thr clusters j ;;
      clusterize_from boxes iou_thr clusters' js'
  end.

Definition clusterize (boxes : list FusionRecord) (iou_thr : Q)
  : result (list (list nat)) :=
  clusterize_from boxes iou_thr [] (seq 0 (length boxes)).

(** [len(np.unique(labels))]: the number of distinct labels. *)
Definition np_unique (labels : list Z) : list Z := nodup Z.eq_dec labels.

(** [merge_labels(labels, confs)].  The mask of [confs] compares the
    confidences with 2, as the code does; the mask of [labels] compares the
    labels with 2. *)
Definition merge_labels (labels : list Z) (confs : list Q) : result Z :=
  if (length (np_unique labels) =? 1)%nat then getitem labels 0
  else
    let confs := filter (fun c => negb (Qeq_bool c 2)) confs in
    let labels := filter (fun l => negb (l =? 2)%Z) labels in
    i <- argmax confs ;;
    getitem labels i.

Definition conf_of (ct : conf_type) (conf_list : list Q) : result Q :=
  match ct with
  | Max => np_max conf_list
  | Avg => Ok (np_mean conf_list)
  end.

(** [get_biggest_box(boxes, conf_type)].  The source builds the row in a
    [float32] array: the numbers it returns are those computed here,
    rounded to single precision.  That rounding is not represented. *)
Definition get_biggest_box (boxes : list FusionRecord) (ct : conf_type)
  : result FusionRecord :=
  boxes_0 <- getitem boxes 0 ;;
  let '(box, conf_list, w) :=
    fold_left
      (fun '(box, conf_list, w) b =>
         (mkBox (Qmin (x1 box) (x1 (f_box b))) (Qmin (y1 box) (y1 (f_box b)))
                (Qmax (x2 box) (x2 (f_box b))) (Qmax (y2 box) (y2 (f_box b))),
          conf_list ++ [f_score b],
          w + f_weight b))
      boxes (f_box boxes_0, [], 0) in
  label <- merge_labels (map f_label boxes) (map f_score boxes) ;;
  conf <- conf_of ct conf_list ;;
  Ok (mkRec label conf w (-1) box).

Definition box_scale (c : Q) (b : Box) : Box :=
  mkBox (c * x1 b) (c * y1 b) (c * x2 b) (c * y2 b).

Definition box_add (a b : Box) : Box :=
  mkBox (x1 a + x1 b) (y1 a + y1 b) (x2 a + x2 b) (y2 a + y2 b).

Definition box_div (a : Box) (c : Q) : Box :=
  mkBox (x1 a / c) (y1 a / c) (x2 a / c) (y2 a / c).

(** [get_weighted_box(boxes, conf_type)].  The division by a zero sum of
    scores is 0 here, nan in numpy.  As in [get_biggest_box], the source
    builds the row in a [float32] array, and the rounding to single
    precision is not represented. *)
Definition get_weighted_box (boxes : list FusionRecord) (ct : conf_type)
  : result FusionRecord :=
  let '(box, conf, conf_list, w) :=
    fold_left
      (fun '(box, conf, conf_list, w) b =>
         (box_add box (box_scale (f_score b) (f_box b)),
          conf + f_score b,
          conf_list ++ [f_score b],
          w + f_weight b))
      boxes (mkBox 0 0 0 0, 0, [], 0) in
  label <- merge_labels (map f_label boxes) (map f_score boxes) ;;
  conf' <- conf_of ct conf_list ;;
  Ok (mkRec label conf' w (-1) (box_div box conf)).

Definition set_score (s : Q) (b : FusionRecord) : FusionRecord :=
  mkRec (f_label b) s (f_weight b) (f_model b) (f_box b).

(** The body of the loop over the clusters of one bucket. *)
Definition merge_cluster (boxes : list FusionRecord) (weights : list Q)
  (ct : conf_type) (mt : merge_type) (c : list nat) : result FusionRecord :=
  boxes_c <- take_rows boxes c ;;
  weighted_box <-
    match mt with
    | Weighted => get_weighted_box boxes_c ct
    | Biggest => get_biggest_box boxes_c ct
    end ;;
  match ct with
  | Max =>
      m <- np_max weights ;;
      Ok (set_score (f_score weighted_box / m) weighted_box)
  | Avg =>
      Ok (set_score
            (f_score weighted_box * inject_Z (Z.of_nat (length c))
             / np_sum weights)
            weighted_box)
  end.

(** The body of the loop over the buckets. *)
Definition fuse_bucket (weights : list Q) (iou_thr : Q) (ct : conf_type)
  (mt : merge_type) (boxes : list FusionRecord)
  : result (list FusionRecord) :=
  clusters <- clusterize boxes iou_thr ;;
  mapM (merge_cluster boxes weights ct mt) clusters.

Fixpoint fuse_buckets (weights : list Q) (iou_thr : Q) (ct : conf_type)
  (mt : merge_type) (filtered_boxes : buckets)
  : result (list FusionRecord) :=
  match filtered_boxes with
  | [] => Ok []
  | (_, boxes) :: rest =>
      merged <- fuse_bucket weights iou_thr ct mt boxes ;;
      others <- fuse_buckets weights iou_thr ct mt rest ;;
      Ok (merged ++ others)
  end.

(** [weighted_boxes_fusion]: the merged boxes, confidences and labels. *)
Definition weighted_boxes_fusion (boxes_list : list (list Box))
  (scores_list : list (list Q)) (labels_list : list (list Z))
  (iou_thr : Q) (skip_box_thr : Q) (ct : conf_type) (mt : merge_type)
  (class_agnostic : bool) : result (list Box * list Q * list Z) :=
  let weights := repeat 1 (length boxes_list) in
  filtered_boxes <-
    prefilter_boxes boxes_list scores_list labels_list weights skip_box_thr
      class_agnostic ;;
  if (length filtered_boxes =? 0)%nat then Ok ([], [], [])
  else
    overall_boxes <- fuse_buckets weights iou_thr ct mt filtered_boxes ;;
    let overall_boxes := sort_by_score_desc overall_boxes in
    Ok (map f_box overall_boxes, map f_score overall_boxes,
        map f_label overall_boxes).

(** ** Chart and title fusion *)

(** [np.where(mask)[0]]: the indices where the mask holds, counting from
    [i]. *)
Fixpoint np_where_from {A : Type} (i : nat) (p : A -> bool) (l : list A)
  : list nat :=
  match l with
  | [] => []
  | x :: rest =>
      if p x then i :: np_where_from (S i) p rest
      else np_where_from (S i) p rest
  end.

Definition np_where {A : Type} (p : A -> bool) (l : list A) : list nat :=
  np_where_from 0 p l.

(** Elementwise operation on two arrays of one length. *)
Fixpoint map2 {A B C : Type} (f : A -> B -> C) (l : list A) (m : list B)
  : list C :=
  match l, m with
  | a :: l', b :: m' => f a b :: map2 f l' m'
  | _, _ => []
  end.

(** The loop [for match in matches: new_bbox = merge_boxes(...)]. *)
Fixpoint merge_matches (new_bbox : Box) (title_bboxes : list Box)
  (matches : list nat) : result Box :=
  match matches with
  | [] => Ok new_bbox
  | m :: rest =>
      t <- getitem title_bboxes m ;;
      merge_matches (merge_boxes new_bbox t) title_bboxes rest
  end.

(** [match_with_title(chart_bbox, title_bboxes, iou_th)]; Python's [None]
    is [Ok None]. *)
Definition match_with_title (chart_bbox : Box) (title_bboxes : list Box)
  (iou_th : Q) : result (option (Box * list Box)) :=
  if (length title_bboxes =? 0)%nat then Ok None
  else
    let dist_above :=
      map (fun t => Qabs (y2 t - y1 chart_bbox)) title_bboxes in
    let dist_below :=
      map (fun t => Qabs (y2 chart_bbox - y1 t)) title_bboxes in
    let dist_left :=
      map (fun t => Qabs (x1 t - x1 chart_bbox)) title_bboxes in
    let ious := bb_iou_array title_bboxes chart_bbox in
    max_iou <- np_max ious ;;
    matches <-
      (if Qlt_bool iou_th max_iou
       then Ok (Some (np_where (fun v => Qlt_bool iou_th v) ious))
       else
         let dists := map2 Qmin dist_above dist_below in
         let dists := map2 Qplus dists dist_left in
         min_dist <- np_min dists ;;
         if Qlt_bool min_dist 0.1
         then i <- argmin dists ;; Ok (Some [i])
         else Ok None) ;;
    match matches with
    | Some matches =>
        new_bbox <- merge_matches chart_bbox title_bboxes matches ;;
        title_bboxes' <-
          take_rows title_bboxes
            (filter (fun i => negb (mem i matches))
                    (seq 0 (length title_bboxes))) ;;
        Ok (Some (new_bbox, title_bboxes'))
    | None => Ok None
    end.

(** [arr[mask]] for a boolean mask of the length of [arr]. *)
Fixpoint np_mask {A : Type} (arr : list A) (mask : list bool) : list A :=
  match arr, mask with
  | a :: arr', m :: mask' =>
      if m then a :: np_mask arr' mask' else np_mask arr' mask'
  | _, _ => []
  end.

(** [arr[idxs] = vals], row by row. *)
Fixpoint put_rows {A : Type} (arr : list A) (idxs : list nat) (vals : list A)
  : result (list A) :=
  match idxs, vals with
  | i :: idxs', v :: vals' =>
      if (i <? length arr)%nat then put_rows (setitem arr i v) idxs' vals'
      else Raise IndexError
  | _, _ => Ok arr
  end.

(** The state of the loop over the chart boxes of [expand_chart_bboxes]. *)
Record match_state : Type := mkState {
  st_chart_bboxes : list Box;
  st_title_bboxes : list Box;
  st_found_title_idxs : list nat;
  st_no_found_title_idxs : list nat
}.

Definition match_step (st : match_state) (i : nat) : result match_state :=
  chart_i <- getitem (st_chart_bboxes st) i ;;
  m <- match_with_title chart_i (st_title_bboxes st) 0.01 ;;
  match m with
  | Some (new_bbox, remaining) =>
      Ok (mkState (setitem (st_chart_bboxes st) i new_bbox) remaining
                  (st_found_title_idxs st ++ [i]) (st_no_found_title_idxs st))
  | None =>
      Ok (mkState (st_chart_bboxes st) (st_title_bboxes st)
                  (st_found_title_idxs st) (st_no_found_title_idxs st ++ [i]))
  end.

Fixpoint match_loop (st : match_state) (idxs : list nat)
  : result match_state :=
  match idxs with
  | [] => Ok st
  | i :: rest =>
      st' <- match_step st i ;;
      match_loop st' rest
  end.

(** The three parallel arrays built at the start of [expand_chart_bboxes]:
    the rows of the labels in the order table, chart, title. *)
Definition concat_annotations (annotation_dict : AnnotationSet)
  : list Box * list Q * list Z :=
  fold_left
    (fun '(bboxes, confidences, label_idxs) '(label, label_annotations) =>
       if (0 <? length label_annotations)%nat then
         (bboxes ++ map bbox label_annotations,
          confidences ++ map confidence label_annotations,
          label_idxs
            ++ repeat (class_index label) (length label_annotations))
       else (bboxes, confidences, label_idxs))
    (items annotation_dict) ([], [], []).

(** The fusion call of [expand_chart_bboxes]: every row is a model of its
    own ([bboxes[:, None]]). *)
Definition fuse_annotations (annotation_dict : AnnotationSet)
  : result (list Box * list Q * list Z) :=
  let '(bboxes, confidences, label_idxs) :=
    concat_annotations annotation_dict in
  weighted_boxes_fusion
    (map (fun b => [b]) bboxes) (map (fun c => [c]) confidences)
    (map (fun l => [l]) label_idxs)
    0.01 0 Max Biggest false.

Definition expand_chart_bboxes (annotation_dict : AnnotationSet)
  : result AnnotationSet :=
  if (length (chart annotation_dict) =? 0)%nat then Ok annotation_dict
  else
    ' (pred_wbf, confidences_wbf, labels_wbf) <-
      fuse_annotations annotation_dict ;;
    let chart_bboxes := np_mask pred_wbf (map (Z.eqb 1) labels_wbf) in
    let chart_confidences :=
      np_mask confidences_wbf (map (Z.eqb 1) labels_wbf) in
    let title_bboxes := np_mask pred_wbf (map (Z.eqb 2) labels_wbf) in
    st <- match_loop (mkState chart_bboxes title_bboxes [] [])
            (seq 0 (length chart_bboxes)) ;;
    let chart_bboxes := st_chart_bboxes st in
    found <- take_rows chart_bboxes (st_found_title_idxs st) ;;
    chart_bboxes <-
      put_rows chart_bboxes (st_found_title_idxs st)
        (expand_boxes found 1.05 1.1) ;;
    no_found <- take_rows chart_bboxes (st_no_found_title_idxs st) ;;
    chart_bboxes <-
      put_rows chart_bboxes (st_no_found_title_idxs st)
        (expand_boxes no_found 1.1 1.25) ;;
    Ok (mkAnn (table annotation_dict)
              (map2 mkDet chart_bboxes chart_confidences)
              (title annotation_dict)).

(** ** Detector output normalizer *)

Definition YOLOX_IMAGE_PREPROC_HEIGHT : Q := 1024.
Definition YOLOX_IMAGE_PREPROC_WIDTH : Q := 1024.

(** A two-dimensional array: its second dimension and its rows (each of
    [ncols] numbers). *)
Record Array2 : Type := mkArr { ncols : nat; rows : list (list Q) }.

Definition shape (a : Array2) : nat * nat := (length (rows a), ncols a).

(** [a[:, k]]. *)
Definition column (a : Array2) (k : nat) : result (list Q) :=
  if (k <? ncols a)%nat then Ok (map (fun r => nth k r 0) (rows a))
  else Raise IndexError.

(** The batch tensor [batch, candidates, columns] of the detector. *)
Record Tensor3 : Type := mkTensor {
  t_ncols : nat;
  t_images : list (list (list Q))
}.

(** [int(x)]: truncation toward zero. *)
Definition int_of (x : Q) : Z :=
  if Qle_bool 0 x then Qfloor x else Qceiling x.

(** [class_labels[i]] for [class_labels = ["table", "chart", "title"]];
    a negative index counts from the end. *)
Definition class_labels (i : Z) : result Label :=
  match i with
  | 0%Z | (-3)%Z => Ok Table
  | 1%Z | (-2)%Z => Ok Chart
  | 2%Z | (-1)%Z => Ok Title
  | _ => Raise IndexError
  end.

(** [a / b] on Python integers. *)
Definition py_div (a : Q) (b : nat) : result Q :=
  match b with
  | O => Raise ZeroDivisionError
  | S _ => Ok (a / inject_Z (Z.of_nat b))
  end.

(** [r[5 : 5 + num_classes]] for a row of [ncols] numbers. *)
Definition class_slice (ncols num_classes : nat) (r : list Q) : list Q :=
  firstn num_classes (skipn 5 (firstn ncols r)).

Section Normalizer.

(** [torchvision.ops.nms(boxes, scores, iou_threshold)] and
    [torchvision.ops.batched_nms(boxes, scores, idxs, iou_threshold)]: the
    indices of the rows kept. *)
Variable nms : list Box -> list Q -> Q -> list nat.
Variable batched_nms : list Box -> list Q -> list Q -> Q -> list nat.

(** The corner form of one row of the prediction. *)
Definition box_corner (r : list Q) : list Q :=
  let cx := nth 0 r 0 in
  let cy := nth 1 r 0 in
  let w := nth 2 r 0 in
  let h := nth 3 r 0 in
  [cx - w / 2; cy - h / 2; cx + w / 2; cy + h / 2] ++ skipn 4 r.

Definition row_box (r : list Q) : Box :=
  mkBox (nth 0 r 0) (nth 1 r 0) (nth 2 r 0) (nth 3 r 0).

(** The body of the loop over the images of
    [postprocess_model_prediction]; [None] is the entry left at [None]. *)
Definition postprocess_image (ncols : nat) (num_classes : nat)
  (conf_thre nms_thre : Q) (class_agnostic : bool)
  (image_pred : list (list Q)) : result (option Array2) :=
  if (length image_pred =? 0)%nat then Ok None
  else
    let class_scores := map (class_slice ncols num_classes) image_pred in
    (* torch.max over a dimension of size zero *)
    if (Nat.min (ncols - 5) num_classes =? 0)%nat then Raise IndexError
    else
      class_conf <- mapM np_max class_scores ;;
      class_pred <- mapM argmax class_scores ;;
      let detections :=
        map2 (fun r '(cc, cp) => firstn 5 r ++ [cc; inject_Z (Z.of_nat cp)])
             image_pred (combine class_conf class_pred) in
      let detections :=
        filter (fun d => Qle_bool conf_thre (nth 4 d 0 * nth 5 d 0))
               detections in
      if (length detections =? 0)%nat then Ok None
      else
        let boxes := map row_box detections in
        let scores := map (fun d => nth 4 d 0 * nth 5 d 0) detections in
        let nms_out_index :=
          if class_agnostic then nms boxes scores nms_thre
          else batched_nms boxes scores (map (fun d => nth 6 d 0) detections)
                 nms_thre in
        detections <- take_rows detections nms_out_index ;;
        Ok (Some (mkArr 7 detections)).

Definition postprocess_model_prediction (prediction : Tensor3)
  (num_classes : nat) (conf_thre nms_thre : Q) (class_agnostic : bool)
  : result (list (option Array2)) :=
  if (t_ncols prediction <? 4)%nat then Raise IndexError
  else
    mapM (fun image_pred =>
            postprocess_image (t_ncols prediction) num_classes conf_thre
              nms_thre class_agnostic (map box_corner image_pred))
         (t_images prediction).

(** The [try] block of [postprocess_results].  The second component of an
    error is the shape of [result] at the time of the exception: [result]
    is rebound to the rows above [min_score] after the scores are read. *)
Definition postprocess_try (original_image_shape : list nat)
  (result0 : Array2) (min_score : Q)
  : (list Box * list Q * list Q) + (nat * nat) * exn :=
  match column result0 4 with
  | Raise e => inr (shape result0, e)
  | Ok c4 =>
  match column result0 5 with
  | Raise e => inr (shape result0, e)
  | Ok c5 =>
    let scores := map2 Qmult c4 c5 in
    let keep := map (fun s => Qlt_bool min_score s) scores in
    let result1 := mkArr (ncols result0) (np_mask (rows result0) keep) in
    let r :=
      d0 <- getitem original_image_shape 0 ;;
      a <- py_div YOLOX_IMAGE_PREPROC_WIDTH d0 ;;
      d1 <- getitem original_image_shape 1 ;;
      b <- py_div YOLOX_IMAGE_PREPROC_HEIGHT d1 ;;
      let ratio := Qmin a b in
      let bboxes :=
        map (fun r =>
               mkBox
                 (clip (nth 0 r 0 / ratio / inject_Z (Z.of_nat d1)) 0 1)
                 (clip (nth 1 r 0 / ratio / inject_Z (Z.of_nat d0)) 0 1)
                 (clip (nth 2 r 0 / ratio / inject_Z (Z.of_nat d1)) 0 1)
                 (clip (nth 3 r 0 / ratio / inject_Z (Z.of_nat d0)) 0 1))
            (rows result1) in
      labels <- column result1 6 ;;
      let scores := np_mask scores keep in
      Ok (bboxes, scores, labels) in
    match r with
    | Ok v => inl v
    | Raise e => inr (shape result1, e)
    end
  end
  end.

(** The loop after the [try] block. *)
Fixpoint bucket_rows (annotation_dict : AnnotationSet) (bboxes : list Box)
  (scores labels : list Q) : result AnnotationSet :=
  match bboxes, scores, labels with
  | box :: bboxes', score :: scores', label :: labels' =>
      class_name <- class_labels (int_of label) ;;
      bucket_rows (append_at class_name (round_entry box score) annotation_dict)
        bboxes' scores' labels'
  | _, _, _ => Ok annotation_dict
  end.

(** The body of the loop over the images of [postprocess_results]. *)
Definition postprocess_result (original_image_shape : list nat)
  (res : option Array2) (min_score : Q) : result AnnotationSet :=
  let annotation_dict := empty_annotation in
  match res with
  | None => Ok annotation_dict
  | Some result0 =>
      match postprocess_try original_image_shape result0 min_score with
      | inr (shp, e) => Raise (ValueError shp original_image_shape e)
      | inl (bboxes, scores, labels) =>
          bucket_rows annotation_dict bboxes scores labels
      end
  end.

Definition postprocess_results (results : list (option Array2))
  (original_image_shapes : list (list nat)) (min_score : Q)
  : result (list AnnotationSet) :=
  mapM (fun '(original_image_shape, res) =>
          postprocess_result original_image_shape res min_score)
       (combine original_image_shapes results).

(** ** The pipeline *)

(** What the detector client hands over: the annotation dictionaries of the
    HTTP backend, or the raw tensor of the gRPC backend. *)
Inductive model_output : Type :=
| Http (output : list AnnotationSet)
| Grpc (output : Tensor3).

Definition process_inference_results (output : model_output)
  (original_image_shapes : list (list nat)) (num_classes : nat)
  (conf_thresh iou_thresh min_score final_thresh : Q)
  : result (list AnnotationSet) :=
  results <-
    match output with
    | Http output => Ok output
    | Grpc output =>
        pred <- postprocess_model_prediction output num_classes conf_thresh
                  iou_thresh true ;;
        postprocess_results pred original_image_shapes min_score
    end ;;
  let annotation_dicts := map expand_table_bboxes results in
  annotation_dicts <- mapM expand_chart_bboxes annotation_dicts ;;
  Ok (map (final_filter final_thresh) annotation_dicts).

End Normalizer.

(** ** Detector client: batching and the HTTP response *)

(** The exceptions of the client code. *)
Inductive client_exn : Type :=
| KeyError (key : string)
| AttributeError
  (** [ValueError("Invalid protocol specified. ...")] *)
| InvalidProtocol
  (** [ValueError("range() arg 3 must not be zero")] *)
| ZeroStep.

Inductive client_result (A : Type) : Type :=
| Done (a : A)
| Fail (e : client_exn).

Arguments Done {A} a.
Arguments Fail {A} e.

Definition client_bind {A B : Type} (m : client_result A)
  (k : A -> client_result B) : client_result B :=
  match m with
  | Done a => k a
  | Fail e => Fail e
  end.

(** [range(start, stop, step)] for a positive [step], as the list of its
    values; [fuel] bounds the number of values. *)
Fixpoint range_from (fuel start stop step : nat) : list nat :=
  match fuel with
  | O => []
  | S fuel' =>
      if (start <? stop)%nat
      then start :: range_from fuel' (start + step) stop step
      else []
  end.

(** [lst[i : j]] for [0 <= i]. *)
Definition slice {A : Type} (lst : list A) (i j : nat) : list A :=
  firstn (j - i) (skipn i lst).

(** [list(chunkify(lst, chunk_size))].  A zero step makes [range] raise; a
    negative step gives an empty range. *)
Definition chunkify {A : Type} (lst : list A) (chunk_size : Z)
  : client_result (list (list A)) :=
  if (chunk_size =? 0)%Z then Fail ZeroStep
  else if (chunk_size <? 0)%Z then Done []
  else
    let step := Z.to_nat chunk_size in
    Done (map (fun i => slice lst i (i + step))
              (range_from (length lst) 0 (length lst) step)).

(** A bounding box of the HTTP response: a dictionary from key to number. *)
Definition json_bbox : Type := list (string * Q).

(** [d[key]]. *)
Fixpoint json_get (d : json_bbox) (key : string) : client_result Q :=
  match d with
  | [] => Fail (KeyError key)
  | (k, v) :: rest => if String.eqb k key then Done v else json_get rest key
  end.

(** An entry of [response["data"]]: its ["bounding_boxes"] dictionary from
    object type to boxes, when it has one. *)
Definition json_detection : Type :=
  option (list (string * list json_bbox)).

(** What the client receives: the array of the gRPC back end, or the JSON
    object of the HTTP back end with its ["data"] list, when it has one. *)
Inductive model_response : Type :=
| RawArray (a : Tensor3)
| Json (data : option (list json_detection)).

(** [new_bounding_boxes[obj_type]] for the dictionary with the keys
    ["table"], ["chart"] and ["title"]. *)
Definition label_of_key (obj_type : string) : client_result Label :=
  if String.eqb obj_type "table" then Done Table
  else if String.eqb obj_type "chart" then Done Chart
  else if String.eqb obj_type "title" then Done Title
  else Fail (KeyError obj_type).

(** The body of the loop over the boxes of one object type. *)
Definition parse_bbox (obj_type : string) (new_bounding_boxes : AnnotationSet)
  (bbox : json_bbox) : client_result AnnotationSet :=
  client_bind (json_get bbox "x_min") (fun xmin =>
  client_bind (json_get bbox "y_min") (fun ymin =>
  client_bind (json_get bbox "x_max") (fun xmax =>
  client_bind (json_get bbox "y_max") (fun ymax =>
  client_bind (json_get bbox "confidence") (fun confidence =>
  client_bind (label_of_key obj_type) (fun label =>
  Done (append_at label (mkDet (mkBox xmin ymin xmax ymax) confidence)
          new_bounding_boxes))))))).

Fixpoint parse_bboxes (obj_type : string) (new_bounding_boxes : AnnotationSet)
  (bboxes : list json_bbox) : client_result AnnotationSet :=
  match bboxes with
  | [] => Done new_bounding_boxes
  | bbox :: rest =>
      client_bind (parse_bbox obj_type new_bounding_boxes bbox)
        (fun acc => parse_bboxes obj_type acc rest)
  end.

Fixpoint parse_items (new_bounding_boxes : AnnotationSet)
  (bounding_boxes : list (string * list json_bbox))
  : client_result AnnotationSet :=
  match bounding_boxes with
  | [] => Done new_bounding_boxes
  | (obj_type, bboxes) :: rest =>
      client_bind (parse_bboxes obj_type new_bounding_boxes bboxes)
        (fun acc => parse_items acc rest)
  end.

(** The body of the loop over [batch_results].  Without the key
    ["bounding_boxes"] the default [[]] has no [items]. *)
Definition parse_detection (detections : json_detection)
  : client_result AnnotationSet :=
  match detections with
  | None => Fail AttributeError
  | Some bounding_boxes => parse_items empty_annotation bounding_boxes
  end.

Fixpoint parse_detections (batch_results : list json_detection)
  : client_result (list AnnotationSet) :=
  match batch_results with
  | [] => Done []
  | detections :: rest =>
      client_bind (parse_detection detections) (fun new_bounding_boxes =>
      client_bind (parse_detections rest) (fun processed_outputs =>
      Done (new_bounding_boxes :: processed_outputs)))
  end.

(** What [parse_output] returns: the response itself for gRPC, the
    annotation dictionaries for HTTP. *)
Inductive parsed_output : Type :=
| Unparsed (response : model_response)
| Parsed (processed_outputs : list AnnotationSet).

Definition parse_output (response : model_response) (protocol : string)
  : client_result parsed_output :=
  if String.eqb protocol "grpc" then Done (Unparsed response)
  else if String.eqb protocol "http" then
    match response with
    | RawArray _ => Fail AttributeError
    | Json data =>
        let batch_results := match data with Some l => l | None => [] end in
        client_bind (parse_detections batch_results) (fun processed_outputs =>
        Done (Parsed processed_outputs))
    end
  else Fail InvalidProtocol.

(** ** Invariants *)

(** A box inside the unit square, of positive width and height. *)
Definition valid_box (b : Box) : Prop :=
  0 <= x1 b /\ x1 b < x2 b /\ x2 b <= 1
  /\ 0 <= y1 b /\ y1 b < y2 b /\ y2 b <= 1.

(** A box inside the unit square, possibly of zero width or height. *)
Definition inside_box (b : Box) : Prop :=
  0 <= x1 b /\ x1 b <= x2 b /\ x2 b <= 1
  /\ 0 <= y1 b /\ y1 b <= y2 b /\ y2 b <= 1.

(** The clamps of [prefilter_boxes] on one coordinate, and its swap and
    clamps on one axis. *)
Definition clamp01 (v : Q) : Q :=
  let v := if Qlt_bool v 0 then 0 else v in
  if Qlt_bool 1 v then 1 else v.

Definition repair_axis (a b : Q) : Q * Q :=
  let '(a, b) := if Qlt_bool b a then (b, a) else (a, b) in
  (clamp01 a, clamp01 b).

(** What holds of the dictionary of [prefilter_boxes] without
    [class_agnostic]: no bucket is empty, the rows of a bucket carry its
    key as their label, and their boxes are valid. *)
Definition bucket_ok (kb : bucket_key * list FusionRecord) : Prop :=
  snd kb <> []
  /\ Forall (fun r => fst kb = Some (f_label r) /\ valid_box (f_box r))
       (snd kb).

(** What holds of a cluster of a bucket of [n] rows: it is not empty and
    its members are rows of the bucket. *)
Definition cluster_ok (n : nat) (c : list nat) : Prop :=
  c <> [] /\ Forall (fun i => (i < n)%nat) c.

(** The envelope of [box] and of the boxes of the rows [boxes]. *)
Definition envelope (box : Box) (boxes : list FusionRecord) : Box :=
  fold_left (fun box b => merge_boxes box (f_box b)) boxes box.

(** The rows of [l], numbered from [k], whose number satisfies [q]. *)
Fixpoint select {A : Type} (q : nat -> bool) (k : nat) (l : list A)
  : list A :=
  match l with
  | [] => []
  | x :: rest =>
      if q k then x :: select q (S k) rest else select q (S k) rest
  end.

(** What holds of the state of the loop over [n] chart boxes. *)
Definition state_ok (n : nat) (st : match_state) : Prop :=
  length (st_chart_bboxes st) = n
  /\ Forall valid_box (st_chart_bboxes st)
  /\ Forall valid_box (st_title_bboxes st)
  /\ Forall (fun i => (i < n)%nat) (st_found_title_idxs st)
  /\ Forall (fun i => (i < n)%nat) (st_no_found_title_idxs st).


Definition Qsum (l : list Q) : Q := fold_right Qplus 0 l.

(** The boxes that a ["bounding_boxes"] dictionary lists under [key]. *)
Definition boxes_of (key : string)
  (bounding_boxes : list (string * list json_bbox)) : list json_bbox :=
  flat_map (fun kb => if String.eqb (fst kb) key then snd kb else [])
    bounding_boxes.

(** The dictionary [b] holds the five numbers of the entry [d]. *)
Definition bbox_entry (b : json_bbox) (d : Detection) : Prop :=
  json_get b "x_min" = Done (x1 (bbox d))
  /\ json_get b "y_min" = Done (y1 (bbox d))
  /\ json_get b "x_max" = Done (x2 (bbox d))
  /\ json_get b "y_max" = Done (y2 (bbox d))
  /\ json_get b "confidence" = Done (confidence d).

(** [d[label].extend(ds)]. *)
Definition extend_at (l : Label) (ds : list Detection) (a : AnnotationSet)
  : AnnotationSet :=
  match l with
  | Table => mkAnn (table a ++ ds) (chart a) (title a)
  | Chart => mkAnn (table a) (chart a ++ ds) (title a)
  | Title => mkAnn (table a) (chart a) (title a ++ ds)
  end.

(** The box [outer] contains the box [inner]. *)
Definition contains (outer inner : Box) : Prop :=
  x1 outer <= x1 inner /\ y1 outer <= y1 inner
  /\ x2 inner <= x2 outer /\ y2 inner <= y2 outer.

(** The four coordinates of a box lie in [0, 1] (in any order). *)
Definition unit_coords (b : Box) : Prop :=
  (0 <= x1 b <= 1) /\ (0 <= y1 b <= 1) /\ (0 <= x2 b <= 1)
  /\ (0 <= y2 b <= 1).

(** The IoU of [bb_iou_array] for the two boxes is a number: the
    denominator of its quotient is not zero.  Where it is zero, numpy gives
    nan or an infinity, which no rational stands for. *)
Definition iou_defined (b new_box : Box) : Prop :=
  ~ area b + area new_box
    - Qmax (Qmin (x2 b) (x2 new_box) - Qmax (x1 b) (x1 new_box)) 0
      * Qmax (Qmin (y2 b) (y2 new_box) - Qmax (y1 b) (y1 new_box)) 0
    == 0.

(** The two boxes do not overlap: one lies beside, above or below the
    other. *)
Definition disjoint (a b : Box) : Prop :=
  x2 a <= x1 b \/ x2 b <= x1 a \/ y2 a <= y1 b \/ y2 b <= y1 a.

(** A row that [postprocess_model_prediction] keeps for an image: the
    corner box and the objectness of a candidate [r], its best class score
    and the index of that score. *)
Definition kept_row (ncols num_classes : nat) (conf_thre : Q)
  (image_pred : list (list Q)) (row : list Q) : Prop :=
  exists r k score v,
    In r image_pred
    /\ row = firstn 5 r ++ [score; inject_Z (Z.of_nat k)]
    /\ length row = 7%nat
    /\ (k < num_classes)%nat
    /\ nth_error (class_slice ncols num_classes r) k = Some v
    /\ v == score
    /\ (forall u, In u (class_slice ncols num_classes r) -> u <= score)
    /\ conf_thre <= nth 4 r 0 * score.

(** The row [row] kept for an image describes the candidate [cand] of the
    raw tensor: its box, in corner form, has the centre and the size of the
    candidate, and its objectness is that of the candidate. *)
Definition corner_of (cand row : list Q) : Prop :=
  nth 2 row 0 - nth 0 row 0 == nth 2 cand 0
  /\ nth 3 row 0 - nth 1 row 0 == nth 3 cand 0
  /\ (nth 0 row 0 + nth 2 row 0) / 2 == nth 0 cand 0
  /\ (nth 1 row 0 + nth 3 row 0) / 2 == nth 1 cand 0
  /\ nth 4 row 0 = nth 4 cand 0.

(** The class number [l] of a row selects the key [c] of the dictionary:
    [class_labels[int(l)]] is [c]. *)
Definition label_is (c : Label) (l : Q) : bool :=
  match class_labels (int_of l) with
  | Ok c' => Label_eqb c' c
  | Raise _ => false
  end.

(** The number of detections of an annotation dictionary. *)
Definition detection_count (a : AnnotationSet) : nat :=
  (length (table a) + length (chart a) + length (title a))%nat.

(** The row [r] of the bucket [k] of [prefilter_boxes] comes from the box
    [j] of the model [t]: the score of that box is not below [thr], its
    repaired box has a non-zero area, and [r] holds its label, its score
    times the weight of the model, that weight, [t] and the repaired box. *)
Definition prefiltered (boxes : list (list Box)) (scores : list (list Q))
  (labels : list (list Z)) (weights : list Q) (thr : Q)
  (class_agnostic : bool) (k : bucket_key) (r : FusionRecord) : Prop :=
  exists t j boxes_t scores_t labels_t weight box_part score label,
    nth_error boxes t = Some boxes_t
    /\ nth_error scores t = Some scores_t
    /\ nth_error labels t = Some labels_t
    /\ nth_error weights t = Some weight
    /\ nth_error boxes_t j = Some box_part
    /\ nth_error scores_t j = Some score
    /\ nth_error labels_t j = Some label
    /\ thr <= score
    /\ ~ area (repair_box box_part) == 0
    /\ r = mkRec label (score * weight) weight (Z.of_nat t)
             (repair_box box_part)
    /\ k = (if class_agnostic then None else Some label).

(** The number of rows of a dictionary of [prefilter_boxes]. *)
Definition bucket_total (d : buckets) : nat := length (flat_map snd d).

(** What [process_inference_results] returns for an image whose
    dictionary is [a] after normalization: the expanded tables and the
    charts at or above [final_thresh], no more charts than in [a], and the
    titles as [expand_table_bboxes] leaves them. *)
Definition image_result (final_thresh : Q) (a r : AnnotationSet) : Prop :=
  table r
  = filter (fun bb => Qle_bool final_thresh (confidence bb))
      (table (expand_table_bboxes a))
  /\ title r = title (expand_table_bboxes a)
  /\ (length (chart r) <= length (chart a))%nat
  /\ Forall (fun d => final_thresh <= confidence d) (chart r).

(** The number of rows of label [l]. *)
Definition label_count (l : Z) (rs : list FusionRecord) : nat :=
  length (filter (fun r => Z.eqb l (f_label r)) rs).

(** No two rows of the bucket overlap by more than [iou_thr]. *)
Definition separated (iou_thr : Q) (boxes : list FusionRecord) : Prop :=
  forall i j bi bj,
    nth_error boxes i = Some bi -> nth_error boxes j = Some bj -> i <> j ->
    bb_iou (f_box bi) (f_box bj) <= iou_thr.

(** The merged row [r] is the row [b] of the bucket left alone, for [n]
    models: its label and its box, and its score, divided by the number of
    models when the confidence is averaged. *)
Definition unmerged (n : nat) (ct : conf_type) (b r : FusionRecord) : Prop :=
  f_label r = f_label b
  /\ contains (f_box r) (f_box b) /\ contains (f_box b) (f_box r)
  /\ f_score r == match ct with
                  | Max => f_score b
                  | Avg => f_score b / inject_Z (Z.of_nat n)
                  end.

(** ** Statements of the specification, and what the code does instead *)

(** What the specification says table caption expansion does to a table
    detection [d], giving [d']. *)
Definition spec_table_expansion (d d' : Detection) : Prop :=
  x1 (bbox d') == x1 (bbox d)
  /\ y1 (bbox d')
     == Qmax 0 (y1 (bbox d) - 0.2 * (y2 (bbox d) - y1 (bbox d)))
  /\ x2 (bbox d') == x2 (bbox d)
  /\ y2 (bbox d') == y2 (bbox d)
  /\ confidence d' == confidence d.

(** What the code does to a table detection: the new top edge is clamped
    to [0, 1], and the five numbers are rounded to four decimals. *)
Definition table_expanded (d d' : Detection) : Prop :=
  x1 (bbox d') == round4 (x1 (bbox d))
  /\ y1 (bbox d')
     == round4 (Qmax 0 (Qmin 1 (y1 (bbox d)
                                - 0.2 * (y2 (bbox d) - y1 (bbox d)))))
  /\ x2 (bbox d') == round4 (x2 (bbox d))
  /\ y2 (bbox d') == round4 (y2 (bbox d))
  /\ confidence d' == round4 (confidence d).

(** What the code does to a chart or title detection when there is a
    table: the five numbers are rounded to four decimals. *)
Definition rounded (d d' : Detection) : Prop :=
  x1 (bbox d') == round4 (x1 (bbox d))
  /\ y1 (bbox d') == round4 (y1 (bbox d))
  /\ x2 (bbox d') == round4 (x2 (bbox d))
  /\ y2 (bbox d') == round4 (y2 (bbox d))
  /\ confidence d' == round4 (confidence d).

(** What the specification says of a batch whose raw tensor is malformed:
    the error is fatal for an image only and does not abort the batch, so
    the call still returns the dictionaries of the batch. *)
Definition spec_shape_mismatch_is_local
  (nms : list Box -> list Q -> Q -> list nat)
  (batched_nms : list Box -> list Q -> list Q -> Q -> list nat)
  (prediction : Tensor3) (original_image_shapes : list (list nat))
  (num_classes : nat) (conf_thresh iou_thresh min_score final_thresh : Q)
  : Prop :=
  exists out,
    process_inference_results nms batched_nms (Grpc prediction)
      original_image_shapes num_classes conf_thresh iou_thresh min_score
      final_thresh
    = Ok out.

(** What the specification says of the confidence of a merged cluster:
    the maximum, or the mean, of the confidences of its members. *)
Definition spec_merged_confidence (ct : conf_type)
  (members : list FusionRecord) (s : Q) : Prop :=
  match ct with
  | Max =>
      (forall m, In m members -> f_score m <= s)
      /\ (exists m, In m members /\ f_score m == s)
  | Avg =>
      s * inject_Z (Z.of_nat (length members)) == Qsum (map f_score members)
  end.

(** What the specification says of the label of a merged cluster: the
    common label if there is one, otherwise the label of the member of
    highest confidence among those that are not titles, the first one in
    array order on a tie. *)
Definition spec_merge_labels (labels : list Z) (confs : list Q) : option Z :=
  match labels with
  | [] => None
  | l0 :: _ =>
      if forallb (Z.eqb l0) labels then Some l0
      else
        match filter (fun lc => negb (fst lc =? 2)%Z) (combine labels confs)
        with
        | [] => None
        | lc :: rest =>
            Some (fst (fold_left
                         (fun best x =>
                            if Qlt_bool (snd best) (snd x) then x else best)
                         rest lc))
        end
  end.

(** The proximity score of a title and a chart: vertical adjacency above
    or below, plus left-edge alignment. *)
Definition title_distance (t chart_bbox : Box) : Q :=
  Qmin (Qabs (y2 t - y1 chart_bbox)) (Qabs (y2 chart_bbox - y1 t))
  + Qabs (x1 t - x1 chart_bbox).





(** The same three cases with the functions of the code: the IoU of
    [bb_iou_array] and the boxes that [merge_boxes] builds. *)
Inductive title_match (chart_bbox : Box) (pool : list Box)
  : option (Box * list Box) -> Prop :=
| match_overlap :
    (exists t, In t pool /\ 0.01 < bb_iou t chart_bbox) ->
    title_match chart_bbox pool
      (Some (fold_left merge_boxes
               (filter (fun t => Qlt_bool 0.01 (bb_iou t chart_bbox)) pool)
               chart_bbox,
             filter (fun t => negb (Qlt_bool 0.01 (bb_iou t chart_bbox)))
               pool))
| match_nearest (pre : list Box) (t : Box) (post : list Box) :
    pool = pre ++ t :: post ->
    (forall u, In u pool -> bb_iou u chart_bbox <= 0.01) ->
    title_distance t chart_bbox < 0.1 ->
    (forall u, In u pre ->
               title_distance t chart_bbox < title_distance u chart_bbox) ->
    (forall u, In u post ->
               title_distance t chart_bbox <= title_distance u chart_bbox) ->
    title_match chart_bbox pool (Some (merge_boxes chart_bbox t, pre ++ post))
| match_none :
    (forall u, In u pool -> bb_iou u chart_bbox <= 0.01) ->
    (forall u, In u pool -> 0.1 <= title_distance u chart_bbox) ->
    title_match chart_bbox pool None.

(** What the specification says of the expansion of a box [b] by the
    ratios [(r_x, r_y)], giving [b']: the box of the same centre whose
    width and height are those of [b] times the ratios, each coordinate
    then clipped to [0, 1]. *)
Definition spec_expansion (r_x r_y : Q) (b b' : Box) : Prop :=
  let cx := (x1 b + x2 b) / 2 in
  let cy := (y1 b + y2 b) / 2 in
  let w := r_x * (x2 b - x1 b) in
  let h := r_y * (y2 b - y1 b) in
  x1 b' == Qmax 0 (Qmin 1 (cx - w / 2))
  /\ y1 b' == Qmax 0 (Qmin 1 (cy - h / 2))
  /\ x2 b' == Qmax 0 (Qmin 1 (cx + w / 2))
  /\ y2 b' == Qmax 0 (Qmin 1 (cy + h / 2)).

(** What the specification says of the boxes of a final annotation set:
    each lies in the unit square with ordered corners and has a non-zero
    area. *)
Definition spec_box_validity (out : AnnotationSet) : Prop :=
  Forall (fun d => valid_box (bbox d)) (table out ++ chart out ++ title out).

(** What the code gives for an annotation set [a] and its final version
    [out]: chart boxes inside the unit square with ordered corners always,
    table and title boxes so when those of [a] are.  A width or a height of
    zero is excluded for none of the three. *)
Definition refined_boxes (a out : AnnotationSet) : Prop :=
  Forall (fun d => inside_box (bbox d)) (chart out)
  /\ (Forall (fun d => inside_box (bbox d)) (table a) ->
      Forall (fun d => inside_box (bbox d)) (table out))
  /\ (Forall (fun d => inside_box (bbox d)) (title a) ->
      Forall (fun d => inside_box (bbox d)) (title out)).

(** ** Sample inputs *)

Definition sample_filter_input : AnnotationSet :=
  mkAnn [mkDet (mkBox 0.1 0.3 0.5 0.5) 0.48; mkDet (mkBox 0.1 0.6 0.5 0.9) 0.3]
        [mkDet (mkBox 0.5 0.1 0.9 0.4) 0.48]
        [mkDet (mkBox 0.5 0.05 0.9 0.1) 0.2].

Definition sample_table : AnnotationSet :=
  mkAnn [mkDet (mkBox 0.1 0.3 0.5 0.5) 0.9] [] [].

Definition sample_table_rounding : AnnotationSet :=
  mkAnn [mkDet (mkBox 0.1 0.3333 0.5 0.5) 0.9] [] [].

Definition sample_no_table : AnnotationSet :=
  mkAnn [] [mkDet (mkBox 0.2 0.2 0.6 0.4) 0.9]
        [mkDet (mkBox 0.2 0.05 0.6 0.18) 0.8].

Definition sample_shapes : list (list nat) :=
  [[1024; 1024; 3]; [1024; 1024; 3]]%nat.

(** Two charts far apart, the less confident first. *)
Definition sample_two_charts : AnnotationSet :=
  mkAnn []
        [mkDet (mkBox 0.125 0.125 0.375 0.375) 0.5;
         mkDet (mkBox 0.625 0.625 0.875 0.875) 0.75]
        [].

(** Two models with one table box each, far apart. *)
Definition sample_two_models : list (list Box) * list (list Q) * list (list Z) :=
  ([[mkBox 0.1 0.1 0.4 0.4]; [mkBox 0.6 0.6 0.9 0.9]],
   [[0.9]; [0.8]],
   [[0%Z]; [0%Z]]).

Definition sample_bucket : list FusionRecord :=
  [mkRec 0 0.9 1 0 (mkBox 0.1 0.1 0.4 0.4);
   mkRec 0 0.8 1 1 (mkBox 0.6 0.6 0.9 0.9)].

(** One model with four overlapping boxes: two tables, a chart and a
    title, of decreasing confidence. *)
Definition sample_mixed : list (list Box) * list (list Q) * list (list Z) :=
  ([[mkBox 0 0 0.5 1; mkBox 0 0 0.5 1; mkBox 0.35 0 0.9 1;
     mkBox 0.1 0 0.6 1]],
   [[0.9; 0.8; 0.7; 0.6]],
   [[0%Z; 0%Z; 1%Z; 2%Z]]).

(** The rows of [sample_mixed] after [prefilter_boxes] in class-agnostic
    mode. *)
Definition sample_mixed_bucket : list FusionRecord :=
  [mkRec 0 0.9 1 0 (mkBox 0 0 0.5 1); mkRec 0 0.8 1 0 (mkBox 0 0 0.5 1);
   mkRec 1 0.7 1 0 (mkBox 0.35 0 0.9 1); mkRec 2 0.6 1 0 (mkBox 0.1 0 0.6 1)].

(** A table of zero width next to a chart. *)
Definition sample_flat_table : AnnotationSet :=
  mkAnn [mkDet (mkBox 0.1 0.2 0.1 0.4) 0.9]
        [mkDet (mkBox 0.5 0.5 0.9 0.9) 0.9] [].

(** A chart next to a title of zero width, which the fusion drops. *)
Definition sample_flat_title : AnnotationSet :=
  mkAnn [] [mkDet (mkBox 0.2 0.2 0.6 0.4) 0.9]
        [mkDet (mkBox 0.3 0.1 0.3 0.15) 0.8].

(** Two charts, the second one as wide as the image and down to its
    lower edge, and a title of zero width, which the fusion drops. *)
Definition sample_charts_flat_title : AnnotationSet :=
  mkAnn []
        [mkDet (mkBox 0.25 0.25 0.75 0.5) 0.75;
         mkDet (mkBox 0 0.75 1 1) 0.5]
        [mkDet (mkBox 0.5 0.125 0.5 0.25) 0.5].

(** A raw tensor of one image with one candidate, a table in the middle
    of the image, and a suppression that keeps every row. *)
Definition sample_tensor : Tensor3 :=
  mkTensor 8 [[[512; 512; 200; 100; 0.9; 0.8; 0.1; 0.1]]].

(** A raw tensor of one image with one candidate, a table that lies
    outside the image. *)
Definition sample_tensor_outside : Tensor3 :=
  mkTensor 8 [[[-100; -100; 50; 50; 0.9; 0.8; 0.1; 0.1]]].

(** A raw tensor of two images with one candidate each and no class
    score: five numbers per candidate. *)
Definition sample_tensor_short : Tensor3 :=
  mkTensor 5 [[[512; 512; 200; 100; 0.9]]; [[256; 256; 100; 100; 0.8]]].

(** A raw tensor of one image with one candidate and one class score,
    where three classes are expected. *)
Definition sample_tensor_narrow : Tensor3 :=
  mkTensor 6 [[[512; 512; 200; 100; 0.9; 0.8]]].

Definition keep_all (boxes : list Box) (scores : list Q) (thr : Q)
  : list nat :=
  seq 0 (length boxes).

Definition keep_all_batched (boxes : list Box) (scores idxs : list Q)
  (thr : Q) : list nat :=
  seq 0 (length boxes).

(** The ["bounding_boxes"] of an HTTP response for one image: a table and
    a title. *)
Definition sample_bounding_boxes : list (string * list json_bbox) :=
  [("table"%string,
    [[("x_min"%string, 0.1); ("y_min"%string, 0.3); ("x_max"%string, 0.5);
      ("y_max"%string, 0.5); ("confidence"%string, 0.9)]]);
   ("title"%string,
    [[("x_min"%string, 0.1); ("y_min"%string, 0.2); ("x_max"%string, 0.5);
      ("y_max"%string, 0.25); ("confidence"%string, 0.7)]])].

(** * Properties *)

(** ** Comparisons and the error monad *)

Lemma Qlt_bool_iff (x y : Q) : Qlt_bool x y = true <-> x < y.
Proof.
  unfold Qlt_bool. rewrite negb_true_iff.
  split; intro H.
  - apply Qnot_le_lt. intro Hle. apply Qle_bool_iff in Hle. congruence.
  - destruct (Qle_bool y x) eqn:E; [|reflexivity].
    apply Qle_bool_iff in E. exfalso. apply (Qlt_not_le _ _ H E).
Qed.

Lemma Qlt_bool_false (x y : Q) : Qlt_bool x y = false <-> y <= x.
Proof.
  unfold Qlt_bool. rewrite negb_false_iff. apply Qle_bool_iff.
Qed.

Lemma Qle_bool_false (x y : Q) : Qle_bool x y = false <-> y < x.
Proof.
  rewrite <- Qlt_bool_iff. unfold Qlt_bool.
  destruct (Qle_bool x y); simpl; intuition congruence.
Qed.

Lemma bind_Ok {A B : Type} (m : result A) (k : A -> result B) (b : B) :
  bind m k = Ok b -> exists a, m = Ok a /\ k a = Ok b.
Proof.
  destruct m as [a|e]; simpl; intro H; [eauto | discriminate].
Qed.

Lemma getitem_Ok {A : Type} (l : list A) (i : nat) (a : A) :
  getitem l i = Ok a <-> nth_error l i = Some a.
Proof.
  unfold getitem. destruct (nth_error l i); split; congruence.
Qed.

Lemma getitem_lt {A : Type} (l : list A) (i : nat) :
  (i < length l)%nat -> exists a, getitem l i = Ok a /\ In a l.
Proof.
  intro H. unfold getitem.
  destruct (nth_error l i) as [a|] eqn:E.
  - exists a. split; [reflexivity | eapply nth_error_In; eauto].
  - apply nth_error_None in E. lia.
Qed.

Lemma take_rows_total {A : Type} (arr : list A) (idxs : list nat) :
  Forall (fun i => (i < length arr)%nat) idxs ->
  exists r, take_rows arr idxs = Ok r /\ length r = length idxs /\
            Forall (fun a => In a arr) r.
Proof.
  induction 1 as [|i idxs Hi _ IH]; simpl.
  - exists []. auto.
  - destruct (getitem_lt arr i Hi) as [a [Ha Hin]].
    destruct IH as [r [Hr [Hlen Hall]]].
    rewrite Ha, Hr. simpl. exists (a :: r). simpl. auto.
Qed.

Lemma take_rows_In {A : Type} (arr : list A) (idxs : list nat) (r : list A) :
  take_rows arr idxs = Ok r ->
  length r = length idxs /\ Forall (fun a => In a arr) r.
Proof.
  revert r. induction idxs as [|i idxs IH]; simpl; intros r H.
  - inversion H. auto.
  - apply bind_Ok in H. destruct H as [a [Ha H]].
    apply bind_Ok in H. destruct H as [r' [Hr' H]].
    inversion H; subst. destruct (IH _ Hr') as [Hl Hf].
    apply getitem_Ok in Ha. apply nth_error_In in Ha.
    simpl. auto.
Qed.

Lemma mapM_total {A B : Type} (f : A -> result B) (P : A -> Prop)
  (Q : B -> Prop) (l : list A) :
  (forall a, P a -> exists b, f a = Ok b /\ Q b) ->
  Forall P l ->
  exists r, mapM f l = Ok r /\ Forall Q r /\ length r = length l.
Proof.
  intros Hf. induction 1 as [|a l Ha _ IH]; simpl.
  - exists []. auto.
  - destruct (Hf a Ha) as [b [Hb Hq]]. destruct IH as [r [Hr [Hall Hlen]]].
    rewrite Hb, Hr. simpl. exists (b :: r). simpl. auto.
Qed.

Lemma mapM_Ok_Forall2 {A B : Type} (f : A -> result B) (l : list A)
  (r : list B) :
  mapM f l = Ok r -> Forall2 (fun a b => f a = Ok b) l r.
Proof.
  revert r. induction l as [|a l IH]; simpl; intros r H.
  - inversion H. constructor.
  - apply bind_Ok in H. destruct H as [b [Hb H]].
    apply bind_Ok in H. destruct H as [r' [Hr' H]].
    inversion H; subst. constructor; auto.
Qed.

(** ** The final threshold filter *)

Lemma filter_thresh_antitone (t1 t2 : Q) (l : list Detection) :
  t1 <= t2 ->
  (length (filter (fun bb => Qle_bool t2 (confidence bb)) l)
   <= length (filter (fun bb => Qle_bool t1 (confidence bb)) l))%nat.
Proof.
  intro Hle. induction l as [|d l IH]; simpl; [lia|].
  destruct (Qle_bool t2 (confidence d)) eqn:E2.
  - apply Qle_bool_iff in E2.
    assert (E1 : Qle_bool t1 (confidence d) = true).
    { apply Qle_bool_iff. eapply Qle_trans; eauto. }
    rewrite E1. simpl. lia.
  - destruct (Qle_bool t1 (confidence d)); simpl; lia.
Qed.

Lemma filter_thresh_keeps_equal (t : Q) (l : list Detection) (d : Detection) :
  In d l -> confidence d == t ->
  In d (filter (fun bb => Qle_bool t (confidence bb)) l).
Proof.
  intros Hin Heq. apply filter_In. split; [assumption|].
  apply Qle_bool_iff. rewrite Heq. apply Qle_refl.
Qed.

(** C4.  For a fixed input of the final threshold filter, raising
    [final_thresh] from [t1] to [t2] never increases the number of table
    detections nor the number of chart detections of the output, and a table
    or chart detection whose confidence equals the threshold is kept. *)
Theorem final_filter_antitone (a : AnnotationSet) (t1 t2 : Q) :
  t1 <= t2 ->
  (length (table (final_filter t2 a)) <= length (table (final_filter t1 a))
   /\ length (chart (final_filter t2 a))
      <= length (chart (final_filter t1 a)))%nat
  /\ (forall d, In d (table a) -> confidence d == t2 ->
                In d (table (final_filter t2 a)))
  /\ (forall d, In d (chart a) -> confidence d == t2 ->
                In d (chart (final_filter t2 a))).
Proof.
  intro Hle. unfold final_filter; simpl.
  repeat split.
  - apply filter_thresh_antitone; assumption.
  - apply filter_thresh_antitone; assumption.
  - intros d Hin Heq. apply filter_thresh_keeps_equal; assumption.
  - intros d Hin Heq. apply filter_thresh_keeps_equal; assumption.
Qed.

Lemma final_filter_antitone_witness :
  0.3 <= 0.48
  /\ (length (table (final_filter 0.48 sample_filter_input))
      <= length (table (final_filter 0.3 sample_filter_input)))%nat
  /\ In (mkDet (mkBox 0.1 0.3 0.5 0.5) 0.48)
        (table (final_filter 0.48 sample_filter_input))
  /\ In (mkDet (mkBox 0.5 0.1 0.9 0.4) 0.48)
        (chart (final_filter 0.48 sample_filter_input)).
Proof.
  assert (H : 0.3 <= 0.48) by (vm_compute; discriminate).
  destruct (final_filter_antitone sample_filter_input 0.3 0.48 H)
    as [[Ht _] [Hkt Hkc]].
  split; [exact H|]. split; [exact Ht|]. split.
  - apply Hkt; [simpl; auto | reflexivity].
  - apply Hkc; [simpl; auto | reflexivity].
Defined.

(** ** Rounding to four decimals *)

Lemma round_half_even_cases (x : Q) :
  round_half_even x = Qfloor x \/ round_half_even x = (Qfloor x + 1)%Z.
Proof.
  unfold round_half_even.
  destruct (Qlt_bool _ _); [auto|].
  destruct (Qlt_bool _ _); [auto|].
  destruct (Z.even _); auto.
Qed.

#[export] Instance Qlt_bool_comp : Proper (Qeq ==> Qeq ==> eq) Qlt_bool.
Proof.
  intros x x' Hx y y' Hy. unfold Qlt_bool. now rewrite Hx, Hy.
Qed.

#[export] Instance round_half_even_comp : Proper (Qeq ==> eq) round_half_even.
Proof.
  intros x y H. unfold round_half_even. cbv zeta.
  rewrite (Qfloor_comp _ _ H).
  assert (Hr : x - inject_Z (Qfloor y) == y - inject_Z (Qfloor y))
    by (rewrite H; reflexivity).
  rewrite (Qlt_bool_comp _ _ Hr _ _ (Qeq_refl (1 # 2))).
  rewrite (Qlt_bool_comp _ _ (Qeq_refl (1 # 2)) _ _ Hr).
  reflexivity.
Qed.

#[export] Instance round4_comp : Proper (Qeq ==> eq) round4.
Proof.
  intros x y H. unfold round4.
  assert (H' : x * 10000 == y * 10000) by (rewrite H; reflexivity).
  now rewrite (round_half_even_comp _ _ H').
Qed.

Lemma round_half_even_Z (n : Z) : round_half_even (inject_Z n) = n.
Proof.
  unfold round_half_even. cbv zeta. rewrite Qfloor_Z.
  assert (H : Qlt_bool (inject_Z n - inject_Z n) (1 # 2) = true).
  { apply Qlt_bool_iff. lra. }
  now rewrite H.
Qed.

Lemma round_half_even_mono (x y : Q) :
  x <= y -> (round_half_even x <= round_half_even y)%Z.
Proof.
  intro Hxy.
  pose proof (Qfloor_resp_le _ _ Hxy) as Hfl.
  destruct (Z.eq_dec (Qfloor x) (Qfloor y)) as [Heq|Hne].
  - unfold round_half_even. cbv zeta. rewrite <- Heq.
    set (n := Qfloor x) in *.
    destruct (Qlt_bool (x - inject_Z n) (1 # 2)) eqn:E1.
    + destruct (Qlt_bool (y - inject_Z n) (1 # 2)); [lia|].
      destruct (Qlt_bool (1 # 2) (y - inject_Z n)); [lia|].
      destruct (Z.even n); lia.
    + apply Qlt_bool_false in E1.
      assert (E1' : Qlt_bool (y - inject_Z n) (1 # 2) = false).
      { apply Qlt_bool_false. lra. }
      rewrite E1'.
      destruct (Qlt_bool (1 # 2) (x - inject_Z n)) eqn:E2.
      * apply Qlt_bool_iff in E2.
        assert (E2' : Qlt_bool (1 # 2) (y - inject_Z n) = true).
        { apply Qlt_bool_iff. lra. }
        rewrite E2'. lia.
      * destruct (Qlt_bool (1 # 2) (y - inject_Z n)); [destruct (Z.even n); lia|].
        destruct (Z.even n); lia.
  - assert (Hlt : (Qfloor x + 1 <= Qfloor y)%Z) by lia.
    destruct (round_half_even_cases x) as [Hx|Hx];
      destruct (round_half_even_cases y) as [Hy|Hy]; lia.
Qed.

Lemma Qmake_le (a b : Z) (d : positive) : (a <= b)%Z -> a # d <= b # d.
Proof.
  intro H. unfold Qle; simpl. apply Z.mul_le_mono_nonneg_r; lia.
Qed.

Lemma round4_mono (x y : Q) : x <= y -> round4 x <= round4 y.
Proof.
  intro H. unfold round4. apply Qmake_le. apply round_half_even_mono. lra.
Qed.

(** A number with at most four decimals is left as it is. *)
Lemma round4_fixed (n : Z) : round4 (n # 10000) == n # 10000.
Proof.
  unfold round4.
  assert (H : (n # 10000) * 10000 == inject_Z n).
  { unfold Qeq, inject_Z; simpl. lia. }
  rewrite (round_half_even_comp _ _ H), round_half_even_Z. reflexivity.
Qed.

Lemma round4_unit (x : Q) : 0 <= x <= 1 -> 0 <= round4 x <= 1.
Proof.
  intros [H0 H1].
  assert (E0 : round4 0 == 0) by reflexivity.
  assert (E1 : round4 1 == 1) by reflexivity.
  apply (round4_mono 0 x) in H0. apply (round4_mono x 1) in H1.
  split; lra.
Qed.

(** ** Table caption expansion *)

Lemma fold_append_at (l : Label) (f : Detection -> Detection)
  (ds : list Detection) (acc : AnnotationSet) :
  fold_left (fun acc d => append_at l (f d) acc) ds acc =
  match l with
  | Table => mkAnn (table acc ++ map f ds) (chart acc) (title acc)
  | Chart => mkAnn (table acc) (chart acc ++ map f ds) (title acc)
  | Title => mkAnn (table acc) (chart acc) (title acc ++ map f ds)
  end.
Proof.
  revert acc. induction ds as [|d ds IH]; intro acc; simpl.
  - destruct l, acc; simpl; now rewrite app_nil_r.
  - rewrite IH. destruct l; simpl; now rewrite <- app_assoc.
Qed.

Lemma expand_table_bboxes_maps (a : AnnotationSet) :
  table a <> [] ->
  expand_table_bboxes a =
  mkAnn (map (expand_table_entry Table) (table a))
        (map (expand_table_entry Chart) (chart a))
        (map (expand_table_entry Title) (title a)).
Proof.
  intro Hne. unfold expand_table_bboxes.
  destruct (table a) as [|d ds] eqn:E; [congruence|].
  simpl length. simpl Nat.eqb. cbv iota.
  unfold items. rewrite E. cbn [fold_left].
  rewrite (fold_append_at Table), (fold_append_at Chart),
    (fold_append_at Title).
  reflexivity.
Qed.

Lemma Forall2_map_self {A B : Type} (R : A -> B -> Prop) (f : A -> B)
  (l : list A) :
  (forall a, R a (f a)) -> Forall2 R l (map f l).
Proof.
  intro H. induction l; simpl; constructor; auto.
Qed.

Lemma expand_table_entry_table (d : Detection) :
  table_expanded d (expand_table_entry Table d).
Proof.
  unfold table_expanded, expand_table_entry; simpl.
  repeat split; try reflexivity.
  assert (H : y1 (bbox d) - (y2 (bbox d) - y1 (bbox d)) * 0.2
              == y1 (bbox d) - 0.2 * (y2 (bbox d) - y1 (bbox d)))
    by ring.
  rewrite (round4_comp _ _ (Q.max_compat _ _ (Qeq_refl 0) _ _
             (Q.min_compat _ _ (Qeq_refl 1) _ _ H))).
  reflexivity.
Qed.

Lemma expand_table_entry_other (l : Label) (d : Detection) :
  l <> Table -> rounded d (expand_table_entry l d).
Proof.
  intro H. unfold rounded, expand_table_entry.
  destruct l; [congruence| |]; simpl; repeat split; reflexivity.
Qed.

(** C5, as the code has it.  Without a table detection the set is returned
    as it is.  With one, every table detection gets
    [y1 := round4 (max 0 (min 1 (y1 - 0.2 (y2 - y1))))] and its other four
    numbers rounded to four decimals, and every chart and title detection
    gets its five numbers rounded to four decimals; a number that has at
    most four decimals is left as it is by the rounding.  The table box
    [0.1, 0.3, 0.5, 0.5] gets [y1 = 0.26]. *)
Theorem expand_table_bboxes_spec (a : AnnotationSet) :
  (table a = [] -> expand_table_bboxes a = a)
  /\ (table a <> [] ->
      Forall2 table_expanded (table a) (table (expand_table_bboxes a))
      /\ Forall2 rounded (chart a) (chart (expand_table_bboxes a))
      /\ Forall2 rounded (title a) (title (expand_table_bboxes a)))
  /\ (forall n : Z, round4 (n # 10000) == n # 10000)
  /\ (exists d, table (expand_table_bboxes sample_table) = [d]
                /\ y1 (bbox d) == 0.26).
Proof.
  split; [|split; [|split]].
  - intro H. unfold expand_table_bboxes. now rewrite H.
  - intro H. rewrite (expand_table_bboxes_maps a H). simpl.
    split; [|split]; apply Forall2_map_self; intro d.
    + apply expand_table_entry_table.
    + apply expand_table_entry_other; discriminate.
    + apply expand_table_entry_other; discriminate.
  - apply round4_fixed.
  - eexists. split; reflexivity.
Qed.

Lemma expand_table_bboxes_spec_witness :
  expand_table_bboxes sample_no_table = sample_no_table
  /\ Forall2 table_expanded (table sample_table_rounding)
       (table (expand_table_bboxes sample_table_rounding)).
Proof.
  split.
  - apply (proj1 (expand_table_bboxes_spec sample_no_table)). reflexivity.
  - apply (proj1 (proj2 (expand_table_bboxes_spec sample_table_rounding))).
    discriminate.
Defined.

(** C5, as the specification states it, fails on the table box
    [0.1, 0.3333, 0.5, 0.5]: the specification gives [y1 = 0.29996], the
    code rounds it to [0.3]. *)
Lemma spec_table_expansion_counterexample :
  ~ Forall2 spec_table_expansion (table sample_table_rounding)
      (table (expand_table_bboxes sample_table_rounding)).
Proof.
  intro H. inversion H as [|d d' l l' Hd _]; subst.
  destruct Hd as [_ [Hy _]]. vm_compute in Hy. discriminate.
Qed.

(** ** The normalizer: columns of an array *)

Lemma column_Ok (a : Array2) (k : nat) :
  (k < ncols a)%nat -> column a k = Ok (map (fun r => nth k r 0) (rows a)).
Proof.
  intro H. unfold column.
  destruct (k <? ncols a)%nat eqn:E; [reflexivity|].
  apply Nat.ltb_ge in E. lia.
Qed.

(** ** The normalizer: images without survivors *)

Lemma map2_map {A B C D : Type} (f : B -> C -> D) (g : A -> B) (h : A -> C)
  (l : list A) :
  map2 f (map g l) (map h l) = map (fun x => f (g x) (h x)) l.
Proof.
  induction l; simpl; congruence.
Qed.



Lemma class_slice_nonempty (ncols num_classes : nat) (r : list Q) :
  (5 < ncols)%nat -> (0 < num_classes)%nat -> length r = ncols ->
  class_slice ncols num_classes r <> [].
Proof.
  intros Hc Hn Hl Hnil. apply (f_equal (@length Q)) in Hnil.
  unfold class_slice in Hnil.
  rewrite length_firstn, length_skipn, length_firstn in Hnil.
  simpl in Hnil. lia.
Qed.

Lemma np_max_total (l : list Q) :
  l <> [] -> exists b, np_max l = Ok b /\ True.
Proof.
  destruct l as [|x l]; [congruence|]. intros _. simpl. eauto.
Qed.

Lemma np_min_total (l : list Q) :
  l <> [] -> exists b, np_min l = Ok b /\ True.
Proof.
  destruct l as [|x l]; [congruence|]. intros _. simpl. eauto.
Qed.

Lemma argmax_total (l : list Q) :
  l <> [] -> exists b, argmax l = Ok b /\ True.
Proof.
  destruct l as [|x l]; [congruence|]. intros _. simpl. eauto.
Qed.

Section NoSurvivor.

Variable nms : list Box -> list Q -> Q -> list nat.
Variable batched_nms : list Box -> list Q -> list Q -> Q -> list nat.
Variables ncols num_classes : nat.
Variable conf_thre : Q.




End NoSurvivor.



(** ** Merging a cluster *)

Lemma fold_left_Qplus (l : list Q) (a : Q) :
  fold_left Qplus l a == a + Qsum l.
Proof.
  revert a. induction l as [|x l IH]; intro a; simpl.
  - ring.
  - rewrite IH. ring.
Qed.

Lemma np_sum_Qsum (l : list Q) : np_sum l == Qsum l.
Proof.
  unfold np_sum. rewrite fold_left_Qplus. ring.
Qed.

Lemma Qsum_repeat_1 (n : nat) : Qsum (repeat 1 n) == inject_Z (Z.of_nat n).
Proof.
  induction n as [|n IH].
  - reflexivity.
  - cbn [repeat Qsum fold_right]. fold (Qsum (repeat 1 n)). rewrite IH.
    rewrite Nat2Z.inj_succ. unfold Z.succ. rewrite inject_Z_plus. ring.
Qed.

Lemma list_max_repeat_1 (n : nat) : list_max 1 (repeat 1 n) = 1.
Proof.
  unfold list_max. induction n as [|n IH]; [reflexivity|].
  simpl. exact IH.
Qed.

Lemma list_max_ge_init (l : list Q) (x : Q) : x <= list_max x l.
Proof.
  revert x. unfold list_max.
  induction l as [|y l IH]; intro x; simpl; [apply Qle_refl|].
  eapply Qle_trans; [apply Q.le_max_l | apply IH].
Qed.

Lemma list_max_upper (l : list Q) (x y : Q) :
  In y l -> y <= list_max x l.
Proof.
  revert x. unfold list_max.
  induction l as [|z l IH]; intros x Hin; [contradiction|].
  simpl. destruct Hin as [->|Hin].
  - eapply Qle_trans; [apply Q.le_max_r | apply list_max_ge_init].
  - now apply IH.
Qed.

Lemma list_max_attained (l : list Q) (x : Q) :
  exists y, In y (x :: l) /\ y == list_max x l.
Proof.
  revert x. unfold list_max.
  induction l as [|z l IH]; intro x; simpl.
  - exists x. split; [auto | reflexivity].
  - destruct (IH (Qmax x z)) as [y [[Hy|Hy] Heq]].
    + destruct (Q.max_dec x z) as [E|E].
      * exists x. split; [auto|]. rewrite <- Heq, <- Hy. symmetry. exact E.
      * exists z. split; [auto|]. rewrite <- Heq, <- Hy. symmetry. exact E.
    + exists y. auto.
Qed.

Lemma list_min_le_init (l : list Q) (x : Q) : list_min x l <= x.
Proof.
  revert x. unfold list_min.
  induction l as [|y l IH]; intro x; simpl; [apply Qle_refl|].
  eapply Qle_trans; [apply IH | apply Q.le_min_l].
Qed.

Lemma list_min_lower (l : list Q) (x y : Q) :
  In y l -> list_min x l <= y.
Proof.
  revert x. unfold list_min.
  induction l as [|z l IH]; intros x Hin; [contradiction|].
  simpl. destruct Hin as [->|Hin].
  - eapply Qle_trans; [apply list_min_le_init | apply Q.le_min_r].
  - now apply IH.
Qed.

Lemma list_min_attained (l : list Q) (x : Q) :
  exists y, In y (x :: l) /\ y == list_min x l.
Proof.
  revert x. unfold list_min.
  induction l as [|z l IH]; intro x; simpl.
  - exists x. split; [auto | reflexivity].
  - destruct (IH (Qmin x z)) as [y [[Hy|Hy] Heq]].
    + destruct (Q.min_dec x z) as [E|E].
      * exists x. split; [auto|]. rewrite <- Heq, <- Hy. symmetry. exact E.
      * exists z. split; [auto|]. rewrite <- Heq, <- Hy. symmetry. exact E.
    + exists y. auto.
Qed.

Lemma biggest_fold (boxes : list FusionRecord) (box : Box)
  (conf_list : list Q) (w : Q) :
  fold_left
    (fun '(box, conf_list, w) b =>
       (mkBox (Qmin (x1 box) (x1 (f_box b))) (Qmin (y1 box) (y1 (f_box b)))
              (Qmax (x2 box) (x2 (f_box b))) (Qmax (y2 box) (y2 (f_box b))),
        conf_list ++ [f_score b],
        w + f_weight b))
    boxes (box, conf_list, w)
  = (envelope box boxes, conf_list ++ map f_score boxes,
     fold_left Qplus (map f_weight boxes) w).
Proof.
  revert box conf_list w.
  induction boxes as [|b boxes IH]; intros box conf_list w; simpl.
  - now rewrite app_nil_r.
  - rewrite IH. unfold envelope; simpl. now rewrite <- app_assoc.
Qed.

Lemma weighted_fold (boxes : list FusionRecord) (box : Box) (conf : Q)
  (conf_list : list Q) (w : Q) :
  fold_left
    (fun '(box, conf, conf_list, w) b =>
       (box_add box (box_scale (f_score b) (f_box b)),
        conf + f_score b,
        conf_list ++ [f_score b],
        w + f_weight b))
    boxes (box, conf, conf_list, w)
  = (fold_left (fun box b => box_add box (box_scale (f_score b) (f_box b)))
       boxes box,
     fold_left Qplus (map f_score boxes) conf,
     conf_list ++ map f_score boxes,
     fold_left Qplus (map f_weight boxes) w).
Proof.
  revert box conf conf_list w.
  induction boxes as [|b boxes IH]; intros box conf conf_list w; simpl.
  - now rewrite app_nil_r.
  - rewrite IH. now rewrite <- app_assoc.
Qed.

Lemma get_biggest_box_Ok (ct : conf_type) (m0 : FusionRecord)
  (rest : list FusionRecord) (label : Z) (conf : Q) :
  merge_labels (map f_label (m0 :: rest)) (map f_score (m0 :: rest))
  = Ok label ->
  conf_of ct (map f_score (m0 :: rest)) = Ok conf ->
  get_biggest_box (m0 :: rest) ct
  = Ok (mkRec label conf (fold_left Qplus (map f_weight (m0 :: rest)) 0) (-1)
          (envelope (f_box m0) (m0 :: rest))).
Proof.
  intros Hlab Hconf. unfold get_biggest_box.
  cbn [getitem nth_error bind]. rewrite biggest_fold.
  rewrite app_nil_l, Hlab, Hconf. reflexivity.
Qed.

Lemma get_weighted_box_Ok (ct : conf_type) (members : list FusionRecord)
  (label : Z) (conf : Q) :
  merge_labels (map f_label members) (map f_score members) = Ok label ->
  conf_of ct (map f_score members) = Ok conf ->
  exists box w, get_weighted_box members ct = Ok (mkRec label conf w (-1) box).
Proof.
  intros Hlab Hconf. unfold get_weighted_box. rewrite weighted_fold.
  rewrite app_nil_l, Hlab, Hconf. simpl. eauto.
Qed.

Lemma conf_of_total (ct : conf_type) (l : list Q) :
  l <> [] -> exists conf, conf_of ct l = Ok conf.
Proof.
  intro H. destruct ct; simpl; [eauto|].
  destruct l; [congruence|]. simpl. eauto.
Qed.

(** Both merge policies return the label of [merge_labels] and the
    confidence of [conf_of] on the scores of the members. *)
Lemma merge_policy_score (mt : merge_type) (ct : conf_type)
  (members : list FusionRecord) (label : Z) :
  members <> [] ->
  merge_labels (map f_label members) (map f_score members) = Ok label ->
  exists r conf,
    match mt with
    | Weighted => get_weighted_box members ct
    | Biggest => get_biggest_box members ct
    end = Ok r
    /\ conf_of ct (map f_score members) = Ok conf
    /\ f_score r = conf /\ f_label r = label.
Proof.
  intros Hne Hlab.
  destruct (conf_of_total ct (map f_score members)) as [conf Hconf].
  { destruct members; [congruence | discriminate]. }
  destruct mt.
  - destruct (get_weighted_box_Ok ct members label conf Hlab Hconf)
      as [box [w H]].
    rewrite H. do 2 eexists. repeat split. exact Hconf.
  - destruct members as [|m0 rest]; [congruence|].
    rewrite (get_biggest_box_Ok ct m0 rest label conf Hlab Hconf).
    do 2 eexists. repeat split. exact Hconf.
Qed.

Lemma inject_Z_of_nat_nonzero (n : nat) :
  (0 < n)%nat -> ~ inject_Z (Z.of_nat n) == 0.
Proof.
  intros H E. unfold Qeq in E; simpl in E. lia.
Qed.

Lemma np_max_repeat_1 (n : nat) : (0 < n)%nat -> np_max (repeat 1 n) = Ok 1.
Proof.
  destruct n as [|n]; [lia|]. intros _. simpl.
  now rewrite list_max_repeat_1.
Qed.

Lemma np_max_spec (l : list Q) (m : Q) :
  np_max l = Ok m ->
  (forall y, In y l -> y <= m) /\ (exists y, In y l /\ y == m).
Proof.
  destruct l as [|x l]; simpl; intro H; inversion H; subst m. split.
  - intros y [->|Hy]; [apply list_max_ge_init | now apply list_max_upper].
  - apply list_max_attained.
Qed.

Lemma np_min_spec (l : list Q) (m : Q) :
  np_min l = Ok m ->
  (forall y, In y l -> m <= y) /\ (exists y, In y l /\ y == m).
Proof.
  destruct l as [|x l]; simpl; intro H; inversion H; subst m. split.
  - intros y [->|Hy]; [apply list_min_le_init | now apply list_min_lower].
  - apply list_min_attained.
Qed.

(** C7, as the code has it.  For a cluster [c] of a bucket whose labels
    merge, [weighted_boxes_fusion] (which gives every one of its [n] input
    lists the weight 1) returns under both merge policies: with
    [conf_type = "max"] the maximum of the confidences of the members; with
    [conf_type = "avg"] their mean multiplied by the size of the cluster and
    divided by [n], that is their sum divided by the number of input
    lists. *)
Theorem merged_confidence (boxes members : list FusionRecord) (n : nat)
  (ct : conf_type) (mt : merge_type) (c : list nat) (label : Z) :
  (0 < n)%nat ->
  take_rows boxes c = Ok members ->
  members <> [] ->
  merge_labels (map f_label members) (map f_score members) = Ok label ->
  exists r,
    merge_cluster boxes (repeat 1 n) ct mt c = Ok r
    /\ f_label r = label
    /\ match ct with
       | Max => spec_merged_confidence Max members (f_score r)
       | Avg =>
           f_score r
           == Qsum (map f_score members)
              / inject_Z (Z.of_nat (length members))
              * inject_Z (Z.of_nat (length members))
              / inject_Z (Z.of_nat n)
           /\ f_score r * inject_Z (Z.of_nat n)
              == Qsum (map f_score members)
       end.
Proof.
  intros Hn Hrows Hne Hlab.
  destruct (merge_policy_score mt ct members label Hne Hlab)
    as [r0 [conf [Hr0 [Hconf [Hs Hl]]]]].
  destruct (take_rows_In _ _ _ Hrows) as [Hlen _].
  unfold merge_cluster. rewrite Hrows. cbn [bind]. rewrite Hr0. cbn [bind].
  destruct ct.
  - eexists. split; [reflexivity|]. split; [exact Hl|].
    cbn [set_score f_score]. rewrite Hs.
    simpl in Hconf. inversion Hconf; subst conf; clear Hconf.
    unfold np_mean. rewrite length_map, <- Hlen.
    assert (HL : ~ inject_Z (Z.of_nat (length members)) == 0).
    { apply inject_Z_of_nat_nonzero.
      destruct members; [congruence | simpl; lia]. }
    pose proof (inject_Z_of_nat_nonzero n Hn) as HN.
    rewrite (np_sum_Qsum (repeat 1 n)), Qsum_repeat_1, np_sum_Qsum.
    split; [reflexivity | field; auto].
  - rewrite (np_max_repeat_1 n Hn). cbn [bind].
    eexists. split; [reflexivity|]. split; [exact Hl|].
    cbn [set_score f_score]. rewrite Hs.
    simpl in Hconf. apply np_max_spec in Hconf.
    destruct Hconf as [Hub [y [Hy Heq]]].
    unfold spec_merged_confidence. split.
    + intros m Hm. assert (H : f_score m <= conf).
      { apply Hub. now apply in_map. }
      assert (E : conf / 1 == conf) by (field).
      rewrite E. exact H.
    + apply in_map_iff in Hy. destruct Hy as [m [Hm1 Hm2]].
      exists m. split; [exact Hm2|]. rewrite Hm1, Heq. field.
Qed.

Lemma merged_confidence_witness :
  exists r,
    merge_cluster sample_bucket (repeat 1 2) Avg Biggest [0%nat] = Ok r
    /\ f_score r * 2 == 0.9.
Proof.
  destruct (merged_confidence sample_bucket
              [mkRec 0 0.9 1 0 (mkBox 0.1 0.1 0.4 0.4)] 2 Avg Biggest
              [0%nat] 0%Z)
    as [r [Hr [_ [_ Hs]]]].
  - lia.
  - reflexivity.
  - discriminate.
  - reflexivity.
  - exists r. split; [exact Hr|]. rewrite Hs. reflexivity.
Defined.

(** C7, as the specification states it, fails for [conf_type = "avg"] on
    two input lists of one box each, far apart: the cluster of the first box
    has the single confidence 0.9, and the confidence returned is 0.45. *)
Lemma spec_merged_confidence_counterexample :
  weighted_boxes_fusion (fst (fst sample_two_models))
    (snd (fst sample_two_models)) (snd sample_two_models)
    0.5 0 Avg Biggest false
  = Ok ([mkBox 0.1 0.1 0.4 0.4; mkBox 0.6 0.6 0.9 0.9], [9 # 20; 8 # 20],
        [0%Z; 0%Z])
  /\ prefilter_boxes (fst (fst sample_two_models))
       (snd (fst sample_two_models)) (snd sample_two_models) [1; 1] 0 false
     = Ok [(Some 0%Z, sample_bucket)]
  /\ clusterize sample_bucket 0.5 = Ok [[0]; [1]]%nat
  /\ exists r members,
       merge_cluster sample_bucket (repeat 1 2) Avg Biggest [0%nat] = Ok r
       /\ take_rows sample_bucket [0%nat] = Ok members
       /\ ~ spec_merged_confidence Avg members (f_score r).
Proof.
  split; [vm_compute; reflexivity|].
  split; [vm_compute; reflexivity|].
  split; [vm_compute; reflexivity|].
  do 2 eexists. split; [reflexivity|]. split; [reflexivity|].
  vm_compute. discriminate.
Qed.

(** ** The label of a merged cluster *)

Lemma nodup_uniform (lab : Z) (l : list Z) :
  l <> [] -> Forall (eq lab) l -> nodup Z.eq_dec l = [lab].
Proof.
  induction l as [|x l IH]; intros Hne Hall; [congruence|].
  inversion Hall as [|? ? Hx Hl]; subst.
  destruct l as [|y l]; [reflexivity|].
  cbn [nodup]. destruct (in_dec Z.eq_dec x (y :: l)) as [Hin|Hnin].
  - apply IH; [discriminate | assumption].
  - exfalso. apply Hnin. inversion Hl; subst. now left.
Qed.

Lemma merge_labels_uniform (lab : Z) (labels : list Z) (confs : list Q) :
  labels <> [] -> Forall (eq lab) labels ->
  merge_labels labels confs = Ok lab.
Proof.
  intros Hne Hall. unfold merge_labels.
  unfold np_unique. rewrite (nodup_uniform lab labels Hne Hall). simpl.
  destruct labels as [|x l]; [congruence|].
  inversion Hall; subst. reflexivity.
Qed.

(** C2.  [merge_labels] masks the confidences with [confs != 2] where the
    labels are masked with [labels != 2]: the index of the best confidence
    is taken in the unmasked array and read in the masked one.  On the
    members [(Title, 0.1), (Table, 0.9), (Chart, 0.5)] it returns Chart
    where the most confident member that is not a title is the table; on
    the members [(Title, 0.6), (Chart, 0.7)] it raises [IndexError]; and the
    fusion of four overlapping boxes in class-agnostic mode, whose second
    cluster has these two members, raises with it, under both merge
    policies and both confidence types. *)
Theorem merge_labels_misses_non_title :
  merge_labels [2; 0; 1]%Z [0.1; 0.9; 0.5] = Ok 1%Z
  /\ spec_merge_labels [2; 0; 1]%Z [0.1; 0.9; 0.5] = Some 0%Z
  /\ merge_labels [2; 1]%Z [0.6; 0.7] = Raise IndexError
  /\ spec_merge_labels [2; 1]%Z [0.6; 0.7] = Some 1%Z
  /\ prefilter_boxes (fst (fst sample_mixed)) (snd (fst sample_mixed))
       (snd sample_mixed) [1] 0 true
     = Ok [(None, sample_mixed_bucket)]
  /\ clusterize sample_mixed_bucket 0.2
     = Ok [[0; 1; 3]; [3; 2]]%nat
  /\ forall ct mt,
       weighted_boxes_fusion (fst (fst sample_mixed))
         (snd (fst sample_mixed)) (snd sample_mixed) 0.2 0 ct mt true
       = Raise IndexError.
Proof.
  repeat split; try (vm_compute; reflexivity).
  intros [|] [|]; vm_compute; reflexivity.
Qed.

(** ** The fusion engine per label: buckets *)

Lemma clamp01_unit (v : Q) : 0 <= clamp01 v <= 1.
Proof.
  unfold clamp01.
  destruct (Qlt_bool v 0) eqn:E0.
  - assert (E : Qlt_bool 1 0 = false) by reflexivity. rewrite E. lra.
  - apply Qlt_bool_false in E0.
    destruct (Qlt_bool 1 v) eqn:E1; [lra|].
    apply Qlt_bool_false in E1. lra.
Qed.

Lemma clamp01_mono (a b : Q) : a <= b -> clamp01 a <= clamp01 b.
Proof.
  intro H. unfold clamp01.
  destruct (Qlt_bool a 0) eqn:Ea; destruct (Qlt_bool b 0) eqn:Eb;
    try apply Qlt_bool_iff in Ea; try apply Qlt_bool_false in Ea;
    try apply Qlt_bool_iff in Eb; try apply Qlt_bool_false in Eb;
    repeat match goal with
      | |- context [Qlt_bool ?x ?y] =>
          let E := fresh "E" in
          destruct (Qlt_bool x y) eqn:E;
          [apply Qlt_bool_iff in E | apply Qlt_bool_false in E]
      end; lra.
Qed.

Lemma repair_axis_ordered (a b : Q) :
  0 <= fst (repair_axis a b)
  /\ fst (repair_axis a b) <= snd (repair_axis a b)
  /\ snd (repair_axis a b) <= 1.
Proof.
  unfold repair_axis.
  destruct (Qlt_bool b a) eqn:E; simpl.
  - apply Qlt_bool_iff in E.
    pose proof (clamp01_unit b). pose proof (clamp01_unit a).
    pose proof (clamp01_mono b a). lra.
  - apply Qlt_bool_false in E.
    pose proof (clamp01_unit b). pose proof (clamp01_unit a).
    pose proof (clamp01_mono a b). lra.
Qed.

Lemma repair_box_axes (b : Box) :
  repair_box b
  = mkBox (fst (repair_axis (x1 b) (x2 b))) (fst (repair_axis (y1 b) (y2 b)))
          (snd (repair_axis (x1 b) (x2 b))) (snd (repair_axis (y1 b) (y2 b))).
Proof.
  unfold repair_box, repair_axis, clamp01.
  destruct (Qlt_bool (x2 b) (x1 b)); destruct (Qlt_bool (y2 b) (y1 b));
    reflexivity.
Qed.

Lemma repair_box_inside (b : Box) : inside_box (repair_box b).
Proof.
  rewrite repair_box_axes. unfold inside_box; simpl.
  pose proof (repair_axis_ordered (x1 b) (x2 b)).
  pose proof (repair_axis_ordered (y1 b) (y2 b)).
  tauto.
Qed.

Lemma inside_box_nonzero_area (b : Box) :
  inside_box b -> ~ (x2 b - x1 b) * (y2 b - y1 b) == 0 -> valid_box b.
Proof.
  unfold inside_box, valid_box. intros H Hz.
  destruct H as [Hx0 [Hx [Hx1 [Hy0 [Hy Hy1]]]]].
  assert (Hxs : x1 b < x2 b).
  { apply Qnot_le_lt. intro Hc. apply Hz.
    assert (E : x2 b - x1 b == 0) by lra. rewrite E. ring. }
  assert (Hys : y1 b < y2 b).
  { apply Qnot_le_lt. intro Hc. apply Hz.
    assert (E : y2 b - y1 b == 0) by lra. rewrite E. ring. }
  tauto.
Qed.

Lemma key_eqb_Some (x : Z) (k : bucket_key) :
  key_eqb (Some x) k = true -> k = Some x.
Proof.
  destruct k as [y|]; simpl; [|discriminate].
  intro H. apply Z.eqb_eq in H. now subst.
Qed.

Lemma bucket_append_ok (r : FusionRecord) (d : buckets) :
  valid_box (f_box r) -> Forall bucket_ok d ->
  Forall bucket_ok (bucket_append (Some (f_label r)) r d).
Proof.
  intros Hv. induction 1 as [|[k l] d [Hne Hall] Hd IH].
  - simpl. constructor; [|constructor]. split; simpl; [discriminate|].
    constructor; [auto | constructor].
  - cbn [bucket_append].
    destruct (key_eqb (Some (f_label r)) k) eqn:E.
    + apply key_eqb_Some in E. subst k.
      constructor; [|assumption]. split; simpl in *.
      * destruct l; discriminate.
      * apply Forall_app. split; [assumption|].
        constructor; [auto | constructor].
    + constructor; [split; assumption | assumption].
Qed.

Lemma prefilter_one_ok (t : nat) (weights : list Q) (thr : Q)
  (d d' : buckets) (box_part : Box) (score : Q) (label : Z) :
  Forall bucket_ok d ->
  prefilter_one t weights thr false d box_part score label = Ok d' ->
  Forall bucket_ok d'.
Proof.
  intros Hd H. unfold prefilter_one in H.
  destruct (Qlt_bool score thr); [now inversion H; subst|]. cbv zeta in H.
  destruct (Qeq_bool _ 0) eqn:E; [now inversion H; subst|].
  apply Qeq_bool_neq in E.
  apply bind_Ok in H. destruct H as [weight [_ H]].
  inversion H; subst d'; clear H.
  apply (bucket_append_ok
           (mkRec label (score * weight) weight (Z.of_nat t)
              (repair_box box_part))); [|assumption].
  simpl. apply inside_box_nonzero_area; [apply repair_box_inside | exact E].
Qed.

Lemma prefilter_rows_ok (t : nat) (weights : list Q) (thr : Q)
  (boxes : list Box) (scores : list Q) (labels : list Z) (d d' : buckets) :
  Forall bucket_ok d ->
  prefilter_rows t weights thr false d boxes scores labels = Ok d' ->
  Forall bucket_ok d'.
Proof.
  revert scores labels d.
  induction boxes as [|b boxes IH]; intros scores labels d Hd H.
  { simpl in H. now inversion H; subst. }
  destruct scores as [|s scores]; [simpl in H; now inversion H; subst|].
  destruct labels as [|l labels]; [simpl in H; now inversion H; subst|].
  cbn [prefilter_rows] in H. apply bind_Ok in H.
  destruct H as [d1 [H1 H]].
  eapply IH; [|exact H]. eapply prefilter_one_ok; eassumption.
Qed.

Lemma prefilter_models_ok (boxes : list (list Box)) (scores : list (list Q))
  (labels : list (list Z)) (weights : list Q) (thr : Q) (t : nat)
  (d d' : buckets) :
  Forall bucket_ok d ->
  prefilter_models t boxes scores labels weights thr false d = Ok d' ->
  Forall bucket_ok d'.
Proof.
  revert t d. induction boxes as [|bt boxes IH]; intros t d Hd H; simpl in H.
  - inversion H; subst. exact Hd.
  - apply bind_Ok in H. destruct H as [st [_ H]].
    destruct (negb (length bt =? length st)%nat); [discriminate|].
    apply bind_Ok in H. destruct H as [lt [_ H]].
    destruct (negb (length bt =? length lt)%nat); [discriminate|].
    apply bind_Ok in H. destruct H as [d1 [Hd1 H]].
    eapply IH; [|exact H].
    exact (prefilter_rows_ok t weights thr bt st lt d d1 Hd Hd1).
Qed.

Lemma insert_by_score_In (x y : FusionRecord) (l : list FusionRecord) :
  In x (insert_by_score y l) <-> x = y \/ In x l.
Proof.
  induction l as [|z l IH]; simpl.
  - intuition.
  - destruct (Qle_bool (f_score y) (f_score z)); simpl; [intuition|].
    rewrite IH. intuition.
Qed.

Lemma sort_by_score_In (x : FusionRecord) (l : list FusionRecord) :
  In x (sort_by_score l) <-> In x l.
Proof.
  induction l as [|y l IH]; simpl; [tauto|].
  rewrite insert_by_score_In, IH. intuition.
Qed.

Lemma sort_by_score_desc_In (x : FusionRecord) (l : list FusionRecord) :
  In x (sort_by_score_desc l) <-> In x l.
Proof.
  unfold sort_by_score_desc. rewrite <- in_rev. apply sort_by_score_In.
Qed.

Lemma sort_by_score_desc_Forall (P : FusionRecord -> Prop)
  (l : list FusionRecord) :
  Forall P l -> Forall P (sort_by_score_desc l).
Proof.
  rewrite !Forall_forall. intros H x Hx.
  apply H. now apply sort_by_score_desc_In.
Qed.

Lemma sort_by_score_desc_nonempty (l : list FusionRecord) :
  l <> [] -> sort_by_score_desc l <> [].
Proof.
  destruct l as [|x l]; [congruence|]. intros _ E.
  assert (H : In x (sort_by_score_desc (x :: l))).
  { apply sort_by_score_desc_In. now left. }
  rewrite E in H. contradiction.
Qed.

Lemma prefilter_boxes_ok (boxes : list (list Box)) (scores : list (list Q))
  (labels : list (list Z)) (weights : list Q) (thr : Q) (d : buckets) :
  prefilter_boxes boxes scores labels weights thr false = Ok d ->
  Forall bucket_ok d.
Proof.
  unfold prefilter_boxes. intro H.
  apply bind_Ok in H. destruct H as [d0 [Hd0 H]].
  injection H as <-.
  apply prefilter_models_ok in Hd0; [|constructor].
  apply Forall_map. eapply Forall_impl; [|exact Hd0].
  intros [k l] [Hne Hall]. split; simpl in *.
  - now apply sort_by_score_desc_nonempty.
  - now apply sort_by_score_desc_Forall.
Qed.

Lemma prefilter_rows_total (t : nat) (weights : list Q) (thr : Q)
  (class_agnostic : bool) (boxes : list Box) (scores : list Q)
  (labels : list Z) (d : buckets) :
  (t < length weights)%nat ->
  exists d',
    prefilter_rows t weights thr class_agnostic d boxes scores labels
    = Ok d'.
Proof.
  intro Hw. revert scores labels d.
  induction boxes as [|b boxes IH]; intros scores labels d;
    [simpl; eauto|].
  destruct scores as [|s scores]; [simpl; eauto|].
  destruct labels as [|l labels]; [simpl; eauto|].
  cbn [prefilter_rows].
  assert (H1 : exists d1,
             prefilter_one t weights thr class_agnostic d b s l = Ok d1).
  { unfold prefilter_one. destruct (Qlt_bool s thr); [eauto|]. cbv zeta.
    destruct (Qeq_bool _ 0); [eauto|].
    destruct (getitem_lt weights t Hw) as [w [Hw' _]].
    rewrite Hw'. cbn [bind]. eauto. }
  destruct H1 as [d1 H1]. rewrite H1. cbn [bind]. apply IH.
Qed.

Lemma prefilter_models_total (boxes : list (list Box))
  (scores : list (list Q)) (labels : list (list Z)) (weights : list Q)
  (thr : Q) (class_agnostic : bool) (t : nat) (d : buckets) :
  (forall i bt,
      nth_error boxes i = Some bt ->
      exists st lt,
        nth_error scores (t + i) = Some st
        /\ nth_error labels (t + i) = Some lt
        /\ length bt = length st /\ length bt = length lt
        /\ (t + i < length weights)%nat) ->
  exists d',
    prefilter_models t boxes scores labels weights thr class_agnostic d
    = Ok d'.
Proof.
  revert t d. induction boxes as [|bt boxes IH]; intros t d H; simpl.
  - eauto.
  - destruct (H 0%nat bt eq_refl) as [st [lt [Hs [Hl [Hls [Hll Hw]]]]]].
    rewrite Nat.add_0_r in Hs, Hl, Hw.
    unfold getitem at 1. rewrite Hs. cbn [bind].
    rewrite Hls, Nat.eqb_refl. cbn [negb].
    unfold getitem at 1. rewrite Hl. cbn [bind].
    rewrite <- Hls, Hll, Nat.eqb_refl. cbn [negb].
    destruct (prefilter_rows_total t weights thr class_agnostic bt st lt d
                Hw) as [d1 Hd1].
    rewrite Hd1. cbn [bind].
    apply IH. intros i bt' Hi.
    destruct (H (S i) bt' Hi) as [st' [lt' Hx]].
    rewrite <- plus_n_Sm in Hx. exists st', lt'. exact Hx.
Qed.

Lemma concat_annotations_eq (a : AnnotationSet) :
  concat_annotations a
  = (map bbox (table a ++ chart a ++ title a),
     map confidence (table a ++ chart a ++ title a),
     repeat 0%Z (length (table a)) ++ repeat 1%Z (length (chart a))
       ++ repeat 2%Z (length (title a))).
Proof.
  unfold concat_annotations, items.
  destruct a as [[|t ts] [|c cs] [|u us]]; cbn -[map repeat app];
    cbn [class_index]; rewrite ?app_nil_r, ?map_app; cbn [map repeat app];
    rewrite ?app_nil_r, <- ?app_assoc; cbn [app]; reflexivity.
Qed.

(** ** The fusion engine per label: clusters *)

Lemma argmax_from_bound (l : list Q) (best : Q) (besti i : nat) :
  argmax_from best besti i l = besti
  \/ (i <= argmax_from best besti i l < i + length l)%nat.
Proof.
  revert best besti i.
  induction l as [|x l IH]; intros best besti i; simpl; [now left|].
  destruct (Qlt_bool best x).
  - right. destruct (IH x i (S i)) as [E|E]; [rewrite E|]; lia.
  - destruct (IH best besti (S i)) as [E|E]; [now left | right; lia].
Qed.

Lemma argmin_from_bound (l : list Q) (best : Q) (besti i : nat) :
  argmin_from best besti i l = besti
  \/ (i <= argmin_from best besti i l < i + length l)%nat.
Proof.
  revert best besti i.
  induction l as [|x l IH]; intros best besti i; simpl; [now left|].
  destruct (Qlt_bool x best).
  - right. destruct (IH x i (S i)) as [E|E]; [rewrite E|]; lia.
  - destruct (IH best besti (S i)) as [E|E]; [now left | right; lia].
Qed.

Lemma find_matching_box_fast_bound (boxes_list : list FusionRecord)
  (new_box : FusionRecord) (match_iou : Q) (k : nat) :
  fst (find_matching_box_fast boxes_list new_box match_iou) = Some k ->
  (k < length boxes_list)%nat.
Proof.
  unfold find_matching_box_fast, bb_iou_array.
  destruct boxes_list as [|b bl]; simpl; [discriminate|].
  destruct (Qle_bool _ match_iou); simpl; [discriminate|].
  intro H. injection H as <-.
  match goal with
  | |- (argmax_from ?x 0 1 ?l < _)%nat =>
      destruct (argmax_from_bound l x 0%nat 1%nat) as [E|E];
      [rewrite E; lia | rewrite !length_map in E; lia]
  end.
Qed.

Lemma set_add_In (x y : nat) (s : list nat) :
  In y (set_add x s) <-> y = x \/ In y s.
Proof.
  induction s as [|z s IH]; simpl; [intuition|].
  destruct (x <? z)%nat; simpl; [intuition|].
  destruct (x =? z)%nat eqn:E; simpl.
  - apply Nat.eqb_eq in E. subst. intuition.
  - rewrite IH. intuition.
Qed.

Lemma list_set_In (y : nat) (l : list nat) : In y (list_set l) <-> In y l.
Proof.
  unfold list_set.
  assert (H : forall s, In y (fold_left (fun s x => set_add x s) l s)
                        <-> In y l \/ In y s).
  { induction l as [|x l IH]; intro s; simpl; [intuition|].
    rewrite IH, set_add_In. intuition. }
  rewrite H. simpl. intuition.
Qed.

Lemma cluster_idx_from_bound (clusters : list (list nat)) (ci j index k : nat) :
  In k (cluster_idx_from ci j index clusters) ->
  (ci <= k < ci + length clusters)%nat.
Proof.
  revert ci. induction clusters as [|c clusters IH]; intros ci H;
    simpl in *; [contradiction|].
  destruct (mem j c || mem index c); simpl in H.
  - destruct H as [<-|H]; [lia|]. apply IH in H. lia.
  - apply IH in H. lia.
Qed.

Lemma setitem_Forall {A : Type} (P : A -> Prop) (l : list A) (i : nat)
  (v : A) :
  Forall P l -> P v -> Forall P (setitem l i v).
Proof.
  intros Hl Hv. revert i.
  induction Hl as [|a l Ha Hl IH]; intro i; simpl; [constructor|].
  destruct i; constructor; auto.
Qed.

Lemma setitem_length {A : Type} (l : list A) (i : nat) (v : A) :
  length (setitem l i v) = length l.
Proof.
  revert i. induction l as [|a l IH]; intro i; simpl; [reflexivity|].
  destruct i; simpl; auto.
Qed.

Lemma cluster_step_ok (boxes : list FusionRecord) (iou_thr : Q)
  (clusters : list (list nat)) (j : nat) :
  (j < length boxes)%nat ->
  Forall (cluster_ok (length boxes)) clusters ->
  exists clusters',
    cluster_step boxes iou_thr clusters j = Ok clusters'
    /\ Forall (cluster_ok (length boxes)) clusters'.
Proof.
  intros Hj Hcl. unfold cluster_step. cbv zeta.
  set (ids := filter (fun i => negb (i =? j)%nat) (seq 0 (length boxes))).
  assert (Hids : Forall (fun i => (i < length boxes)%nat) ids).
  { apply Forall_forall. intros i Hi. apply filter_In in Hi.
    destruct Hi as [Hi _]. apply in_seq in Hi. lia. }
  destruct (take_rows_total boxes ids Hids) as [rows_ids [Hrows [Hlen _]]].
  rewrite Hrows. cbn [bind].
  destruct (getitem_lt boxes j Hj) as [bj [Hbj _]].
  rewrite Hbj. cbn [bind].
  destruct (fst (find_matching_box_fast rows_ids bj iou_thr)) as [k|] eqn:Ef.
  - apply find_matching_box_fast_bound in Ef. rewrite Hlen in Ef.
    destruct (getitem_lt ids k Ef) as [index [Hindex Hin]].
    rewrite Hindex. cbn [bind].
    assert (Hindex_lt : (index < length boxes)%nat).
    { rewrite Forall_forall in Hids. now apply Hids. }
    destruct (cluster_idx_from 0 j index clusters) as [|ci rest] eqn:Eci.
    + eexists. split; [reflexivity|].
      apply Forall_app. split; [assumption|].
      constructor; [|constructor].
      split; [discriminate|]. repeat constructor; assumption.
    + assert (Hci : (ci < length clusters)%nat).
      { assert (H : In ci (cluster_idx_from 0 j index clusters))
          by (rewrite Eci; now left).
        apply cluster_idx_from_bound in H. lia. }
      destruct (getitem_lt clusters ci Hci) as [clust [Hclust Hcin]].
      rewrite Hclust. cbn [bind].
      eexists. split; [reflexivity|].
      apply setitem_Forall; [assumption|].
      rewrite Forall_forall in Hcl. destruct (Hcl _ Hcin) as [_ Hall].
      split.
      * intro E.
        assert (H : In j (list_set (clust ++ [index; j]))).
        { apply list_set_In. apply in_or_app. right. simpl. auto. }
        rewrite E in H. contradiction.
      * apply Forall_forall. intros i Hi.
        apply (proj1 (list_set_In _ _)) in Hi.
        apply in_app_or in Hi. destruct Hi as [Hi|[<-|[<-|[]]]];
          [|assumption|assumption].
        rewrite Forall_forall in Hall. now apply Hall.
  - eexists. split; [reflexivity|].
    apply Forall_app. split; [assumption|].
    constructor; [|constructor].
    split; [discriminate|]. repeat constructor; assumption.
Qed.

Lemma clusterize_from_ok (boxes : list FusionRecord) (iou_thr : Q)
  (js : list nat) (clusters : list (list nat)) :
  Forall (fun j => (j < length boxes)%nat) js ->
  Forall (cluster_ok (length boxes)) clusters ->
  exists clusters',
    clusterize_from boxes iou_thr clusters js = Ok clusters'
    /\ Forall (cluster_ok (length boxes)) clusters'.
Proof.
  intro Hjs. revert clusters.
  induction Hjs as [|j js Hj _ IH]; intros clusters Hcl; simpl.
  - eauto.
  - destruct (cluster_step_ok boxes iou_thr clusters j Hj Hcl)
      as [c1 [Hc1 Hok]].
    rewrite Hc1. cbn [bind]. now apply IH.
Qed.

Lemma clusterize_ok (boxes : list FusionRecord) (iou_thr : Q) :
  exists clusters,
    clusterize boxes iou_thr = Ok clusters
    /\ Forall (cluster_ok (length boxes)) clusters.
Proof.
  unfold clusterize. apply clusterize_from_ok; [|constructor].
  apply Forall_forall. intros j Hj. apply in_seq in Hj. lia.
Qed.

(** ** The fusion engine per label: merged boxes *)

Ltac minmax_lra :=
  repeat match goal with
    | |- context [Qmin ?a ?b] =>
        let m := fresh "m" in
        let H := fresh "Hm" in
        pose proof (Q.min_spec_le a b) as H;
        set (m := Qmin a b) in *; clearbody m;
        destruct H as [[? ?]|[? ?]]
    | |- context [Qmax ?a ?b] =>
        let m := fresh "m" in
        let H := fresh "Hm" in
        pose proof (Q.max_spec_le a b) as H;
        set (m := Qmax a b) in *; clearbody m;
        destruct H as [[? ?]|[? ?]]
    | H0 : context [Qmin ?a ?b] |- _ =>
        let m := fresh "m" in
        let H := fresh "Hm" in
        pose proof (Q.min_spec_le a b) as H;
        set (m := Qmin a b) in *; clearbody m;
        destruct H as [[? ?]|[? ?]]
    | H0 : context [Qmax ?a ?b] |- _ =>
        let m := fresh "m" in
        let H := fresh "Hm" in
        pose proof (Q.max_spec_le a b) as H;
        set (m := Qmax a b) in *; clearbody m;
        destruct H as [[? ?]|[? ?]]
    end;
  lra.

Lemma merge_boxes_valid (a b : Box) :
  valid_box a -> valid_box b -> valid_box (merge_boxes a b).
Proof.
  unfold valid_box, merge_boxes; simpl.
  intros [A1 [A2 [A3 [A4 [A5 A6]]]]] [B1 [B2 [B3 [B4 [B5 B6]]]]].
  repeat split; minmax_lra.
Qed.

Lemma envelope_valid (box : Box) (members : list FusionRecord) :
  valid_box box -> Forall (fun r => valid_box (f_box r)) members ->
  valid_box (envelope box members).
Proof.
  intros Hb Hall. revert box Hb. unfold envelope.
  induction Hall as [|m members Hm _ IH]; intros box Hb; simpl;
    [assumption|].
  apply IH. now apply merge_boxes_valid.
Qed.

Lemma merge_cluster_biggest_ok (boxes : list FusionRecord) (lab : bucket_key)
  (n : nat) (ct : conf_type) (c : list nat) :
  (0 < n)%nat ->
  Forall (fun r => lab = Some (f_label r) /\ valid_box (f_box r)) boxes ->
  cluster_ok (length boxes) c ->
  exists r,
    merge_cluster boxes (repeat 1 n) ct Biggest c = Ok r
    /\ valid_box (f_box r).
Proof.
  intros Hn Hboxes [Hne Hc].
  destruct (take_rows_total boxes c Hc) as [members [Hrows [Hlen Hin]]].
  unfold merge_cluster. rewrite Hrows. cbn [bind].
  destruct members as [|m0 rest].
  { destruct c; [congruence | discriminate]. }
  assert (Hmem : Forall (fun r => lab = Some (f_label r)
                                  /\ valid_box (f_box r)) (m0 :: rest)).
  { rewrite Forall_forall in *. intros r Hr. apply Hboxes. now apply Hin. }
  assert (Hlab : merge_labels (map f_label (m0 :: rest))
                   (map f_score (m0 :: rest)) = Ok (f_label m0)).
  { apply merge_labels_uniform; [discriminate|].
    apply Forall_map. eapply Forall_impl; [|exact Hmem].
    intros r [Hr _]. simpl.
    inversion Hmem as [|? ? [H0 _] _]; subst. congruence. }
  destruct (conf_of_total ct (map f_score (m0 :: rest))) as [conf Hconf];
    [discriminate|].
  rewrite (get_biggest_box_Ok ct m0 rest _ conf Hlab Hconf). cbn [bind].
  assert (Hv : valid_box (envelope (f_box m0) (m0 :: rest))).
  { apply envelope_valid.
    - inversion Hmem as [|? ? [_ H0] _]; assumption.
    - eapply Forall_impl; [|exact Hmem]. intros r [_ Hr]. exact Hr. }
  destruct ct.
  - eexists. split; [reflexivity | exact Hv].
  - rewrite (np_max_repeat_1 n Hn). cbn [bind].
    eexists. split; [reflexivity | exact Hv].
Qed.

Lemma fuse_bucket_ok (n : nat) (iou_thr : Q) (ct : conf_type)
  (kb : bucket_key * list FusionRecord) :
  (0 < n)%nat -> bucket_ok kb ->
  exists merged,
    fuse_bucket (repeat 1 n) iou_thr ct Biggest (snd kb) = Ok merged
    /\ Forall (fun r => valid_box (f_box r)) merged.
Proof.
  intros Hn [_ Hall]. unfold fuse_bucket.
  destruct (clusterize_ok (snd kb) iou_thr) as [clusters [Hcl Hok]].
  rewrite Hcl. cbn [bind].
  destruct (mapM_total (merge_cluster (snd kb) (repeat 1 n) ct Biggest)
              (cluster_ok (length (snd kb)))
              (fun r => valid_box (f_box r)) clusters) as [out [Hout [H _]]].
  - intros c Hc. eapply merge_cluster_biggest_ok; eauto.
  - assumption.
  - eauto.
Qed.

Lemma fuse_buckets_ok (n : nat) (iou_thr : Q) (ct : conf_type) (d : buckets) :
  (0 < n)%nat -> Forall bucket_ok d ->
  exists out,
    fuse_buckets (repeat 1 n) iou_thr ct Biggest d = Ok out
    /\ Forall (fun r => valid_box (f_box r)) out.
Proof.
  intros Hn. induction 1 as [|[k boxes] d Hkb _ IH]; simpl.
  - eauto.
  - destruct (fuse_bucket_ok n iou_thr ct (k, boxes) Hn Hkb)
      as [merged [Hm Hmv]].
    simpl in Hm. rewrite Hm. cbn [bind].
    destruct IH as [others [Ho Hov]]. rewrite Ho. cbn [bind].
    eexists. split; [reflexivity|]. apply Forall_app. auto.
Qed.

(** Without [class_agnostic] and with the policy "biggest", the fusion
    returns whenever [prefilter_boxes] does, and returns valid boxes in
    three arrays of one length. *)
Lemma weighted_boxes_fusion_biggest_ok (boxes_list : list (list Box))
  (scores_list : list (list Q)) (labels_list : list (list Z))
  (iou_thr skip_box_thr : Q) (ct : conf_type) (d : buckets) :
  prefilter_boxes boxes_list scores_list labels_list
    (repeat 1 (length boxes_list)) skip_box_thr false = Ok d ->
  exists boxes scores labels,
    weighted_boxes_fusion boxes_list scores_list labels_list iou_thr
      skip_box_thr ct Biggest false
    = Ok (boxes, scores, labels)
    /\ Forall valid_box boxes
    /\ length scores = length boxes /\ length labels = length boxes.
Proof.
  intro Hd. unfold weighted_boxes_fusion. cbv zeta. rewrite Hd. cbn [bind].
  destruct (length d =? 0)%nat eqn:E.
  - exists [], [], []. repeat split; constructor.
  - assert (Hn : (0 < length boxes_list)%nat).
    { destruct boxes_list; [|simpl; lia].
      simpl in Hd. injection Hd as <-. discriminate. }
    destruct (fuse_buckets_ok (length boxes_list) iou_thr ct d Hn
                (prefilter_boxes_ok _ _ _ _ _ _ Hd)) as [out [Ho Hov]].
    rewrite Ho. cbn [bind].
    do 3 eexists. split; [reflexivity|].
    rewrite !length_map. split; [|split; reflexivity].
    apply Forall_map. now apply sort_by_score_desc_Forall.
Qed.

Lemma prefilter_rows_singletons (bs : list Box) (cs : list Q) (ls : list Z)
  (thr : Q) (class_agnostic : bool) :
  length cs = length bs -> length ls = length bs ->
  exists d,
    prefilter_boxes (map (fun b => [b]) bs) (map (fun c => [c]) cs)
      (map (fun l => [l]) ls) (repeat 1 (length (map (fun b => [b]) bs)))
      thr class_agnostic
    = Ok d.
Proof.
  intros Hc Hl. unfold prefilter_boxes.
  destruct (prefilter_models_total (map (fun b => [b]) bs)
              (map (fun c => [c]) cs) (map (fun l => [l]) ls)
              (repeat 1 (length (map (fun b : Box => [b]) bs)))
              thr class_agnostic 0 []) as [d Hd].
  - intros i bt Hi. simpl.
    rewrite nth_error_map in Hi.
    destruct (nth_error bs i) as [b|] eqn:Eb; [|discriminate].
    injection Hi as <-.
    assert (Hlt : (i < length bs)%nat)
      by (apply nth_error_Some; congruence).
    destruct (nth_error cs i) as [c|] eqn:Ec;
      [|apply nth_error_None in Ec; lia].
    destruct (nth_error ls i) as [l|] eqn:El;
      [|apply nth_error_None in El; lia].
    exists [c], [l]. rewrite !nth_error_map, Ec, El.
    rewrite repeat_length, length_map. auto.
  - rewrite Hd. simpl. eauto.
Qed.

Lemma fuse_annotations_ok (a : AnnotationSet) :
  exists boxes scores labels,
    fuse_annotations a = Ok (boxes, scores, labels)
    /\ Forall valid_box boxes
    /\ length scores = length boxes /\ length labels = length boxes.
Proof.
  unfold fuse_annotations. rewrite concat_annotations_eq.
  set (all := table a ++ chart a ++ title a).
  destruct (prefilter_rows_singletons (map bbox all) (map confidence all)
              (repeat 0%Z (length (table a)) ++ repeat 1%Z (length (chart a))
                 ++ repeat 2%Z (length (title a))) 0 false) as [d Hd].
  - now rewrite !length_map.
  - rewrite !length_app, !repeat_length, length_map. unfold all.
    now rewrite !length_app.
  - eapply weighted_boxes_fusion_biggest_ok. exact Hd.
Qed.

(** ** Matching a chart with the titles *)

Lemma nth_error_middle {A : Type} (pre : list A) (x : A) (post : list A) :
  nth_error (pre ++ x :: post) (length pre) = Some x.
Proof.
  rewrite nth_error_app2 by lia. now rewrite Nat.sub_diag.
Qed.

Lemma take_rows_filter_seq {A : Type} (q : nat -> bool) (pre suf : list A) :
  take_rows (pre ++ suf) (filter q (seq (length pre) (length suf)))
  = Ok (select q (length pre) suf).
Proof.
  revert pre. induction suf as [|x suf IH]; intro pre; [reflexivity|].
  cbn [length seq filter select].
  assert (E : pre ++ x :: suf = (pre ++ [x]) ++ suf)
    by (now rewrite <- app_assoc).
  assert (El : S (length pre) = length (pre ++ [x]))
    by (rewrite length_app; simpl; lia).
  destruct (q (length pre)).
  - cbn [take_rows]. unfold getitem. rewrite nth_error_middle. cbn [bind].
    rewrite E, El, IH. reflexivity.
  - rewrite E, El, IH. reflexivity.
Qed.

Lemma mem_true_iff (x : nat) (l : list nat) : mem x l = true <-> In x l.
Proof.
  unfold mem. rewrite existsb_exists. split.
  - intros [y [Hy E]]. apply Nat.eqb_eq in E. now subst.
  - intro H. exists x. split; [assumption | apply Nat.eqb_refl].
Qed.

Lemma np_where_from_In {A : Type} (p : A -> bool) (l : list A) (k i : nat) :
  In i (np_where_from k p l)
  <-> (k <= i)%nat /\ exists x, nth_error l (i - k) = Some x /\ p x = true.
Proof.
  revert k. induction l as [|y l IH]; intro k; simpl.
  - split; [contradiction|]. intros [_ [x [H _]]].
    destruct (i - k)%nat; discriminate.
  - assert (Hrec : In i (np_where_from (S k) p l)
                   <-> (S k <= i)%nat
                       /\ exists x, nth_error l (i - S k) = Some x
                                    /\ p x = true) by apply IH.
    destruct (p y) eqn:Ep; simpl; rewrite Hrec; clear Hrec IH.
    + split.
      * intros [<-|[Hk [x Hx]]].
        -- split; [lia|]. rewrite Nat.sub_diag. simpl. eauto.
        -- split; [lia|]. replace (i - k)%nat with (S (i - S k)) by lia.
           simpl. eauto.
      * intros [Hk [x [Hx Hp]]].
        destruct (Nat.eq_dec k i) as [->|Hne]; [now left|]. right.
        split; [lia|].
        replace (i - k)%nat with (S (i - S k)) in Hx by lia. simpl in Hx.
        eauto.
    + split.
      * intros [Hk [x Hx]]. split; [lia|].
        replace (i - k)%nat with (S (i - S k)) by lia. simpl. eauto.
      * intros [Hk [x [Hx Hp]]].
        destruct (Nat.eq_dec k i) as [->|Hne].
        -- rewrite Nat.sub_diag in Hx. simpl in Hx. congruence.
        -- split; [lia|].
           replace (i - k)%nat with (S (i - S k)) in Hx by lia.
           simpl in Hx. eauto.
Qed.

Lemma merge_matches_where {A : Type} (p : A -> bool) (f : Box -> A)
  (pre suf : list Box) (new_bbox : Box) :
  merge_matches new_bbox (pre ++ suf)
    (np_where_from (length pre) p (map f suf))
  = Ok (fold_left merge_boxes (filter (fun t => p (f t)) suf) new_bbox).
Proof.
  revert pre new_bbox.
  induction suf as [|x suf IH]; intros pre new_bbox; [reflexivity|].
  assert (E : pre ++ x :: suf = (pre ++ [x]) ++ suf)
    by (now rewrite <- app_assoc).
  assert (El : S (length pre) = length (pre ++ [x]))
    by (rewrite length_app; simpl; lia).
  cbn [map np_where_from filter].
  destruct (p (f x)).
  - cbn [merge_matches fold_left]. unfold getitem.
    rewrite nth_error_middle. cbn [bind]. rewrite E, El. apply IH.
  - rewrite E, El. apply IH.
Qed.

Lemma select_where {A B : Type} (p : B -> bool) (f : A -> B)
  (matches : list nat) (pre suf : list A) :
  (forall i, In i matches
             <-> exists x, nth_error (pre ++ suf) i = Some x
                           /\ p (f x) = true) ->
  select (fun i => negb (mem i matches)) (length pre) suf
  = filter (fun t => negb (p (f t))) suf.
Proof.
  revert pre. induction suf as [|x suf IH]; intros pre H; [reflexivity|].
  assert (E : pre ++ x :: suf = (pre ++ [x]) ++ suf)
    by (now rewrite <- app_assoc).
  assert (El : S (length pre) = length (pre ++ [x]))
    by (rewrite length_app; simpl; lia).
  cbn [select filter].
  assert (Hm : mem (length pre) matches = p (f x)).
  { destruct (p (f x)) eqn:Ep.
    - apply mem_true_iff. apply H. exists x. split; [|assumption].
      apply nth_error_middle.
    - destruct (mem (length pre) matches) eqn:Em; [|reflexivity].
      apply mem_true_iff in Em. apply H in Em.
      destruct Em as [y [Hy Hp]]. rewrite nth_error_middle in Hy.
      congruence. }
  rewrite Hm, El. rewrite (IH (pre ++ [x])); [reflexivity|].
  rewrite <- E. exact H.
Qed.

Lemma select_remove {A : Type} (i : nat) (pre0 pre : list A) (t : A)
  (post : list A) :
  i = (length pre0 + length pre)%nat ->
  select (fun j => negb (mem j [i])) (length pre0) (pre ++ t :: post)
  = pre ++ post.
Proof.
  revert pre0. induction pre as [|x pre IH]; intros pre0 Hi; simpl in *.
  - assert (Hm : (length pre0 =? i)%nat = true)
      by (apply Nat.eqb_eq; lia).
    rewrite Hm. simpl.
    assert (Hrest : forall k (l : list A), (i < k)%nat ->
              select (fun j => negb (mem j [i])) k l = l).
    { intros k l. revert k. induction l as [|y l IHl]; intros k Hk;
        [reflexivity|].
      simpl. assert (Hn : (k =? i)%nat = false) by (apply Nat.eqb_neq; lia).
      rewrite Hn. simpl. f_equal. apply IHl. lia. }
    apply Hrest. lia.
  - assert (Hm : (length pre0 =? i)%nat = false)
      by (apply Nat.eqb_neq; lia).
    rewrite Hm. simpl. f_equal.
    assert (El : S (length pre0) = length (pre0 ++ [x]))
      by (rewrite length_app; simpl; lia).
    rewrite El. apply IH. rewrite length_app. simpl. lia.
Qed.

Lemma argmin_from_spec (l pre : list Q) (best : Q) (besti : nat) :
  nth_error pre besti = Some best ->
  (forall j u, nth_error pre j = Some u -> (j < besti)%nat -> best < u) ->
  (forall u, In u pre -> best <= u) ->
  exists v,
    nth_error (pre ++ l) (argmin_from best besti (length pre) l) = Some v
    /\ (forall j u, nth_error (pre ++ l) j = Some u ->
                    (j < argmin_from best besti (length pre) l)%nat -> v < u)
    /\ (forall u, In u (pre ++ l) -> v <= u).
Proof.
  revert pre best besti.
  induction l as [|x l IH]; intros pre best besti Hb Hlt Hle.
  - simpl. rewrite app_nil_r. eauto.
  - assert (E : pre ++ x :: l = (pre ++ [x]) ++ l)
      by (now rewrite <- app_assoc).
    assert (El : S (length pre) = length (pre ++ [x]))
      by (rewrite length_app; simpl; lia).
    assert (Hbi : (besti < length pre)%nat)
      by (apply nth_error_Some; congruence).
    cbn [argmin_from]. rewrite E, El.
    destruct (Qlt_bool x best) eqn:Ex.
    + apply Qlt_bool_iff in Ex. apply IH.
      * apply nth_error_middle.
      * intros j u Hj Hjlt. rewrite nth_error_app1 in Hj by lia.
        apply nth_error_In in Hj. apply Hle in Hj. lra.
      * intros u Hu. apply in_app_or in Hu. destruct Hu as [Hu|[<-|[]]].
        -- apply Hle in Hu. lra.
        -- apply Qle_refl.
    + apply Qlt_bool_false in Ex. apply IH.
      * rewrite nth_error_app1 by lia. exact Hb.
      * intros j u Hj Hjlt. rewrite nth_error_app1 in Hj by lia.
        now apply (Hlt j).
      * intros u Hu. apply in_app_or in Hu. destruct Hu as [Hu|[<-|[]]].
        -- now apply Hle.
        -- exact Ex.
Qed.

Lemma argmin_spec (l : list Q) :
  l <> [] ->
  exists i v,
    argmin l = Ok i /\ nth_error l i = Some v
    /\ (forall j u, nth_error l j = Some u -> (j < i)%nat -> v < u)
    /\ (forall u, In u l -> v <= u).
Proof.
  destruct l as [|x l]; [congruence|]. intros _.
  destruct (argmin_from_spec l [x] x 0%nat) as [v [H1 [H2 H3]]].
  - reflexivity.
  - intros j u _ Hj. lia.
  - intros u [<-|[]]. apply Qle_refl.
  - simpl in *. eauto 10.
Qed.

Lemma title_distances (chart_bbox : Box) (pool : list Box) :
  map2 Qplus
    (map2 Qmin (map (fun t => Qabs (y2 t - y1 chart_bbox)) pool)
       (map (fun t => Qabs (y2 chart_bbox - y1 t)) pool))
    (map (fun t => Qabs (x1 t - x1 chart_bbox)) pool)
  = map (fun t => title_distance t chart_bbox) pool.
Proof.
  induction pool as [|t pool IH]; [reflexivity|].
  cbn [map map2]. now rewrite IH.
Qed.

Lemma match_with_title_unfold (chart_bbox : Box) (t0 : Box)
  (pool : list Box) (iou_th : Q) :
  match_with_title chart_bbox (t0 :: pool) iou_th
  = (max_iou <- np_max (bb_iou_array (t0 :: pool) chart_bbox) ;;
     matches <-
       (if Qlt_bool iou_th max_iou
        then Ok (Some (np_where (fun v => Qlt_bool iou_th v)
                         (bb_iou_array (t0 :: pool) chart_bbox)))
        else
          min_dist <-
            np_min (map (fun t => title_distance t chart_bbox) (t0 :: pool)) ;;
          if Qlt_bool min_dist 0.1
          then
            i <- argmin (map (fun t => title_distance t chart_bbox)
                           (t0 :: pool)) ;;
            Ok (Some [i])
          else Ok None) ;;
     match matches with
     | Some matches =>
         new_bbox <- merge_matches chart_bbox (t0 :: pool) matches ;;
         title_bboxes' <-
           take_rows (t0 :: pool)
             (filter (fun i => negb (mem i matches))
                (seq 0 (length (t0 :: pool)))) ;;
         Ok (Some (new_bbox, title_bboxes'))
     | None => Ok None
     end).
Proof.
  unfold match_with_title. cbv zeta.
  rewrite <- (title_distances chart_bbox (t0 :: pool)).
  reflexivity.
Qed.

Lemma match_with_title_matches (chart_bbox : Box) (pool : list Box) :
  exists m,
    match_with_title chart_bbox pool 0.01 = Ok m
    /\ title_match chart_bbox pool m.
Proof.
  destruct pool as [|t0 pool'].
  { exists None. split; [reflexivity|].
    apply match_none; intros u []. }
  rewrite match_with_title_unfold.
  set (pool := t0 :: pool').
  assert (Hne : bb_iou_array pool chart_bbox <> []) by discriminate.
  destruct (np_max_total _ Hne) as [max_iou [Hmax _]].
  rewrite Hmax. cbn [bind].
  destruct (np_max_spec _ _ Hmax) as [Hub [y [Hy Hyeq]]].
  unfold bb_iou_array in Hy, Hub.
  destruct (Qlt_bool 0.01 max_iou) eqn:Eth.
  - (* some title overlaps the chart *)
    apply Qlt_bool_iff in Eth. cbn [bind].
    unfold np_where, bb_iou_array.
    pose proof (merge_matches_where (fun v => Qlt_bool 0.01 v)
                  (fun t => bb_iou t chart_bbox) [] pool chart_bbox) as Hmm.
    cbn [app length] in Hmm. rewrite Hmm. clear Hmm. cbn [bind].
    match goal with
    | |- context [take_rows pool (filter ?q _)] =>
        pose proof (take_rows_filter_seq q [] pool) as Htr
    end.
    cbn [app length] in Htr. rewrite Htr. clear Htr. cbn [bind].
    pose proof (select_where (fun v => Qlt_bool 0.01 v)
                  (fun t => bb_iou t chart_bbox)
                  (np_where_from 0 (fun v => Qlt_bool 0.01 v)
                     (map (fun t => bb_iou t chart_bbox) pool))
                  [] pool) as Hsel.
    cbn [app length] in Hsel. rewrite Hsel; clear Hsel.
    + eexists. split; [reflexivity|]. apply match_overlap.
      apply in_map_iff in Hy. destruct Hy as [t [Ht Hin]].
      exists t. split; [assumption|]. rewrite Ht, Hyeq. exact Eth.
    + intro i. rewrite np_where_from_In. rewrite Nat.sub_0_r.
      cbn [app]. rewrite nth_error_map. split.
      * intros [_ [x [Hx Hp]]].
        destruct (nth_error pool i) as [t|]; [|discriminate].
        injection Hx as <-. eauto.
      * intros [t [Ht Hp]]. split; [lia|]. rewrite Ht. simpl. eauto.
  - (* no title overlaps the chart *)
    apply Qlt_bool_false in Eth.
    assert (Hiou : forall u, In u pool -> bb_iou u chart_bbox <= 0.01).
    { intros u Hu. eapply Qle_trans; [|exact Eth].
      apply Hub. apply in_map_iff. eauto. }
    assert (Hdne : map (fun t => title_distance t chart_bbox) pool <> [])
      by discriminate.
    destruct (np_min_total _ Hdne) as [min_dist [Hmin _]].
    rewrite Hmin. cbn [bind].
    destruct (np_min_spec _ _ Hmin) as [Hlb [z [Hz Hzeq]]].
    destruct (Qlt_bool min_dist 0.1) eqn:Ed.
    + apply Qlt_bool_iff in Ed.
      destruct (argmin_spec _ Hdne) as [i [v [Hi [Hv [Hfirst Hall]]]]].
      rewrite Hi. cbn [bind].
      rewrite nth_error_map in Hv.
      destruct (nth_error pool i) as [t|] eqn:Et; [|discriminate].
      injection Hv as Hv.
      destruct (nth_error_split pool i Et) as [pre [post [Hsplit Hlen]]].
      cbn [merge_matches]. unfold getitem. rewrite Et. cbn [bind].
      pose proof (take_rows_filter_seq (fun j => negb (mem j [i])) [] pool)
        as Htr.
      cbn [app length] in Htr. rewrite Htr. clear Htr. cbn [bind].
      pose proof (select_remove i [] pre t post) as Hsel.
      cbn [length] in Hsel. rewrite <- Hsplit in Hsel.
      rewrite Hsel by lia. clear Hsel.
      eexists. split; [reflexivity|].
      apply (match_nearest chart_bbox pool pre t post Hsplit Hiou).
      * rewrite Hv. eapply Qle_lt_trans; [apply Hall; exact Hz|].
        rewrite Hzeq. exact Ed.
      * intros u Hu. rewrite Hv.
        apply In_nth_error in Hu. destruct Hu as [j Hj].
        assert (Hjlt : (j < length pre)%nat)
          by (apply nth_error_Some; congruence).
        apply (Hfirst j); [|lia].
        rewrite nth_error_map, Hsplit, nth_error_app1, Hj by lia.
        reflexivity.
      * intros u Hu. rewrite Hv. apply Hall. apply in_map_iff.
        exists u. split; [reflexivity|]. rewrite Hsplit.
        apply in_or_app. right. now right.
    + apply Qlt_bool_false in Ed. exists None. split; [reflexivity|].
      apply match_none; [exact Hiou|].
      intros u Hu. eapply Qle_trans; [exact Ed|].
      apply Hlb. apply in_map_iff. eauto.
Qed.

(** ** The loop over the chart boxes *)

Lemma fold_merge_boxes_valid (ts : list Box) (b : Box) :
  valid_box b -> Forall valid_box ts ->
  valid_box (fold_left merge_boxes ts b).
Proof.
  intros Hb Hts. revert b Hb.
  induction Hts as [|t ts Ht _ IH]; intros b Hb; simpl; [assumption|].
  apply IH. now apply merge_boxes_valid.
Qed.

Lemma Forall_filter {A : Type} (P : A -> Prop) (f : A -> bool) (l : list A) :
  Forall P l -> Forall P (filter f l).
Proof.
  rewrite !Forall_forall. intros H x Hx. apply filter_In in Hx.
  apply H. tauto.
Qed.

Lemma title_match_valid (chart_bbox : Box) (pool : list Box) (b : Box)
  (pool' : list Box) :
  title_match chart_bbox pool (Some (b, pool')) ->
  valid_box chart_bbox -> Forall valid_box pool ->
  valid_box b /\ Forall valid_box pool'.
Proof.
  intros H Hc Hp. inversion H as [Hex|pre t post Hsplit _ _ _ _|]; subst.
  - split.
    + apply fold_merge_boxes_valid; [assumption|]. now apply Forall_filter.
    + now apply Forall_filter.
  - apply Forall_app in Hp. destruct Hp as [Hpre Hpost].
    inversion Hpost; subst. split.
    + now apply merge_boxes_valid.
    + apply Forall_app. auto.
Qed.

Lemma match_step_ok (n : nat) (st : match_state) (i : nat) :
  (i < n)%nat -> state_ok n st ->
  exists st', match_step st i = Ok st' /\ state_ok n st'.
Proof.
  intros Hi [Hlen [Hc [Hp [Hf Hnf]]]]. unfold match_step.
  rewrite <- Hlen in Hi.
  destruct (getitem_lt _ i Hi) as [chart_i [Hci Hin]].
  rewrite Hci. cbn [bind].
  destruct (match_with_title_matches chart_i (st_title_bboxes st))
    as [m [Hm Htm]].
  rewrite Hm. cbn [bind].
  assert (Hvi : valid_box chart_i).
  { rewrite Forall_forall in Hc. now apply Hc. }
  rewrite Hlen in Hi.
  destruct m as [[new_bbox remaining]|].
  - destruct (title_match_valid _ _ _ _ Htm Hvi Hp) as [Hvb Hvr].
    eexists. split; [reflexivity|].
    unfold state_ok; simpl. rewrite setitem_length.
    repeat split; try assumption.
    + now apply setitem_Forall.
    + apply Forall_app. split; [assumption|]. repeat constructor. exact Hi.
  - eexists. split; [reflexivity|].
    unfold state_ok; simpl. repeat split; try assumption.
    apply Forall_app. split; [assumption|]. repeat constructor. exact Hi.
Qed.

Lemma match_loop_ok (n : nat) (idxs : list nat) (st : match_state) :
  Forall (fun i => (i < n)%nat) idxs -> state_ok n st ->
  exists st', match_loop st idxs = Ok st' /\ state_ok n st'.
Proof.
  intro Hidx. revert st.
  induction Hidx as [|i idxs Hi _ IH]; intros st Hst; simpl.
  - eauto.
  - destruct (match_step_ok n st i Hi Hst) as [st1 [H1 Hok]].
    rewrite H1. cbn [bind]. now apply IH.
Qed.

Lemma put_rows_ok {A : Type} (idxs : list nat) (vals arr : list A) :
  Forall (fun i => (i < length arr)%nat) idxs ->
  exists arr',
    put_rows arr idxs vals = Ok arr'
    /\ length arr' = length arr
    /\ forall P : A -> Prop, Forall P arr -> Forall P vals -> Forall P arr'.
Proof.
  intro Hidx. revert vals arr Hidx.
  induction idxs as [|i idxs IH]; intros vals arr Hidx.
  - exists arr. simpl. auto.
  - destruct vals as [|v vals]; [exists arr; simpl; auto|].
    inversion Hidx as [|? ? Hi Hrest]; subst.
    cbn [put_rows].
    assert (E : (i <? length arr)%nat = true) by (now apply Nat.ltb_lt).
    rewrite E.
    destruct (IH vals (setitem arr i v)) as [arr' [Hput [Hlen HP]]].
    { now rewrite setitem_length. }
    exists arr'. split; [exact Hput|].
    split; [now rewrite Hlen, setitem_length|].
    intros P Harr Hvals. inversion Hvals; subst.
    apply HP; [now apply setitem_Forall | assumption].
Qed.

Lemma clip_unit (x : Q) : 0 <= clip x 0 1 <= 1.
Proof.
  unfold clip. split; minmax_lra.
Qed.

Lemma expand_box_valid (r_x r_y : Q) (b : Box) :
  1 <= r_x -> 1 <= r_y -> valid_box b -> valid_box (expand_box r_x r_y b).
Proof.
  intros Hx Hy [B1 [B2 [B3 [B4 [B5 B6]]]]].
  unfold expand_box. cbv zeta.
  assert (Hhalf : forall v, 0 <= v -> 0 <= v / 2).
  { intros v Hv. unfold Qdiv. apply Qmult_le_0_compat; [exact Hv|].
    vm_compute. discriminate. }
  assert (Hdw : 0 <= (x2 b - x1 b) / 2 * (r_x - 1)).
  { apply Qmult_le_0_compat; [apply Hhalf|]; lra. }
  assert (Hdh : 0 <= (y2 b - y1 b) / 2 * (r_y - 1)).
  { apply Qmult_le_0_compat; [apply Hhalf|]; lra. }
  set (dw := (x2 b - x1 b) / 2 * (r_x - 1)) in *.
  set (dh := (y2 b - y1 b) / 2 * (r_y - 1)) in *.
  clearbody dw dh.
  unfold valid_box, clip; simpl.
  repeat split; minmax_lra.
Qed.

Lemma np_mask_Forall {A : Type} (P : A -> Prop) (arr : list A)
  (mask : list bool) :
  Forall P arr -> Forall P (np_mask arr mask).
Proof.
  intro H. revert mask.
  induction H as [|a arr Ha _ IH]; intros [|m mask]; simpl;
    try constructor.
  destruct m; [constructor; auto | auto].
Qed.

Lemma map2_mkDet_Forall (P : Box -> Prop) (boxes : list Box) (confs : list Q) :
  Forall P boxes -> Forall (fun d => P (bbox d)) (map2 mkDet boxes confs).
Proof.
  intro H. revert confs.
  induction H as [|b boxes Hb _ IH]; intros [|c confs]; simpl;
    constructor; auto.
Qed.

(** [expand_chart_bboxes] always returns: the table and title lists are
    those of its argument, and the chart boxes it builds are valid. *)
Lemma expand_chart_bboxes_ok (a : AnnotationSet) :
  exists out,
    expand_chart_bboxes a = Ok out
    /\ table out = table a /\ title out = title a
    /\ (chart a = [] -> out = a)
    /\ (chart a <> [] -> Forall (fun d => valid_box (bbox d)) (chart out)).
Proof.
  unfold expand_chart_bboxes.
  destruct (length (chart a) =? 0)%nat eqn:E.
  { exists a. apply Nat.eqb_eq in E. apply length_zero_iff_nil in E.
    repeat split; auto. intro H. congruence. }
  destruct (fuse_annotations_ok a)
    as [pred_wbf [confidences_wbf [labels_wbf [Hfuse [Hvalid _]]]]].
  rewrite Hfuse. cbv beta iota delta [bind].
  set (charts := np_mask pred_wbf (map (Z.eqb 1) labels_wbf)).
  set (titles := np_mask pred_wbf (map (Z.eqb 2) labels_wbf)).
  set (confs := np_mask confidences_wbf (map (Z.eqb 1) labels_wbf)).
  destruct (match_loop_ok (length charts) (seq 0 (length charts))
              (mkState charts titles [] [])) as [st [Hloop Hst]].
  { apply Forall_forall. intros i Hi. apply in_seq in Hi. lia. }
  { unfold state_ok; simpl. repeat split; try constructor;
      apply np_mask_Forall; assumption. }
  rewrite Hloop.
  destruct Hst as [Hlen [Hc [_ [Hf Hnf]]]].
  rewrite <- Hlen in Hf, Hnf.
  destruct (take_rows_total _ _ Hf) as [found [Hfound [_ Hfin]]].
  rewrite Hfound.
  destruct (put_rows_ok (st_found_title_idxs st)
              (expand_boxes found 1.05 1.1) (st_chart_bboxes st) Hf)
    as [charts1 [Hput1 [Hlen1 HP1]]].
  rewrite Hput1.
  assert (Hc1 : Forall valid_box charts1).
  { apply HP1; [assumption|]. unfold expand_boxes. apply Forall_map.
    rewrite Forall_forall in *. intros b Hb.
    apply expand_box_valid; [vm_compute; discriminate ..|].
    apply Hc. now apply Hfin. }
  rewrite <- Hlen1 in Hnf.
  destruct (take_rows_total _ _ Hnf) as [no_found [Hno [_ Hnin]]].
  rewrite Hno.
  destruct (put_rows_ok (st_no_found_title_idxs st)
              (expand_boxes no_found 1.1 1.25) charts1 Hnf)
    as [charts2 [Hput2 [Hlen2 HP2]]].
  rewrite Hput2.
  eexists. split; [reflexivity|]. simpl.
  repeat split.
  - intro H. rewrite H in E. discriminate.
  - intros _. apply map2_mkDet_Forall.
    apply HP2; [assumption|]. unfold expand_boxes. apply Forall_map.
    rewrite Forall_forall in *. intros b Hb.
    apply expand_box_valid; [vm_compute; discriminate ..|].
    apply Hc1. now apply Hnin.
Qed.

(** C1.  For an annotation set with at least one chart detection, the
    chart and title fusion returns, and the title list it returns is the
    title list of its argument, whether or not titles were merged into
    chart boxes; the final threshold filter returns it as it is too. *)
Theorem expand_chart_bboxes_keeps_titles (a : AnnotationSet)
  (final_thresh : Q) :
  chart a <> [] ->
  exists out,
    expand_chart_bboxes a = Ok out
    /\ title out = title a
    /\ length (title out) = length (title a)
    /\ title (final_filter final_thresh out) = title a.
Proof.
  intros _.
  destruct (expand_chart_bboxes_ok a) as [out [Hout [_ [Ht _]]]].
  exists out. split; [exact Hout|]. split; [exact Ht|].
  split; [now rewrite Ht | exact Ht].
Qed.

Lemma expand_chart_bboxes_keeps_titles_witness :
  exists out,
    expand_chart_bboxes sample_no_table = Ok out
    /\ title out = [mkDet (mkBox 0.2 0.05 0.6 0.18) 0.8]
    /\ length (title out) = 1%nat
    /\ title (final_filter 0.48 out) = [mkDet (mkBox 0.2 0.05 0.6 0.18) 0.8].
Proof.
  apply (expand_chart_bboxes_keeps_titles sample_no_table 0.48).
  discriminate.
Defined.

(** ** The boxes of the final annotation sets *)

Lemma round_entry_inside (b : Box) (score : Q) :
  inside_box b -> inside_box (bbox (round_entry b score)).
Proof.
  unfold inside_box, round_entry; simpl.
  intros [H1 [H2 [H3 [H4 [H5 H6]]]]].
  assert (E0 : round4 0 == 0) by reflexivity.
  assert (E1 : round4 1 == 1) by reflexivity.
  pose proof (round4_mono 0 (x1 b) H1).
  pose proof (round4_mono _ _ H2).
  pose proof (round4_mono (x2 b) 1 H3).
  pose proof (round4_mono 0 (y1 b) H4).
  pose proof (round4_mono _ _ H5).
  pose proof (round4_mono (y2 b) 1 H6).
  repeat split; lra.
Qed.

Lemma expand_table_entry_inside (l : Label) (d : Detection) :
  inside_box (bbox d) -> inside_box (bbox (expand_table_entry l d)).
Proof.
  intro H. unfold expand_table_entry. cbv zeta.
  apply round_entry_inside.
  destruct (Label_eqb l Table); [|exact H].
  destruct H as [H1 [H2 [H3 [H4 [H5 H6]]]]].
  unfold inside_box; simpl.
  assert (Hh : 0 <= (y2 (bbox d) - y1 (bbox d)) * 0.2).
  { apply Qmult_le_0_compat; [lra | vm_compute; discriminate]. }
  set (h := (y2 (bbox d) - y1 (bbox d)) * 0.2) in *. clearbody h.
  repeat split; try assumption; minmax_lra.
Qed.

Lemma expand_table_bboxes_inside (a : AnnotationSet) :
  (Forall (fun d => inside_box (bbox d)) (table a) ->
   Forall (fun d => inside_box (bbox d)) (table (expand_table_bboxes a)))
  /\ (Forall (fun d => inside_box (bbox d)) (title a) ->
      Forall (fun d => inside_box (bbox d)) (title (expand_table_bboxes a))).
Proof.
  destruct (table a) as [|d ds] eqn:E.
  - unfold expand_table_bboxes. rewrite E. simpl. rewrite E. auto.
  - rewrite expand_table_bboxes_maps by congruence. simpl. rewrite E.
    split; intro H; apply Forall_map; (eapply Forall_impl; [|exact H]);
      intros x Hx; now apply expand_table_entry_inside.
Qed.

Lemma valid_box_inside (b : Box) : valid_box b -> inside_box b.
Proof.
  unfold valid_box, inside_box. intros [H1 [H2 [H3 [H4 [H5 H6]]]]].
  repeat split; lra.
Qed.

Lemma refine_one (a out : AnnotationSet) (final_thresh : Q) :
  expand_chart_bboxes (expand_table_bboxes a) = Ok out ->
  refined_boxes a (final_filter final_thresh out).
Proof.
  intro H.
  destruct (expand_chart_bboxes_ok (expand_table_bboxes a))
    as [out' [Hout [Htab [Htit [Hnil Hval]]]]].
  rewrite H in Hout. injection Hout as <-.
  destruct (expand_table_bboxes_inside a) as [Hit Hiti].
  unfold refined_boxes, final_filter; simpl. split; [|split].
  - apply Forall_filter.
    destruct (chart (expand_table_bboxes a)) as [|c cs] eqn:E.
    + rewrite (Hnil eq_refl), E. constructor.
    + eapply Forall_impl; [|apply Hval; discriminate].
      intros d Hd. now apply valid_box_inside.
  - intro Hin. apply Forall_filter. rewrite Htab. now apply Hit.
  - intro Hin. rewrite Htit. now apply Hiti.
Qed.

Lemma Forall2_map_l_iff {A B C : Type} (R : B -> C -> Prop) (f : A -> B)
  (l : list A) (m : list C) :
  Forall2 R (map f l) m -> Forall2 (fun a c => R (f a) c) l m.
Proof.
  revert m. induction l as [|a l IH]; intros m H; simpl in H;
    inversion H; subst; constructor; auto.
Qed.

Lemma Forall2_map_right {A B C : Type} (R : A -> C -> Prop) (f : B -> C)
  (l : list A) (m : list B) :
  Forall2 (fun a b => R a (f b)) l m -> Forall2 R l (map f m).
Proof.
  induction 1; simpl; constructor; auto.
Qed.

(** C3, as the code has it.  Once the annotation sets [results] are there
    (those received from the HTTP back end, or those that the normalizer
    returns for the gRPC back end), the layout heuristics and the final
    filter return.  Every chart box of the output satisfies
    [0 <= x1 <= x2 <= 1] and [0 <= y1 <= y2 <= 1], whatever the chart boxes
    of [results] are.  The table and title boxes are not checked: they
    satisfy [0 <= x1 <= x2 <= 1] and [0 <= y1 <= y2 <= 1] when the table and
    title boxes of [results] do.  A non-zero area is stated of no box: the
    fusion engine keeps the row of a chart in single precision, where the
    two edges of a box thinner than that precision coincide, and this
    development computes with exact rationals. *)
Theorem output_boxes
  (nms : list Box -> list Q -> Q -> list nat)
  (batched_nms : list Box -> list Q -> list Q -> Q -> list nat)
  (output : model_output) (original_image_shapes : list (list nat))
  (num_classes : nat) (conf_thresh iou_thresh min_score final_thresh : Q)
  (results : list AnnotationSet) :
  match output with
  | Http output => Ok output
  | Grpc output =>
      pred <- postprocess_model_prediction nms batched_nms output
                num_classes conf_thresh iou_thresh true ;;
      postprocess_results pred original_image_shapes min_score
  end = Ok results ->
  exists out,
    process_inference_results nms batched_nms output original_image_shapes
      num_classes conf_thresh iou_thresh min_score final_thresh
    = Ok out
    /\ Forall2 refined_boxes results out.
Proof.
  intro Hres. unfold process_inference_results. rewrite Hres. cbn [bind].
  destruct (mapM_total expand_chart_bboxes (fun _ => True) (fun _ => True)
              (map expand_table_bboxes results)) as [outs [Houts _]].
  - intros a _. destruct (expand_chart_bboxes_ok a) as [o [Ho _]]. eauto.
  - apply Forall_forall. auto.
  - rewrite Houts. cbn [bind]. eexists. split; [reflexivity|].
    apply mapM_Ok_Forall2 in Houts. apply Forall2_map_l_iff in Houts.
    apply Forall2_map_right.
    eapply Forall2_impl; [|exact Houts].
    intros a o Ho. now apply refine_one.
Qed.

Lemma output_boxes_witness :
  (exists out,
      process_inference_results keep_all keep_all_batched
        (Http [sample_flat_table]) [] 3 0.01 0.5 0.1 0.48
      = Ok out
      /\ Forall2 refined_boxes [sample_flat_table] out)
  /\ (exists out,
         process_inference_results keep_all keep_all_batched
           (Grpc sample_tensor) [[1024; 1024; 3]%nat] 3 0.01 0.5 0.1 0.48
         = Ok out
         /\ Forall2 refined_boxes
              [mkAnn [mkDet (mkBox 0.4023 0.4512 0.5977 0.5488) 0.7200] [] []]
              out).
Proof.
  split.
  - apply (output_boxes keep_all keep_all_batched (Http [sample_flat_table])).
    reflexivity.
  - apply (output_boxes keep_all keep_all_batched (Grpc sample_tensor)).
    vm_compute. reflexivity.
Defined.

(** C3, as the specification states it, fails on a table of zero width
    next to a chart (the fusion engine drops the table from its own input,
    and the table list returned is the one received), and on a raw
    candidate that lies outside the image (the normalizer clips it to the
    box [0, 0, 0, 0] and keeps it). *)
Lemma spec_box_validity_counterexample :
  (exists out,
      process_inference_results keep_all keep_all_batched
        (Http [sample_flat_table]) [] 3 0.01 0.5 0.1 0.48
      = Ok [out]
      /\ ~ spec_box_validity out)
  /\ (exists out,
         process_inference_results keep_all keep_all_batched
           (Grpc sample_tensor_outside) [[1024; 1024; 3]%nat] 3 0.01 0.5 0.1
           0.48
         = Ok [out]
         /\ ~ spec_box_validity out).
Proof.
  split; (eexists; split; [vm_compute; reflexivity|]);
    unfold spec_box_validity; intro H; simpl in H;
    inversion H as [|d l Hd _]; subst;
    destruct Hd as [_ [Hlt _]]; vm_compute in Hlt; discriminate.
Qed.

(** ** One step of the loop over the chart boxes *)

Lemma setitem_middle {A : Type} (pre : list A) (x y : A) (post : list A) :
  setitem (pre ++ x :: post) (length pre) y = pre ++ y :: post.
Proof.
  induction pre as [|a pre IH]; simpl; [reflexivity | now rewrite IH].
Qed.

Lemma fold_merge_boxes_contains (ts : list Box) (b : Box) :
  contains (fold_left merge_boxes ts b) b
  /\ Forall (contains (fold_left merge_boxes ts b)) ts.
Proof.
  revert b. induction ts as [|t ts IH]; intro b; simpl.
  - split; [unfold contains; repeat split; apply Qle_refl | constructor].
  - destruct (IH (merge_boxes b t)) as [Hm Hall].
    assert (Hb : contains (merge_boxes b t) b)
      by (unfold contains, merge_boxes; simpl; repeat split; minmax_lra).
    assert (Ht : contains (merge_boxes b t) t)
      by (unfold contains, merge_boxes; simpl; repeat split; minmax_lra).
    unfold contains in *. split; [|constructor; [|exact Hall]];
      repeat split; lra.
Qed.









(** ** Charts without titles *)

Lemma take_rows_seq {A : Type} (pre suf : list A) :
  take_rows (pre ++ suf) (seq (length pre) (length suf)) = Ok suf.
Proof.
  revert pre. induction suf as [|x suf IH]; intro pre; [reflexivity|].
  cbn [length seq take_rows]. unfold getitem.
  rewrite nth_error_middle. cbn [bind].
  assert (E : pre ++ x :: suf = (pre ++ [x]) ++ suf)
    by (now rewrite <- app_assoc).
  assert (El : S (length pre) = length (pre ++ [x]))
    by (rewrite length_app; simpl; lia).
  rewrite E, El, IH. reflexivity.
Qed.

Lemma put_rows_seq {A : Type} (pre suf vals : list A) :
  length vals = length suf ->
  put_rows (pre ++ suf) (seq (length pre) (length suf)) vals
  = Ok (pre ++ vals).
Proof.
  revert pre vals. induction suf as [|x suf IH]; intros pre vals Hlen.
  - destruct vals; [|discriminate]. reflexivity.
  - destruct vals as [|v vals]; [discriminate|].
    cbn [length seq put_rows].
    assert (Hlt : (length pre <? length (pre ++ x :: suf))%nat = true).
    { apply Nat.ltb_lt. rewrite length_app. simpl. lia. }
    rewrite Hlt, setitem_middle.
    assert (E : pre ++ v :: suf = (pre ++ [v]) ++ suf)
      by (now rewrite <- app_assoc).
    assert (El : S (length pre) = length (pre ++ [v]))
      by (rewrite length_app; simpl; lia).
    rewrite E, El, IH by (simpl in Hlen; lia).
    now rewrite <- app_assoc.
Qed.

Lemma match_loop_no_title (charts : list Box) (idxs found no_found : list nat) :
  Forall (fun i => (i < length charts)%nat) idxs ->
  match_loop (mkState charts [] found no_found) idxs
  = Ok (mkState charts [] found (no_found ++ idxs)).
Proof.
  intro H. revert no_found.
  induction H as [|i idxs Hi _ IH]; intro no_found; simpl.
  - now rewrite app_nil_r.
  - unfold match_step. simpl.
    destruct (getitem_lt charts i Hi) as [c [Hc _]]. rewrite Hc.
    cbn [bind]. rewrite IH. now rewrite <- app_assoc.
Qed.

Lemma Qclip_unit (u v : Q) : u == v -> clip u 0 1 == Qmax 0 (Qmin 1 v).
Proof.
  intro E. unfold clip. rewrite E. minmax_lra.
Qed.

(** [expand_boxes] scales a box about its centre and clips it. *)
Lemma expand_box_spec (r_x r_y : Q) (b : Box) :
  spec_expansion r_x r_y b (expand_box r_x r_y b).
Proof.
  unfold spec_expansion, expand_box. cbv zeta. simpl.
  repeat split; apply Qclip_unit; field.
Qed.

Lemma np_mask_same_length {A B : Type} (a : list A) (b : list B)
  (m : list bool) :
  length a = length b -> length (np_mask a m) = length (np_mask b m).
Proof.
  revert b m. induction a as [|x a IH]; intros [|y b] m H;
    try discriminate; [reflexivity|].
  destruct m as [|[|] m]; simpl; auto.
Qed.

Lemma map2_mkDet_boxes (P : Box -> Box -> Prop) (f : Box -> Box)
  (bs : list Box) (cs : list Q) :
  length cs = length bs -> (forall b, P b (f b)) ->
  Forall2 (fun b d => P b (bbox d)) bs (map2 mkDet (map f bs) cs).
Proof.
  intros Hlen Hf. revert cs Hlen.
  induction bs as [|b bs IH]; intros [|c cs] Hlen; try discriminate;
    simpl; constructor; [apply Hf | apply IH; simpl in Hlen; lia].
Qed.

Lemma map2_mkDet_confs (bs : list Box) (cs : list Q) :
  length cs = length bs -> map confidence (map2 mkDet bs cs) = cs.
Proof.
  revert cs. induction bs as [|b bs IH]; intros [|c cs] Hlen;
    try discriminate; [reflexivity|].
  simpl. f_equal. apply IH. simpl in Hlen. lia.
Qed.

(** C10.  When the annotation set has a chart detection and the fusion
    returns no title box, [match_with_title] returns no match for every
    chart box, and [expand_chart_bboxes] returns one chart per fused chart
    box, in the order of the fusion: its box is the fused box expanded as
    the specification says, [spec_expansion], by the ratios [(1.1, 1.25)]
    about its centre and clipped to the unit square, and its confidence is
    the fused confidence.  The table and title lists returned are those
    received, so the title list is empty exactly when the one received
    is. *)
Theorem charts_without_titles (a : AnnotationSet) (pred_wbf : list Box)
  (confidences_wbf : list Q) (labels_wbf : list Z) :
  chart a <> [] ->
  fuse_annotations a = Ok (pred_wbf, confidences_wbf, labels_wbf) ->
  np_mask pred_wbf (map (Z.eqb 2) labels_wbf) = [] ->
  (forall chart_bbox, match_with_title chart_bbox [] 0.01 = Ok None)
  /\ exists out,
       expand_chart_bboxes a = Ok out
       /\ chart out
          = map2 mkDet
              (map (expand_box 1.1 1.25)
                 (np_mask pred_wbf (map (Z.eqb 1) labels_wbf)))
              (np_mask confidences_wbf (map (Z.eqb 1) labels_wbf))
       /\ Forall2 (fun b d => spec_expansion 1.1 1.25 b (bbox d))
            (np_mask pred_wbf (map (Z.eqb 1) labels_wbf)) (chart out)
       /\ map confidence (chart out)
          = np_mask confidences_wbf (map (Z.eqb 1) labels_wbf)
       /\ Forall (fun d => inside_box (bbox d)) (chart out)
       /\ table out = table a
       /\ title out = title a
       /\ (title out = [] <-> title a = []).
Proof.
  intros Hne Hfuse Hnot. split; [reflexivity|].
  destruct (expand_chart_bboxes_ok a)
    as [out [Hout [Htab [Htit [_ Hval]]]]].
  exists out. split; [exact Hout|].
  assert (Hchart : chart out
                   = map2 mkDet
                       (map (expand_box 1.1 1.25)
                          (np_mask pred_wbf (map (Z.eqb 1) labels_wbf)))
                       (np_mask confidences_wbf (map (Z.eqb 1) labels_wbf))).
  { unfold expand_chart_bboxes in Hout.
    destruct (length (chart a) =? 0)%nat eqn:E.
    { apply Nat.eqb_eq in E. apply length_zero_iff_nil in E. congruence. }
    rewrite Hfuse in Hout. cbv beta iota delta [bind] in Hout.
    rewrite Hnot in Hout.
    set (charts := np_mask pred_wbf (map (Z.eqb 1) labels_wbf)) in *.
    rewrite match_loop_no_title in Hout.
    2:{ apply Forall_forall. intros i Hi. apply in_seq in Hi. lia. }
    cbn [st_chart_bboxes st_found_title_idxs st_no_found_title_idxs
         take_rows put_rows expand_boxes map app] in Hout.
    pose proof (take_rows_seq [] charts) as Ht.
    cbn [app length] in Ht. rewrite Ht in Hout. clear Ht.
    pose proof (put_rows_seq [] charts (map (expand_box 1.1 1.25) charts))
      as Hp.
    cbn [app length] in Hp. unfold expand_boxes in Hout.
    rewrite Hp in Hout.
    2:{ now rewrite length_map. }
    injection Hout as <-. reflexivity. }
  assert (Hlen : length (np_mask confidences_wbf (map (Z.eqb 1) labels_wbf))
                 = length (np_mask pred_wbf (map (Z.eqb 1) labels_wbf))).
  { destruct (fuse_annotations_ok a) as [b0 [s0 [l0 [Hf0 [_ [Hs0 _]]]]]].
    rewrite Hfuse in Hf0. injection Hf0 as <- <- <-.
    now apply np_mask_same_length. }
  split; [exact Hchart|].
  split; [rewrite Hchart; apply map2_mkDet_boxes;
          [exact Hlen | intro b; apply expand_box_spec]|].
  split; [rewrite Hchart; apply map2_mkDet_confs;
          now rewrite length_map|].
  split; [|split; [exact Htab|split; [exact Htit|now rewrite Htit]]].
  eapply Forall_impl; [|exact (Hval Hne)].
  intros d Hd. now apply valid_box_inside.
Qed.

Lemma charts_without_titles_witness :
  exists c1 c2,
    expand_chart_bboxes sample_charts_flat_title
    = Ok (mkAnn [] [c1; c2] [mkDet (mkBox 0.5 0.125 0.5 0.25) 0.5])
    /\ (x1 (bbox c1) == 0.225 /\ y1 (bbox c1) == 0.21875
        /\ x2 (bbox c1) == 0.775 /\ y2 (bbox c1) == 0.53125
        /\ confidence c1 = 0.75)
    /\ (x1 (bbox c2) == 0 /\ y1 (bbox c2) == 0.71875
        /\ x2 (bbox c2) == 1 /\ y2 (bbox c2) == 1
        /\ confidence c2 = 0.5).
Proof.
  destruct (charts_without_titles sample_charts_flat_title
              [mkBox 0.25 0.25 0.75 0.5; mkBox 0 0.75 1 1] [0.75; 0.5]
              [1%Z; 1%Z])
    as [_ [out [Hout [_ [Hexp [Hconf [_ [Htable [Htitle _]]]]]]]]].
  - discriminate.
  - vm_compute. reflexivity.
  - reflexivity.
  - destruct out as [tables charts titles]. simpl in Hexp, Hconf, Htable, Htitle.
    subst tables titles.
    inversion Hexp as [|b1 c1 bs1 cs1 H1 Hexp1]; subst.
    inversion Hexp1 as [|b2 c2 bs2 cs2 H2 Hexp2]; subst.
    inversion Hexp2; subst.
    injection Hconf as Hc1 Hc2.
    exists c1, c2. split; [exact Hout|].
    destruct H1 as [A1 [A2 [A3 A4]]]. destruct H2 as [B1 [B2 [B3 B4]]].
    split; (split; [|split; [|split; [|split]]]);
      first [ assumption
            | rewrite A1; reflexivity | rewrite A2; reflexivity
            | rewrite A3; reflexivity | rewrite A4; reflexivity
            | rewrite B1; reflexivity | rewrite B2; reflexivity
            | rewrite B3; reflexivity | rewrite B4; reflexivity ].
Defined.

(** The scenario of the specification: a chart box under a title, without
    overlap.  The title is merged into the chart box, whose envelope
    [0.2, 0.05, 0.6, 0.4] is expanded by [(1.05, 1.1)], and the title list
    still holds the title. *)
Example chart_under_title :
  exists c,
    expand_chart_bboxes sample_no_table
    = Ok (mkAnn [] [c] [mkDet (mkBox 0.2 0.05 0.6 0.18) 0.8])
    /\ x1 (bbox c) == 0.19 /\ y1 (bbox c) == 0.0325
    /\ x2 (bbox c) == 0.61 /\ y2 (bbox c) == 0.4175
    /\ confidence c == 0.9.
Proof.
  eexists. split; [vm_compute; reflexivity|].
  repeat split; reflexivity.
Qed.

(** * Further properties *)

(** ** Batching *)

Lemma range_from_concat {A : Type} (lst : list A) (step : nat) :
  (0 < step)%nat ->
  forall fuel start,
    (length lst <= fuel + start)%nat ->
    concat (map (fun i => slice lst i (i + step))
              (range_from fuel start (length lst) step))
    = skipn start lst.
Proof.
  intros Hstep. induction fuel as [|fuel IH]; intros start Hfuel.
  - simpl. symmetry. apply skipn_all2. lia.
  - cbn [range_from].
    destruct (start <? length lst)%nat eqn:E.
    + cbn [map concat]. rewrite IH by lia. unfold slice.
      replace (start + step - start)%nat with step by lia.
      replace (start + step)%nat with (step + start)%nat by lia.
      rewrite <- skipn_skipn. apply firstn_skipn.
    + apply Nat.ltb_ge in E. simpl. symmetry. now apply skipn_all2.
Qed.

Lemma range_from_chunks {A : Type} (lst : list A) (step : nat) :
  (0 < step)%nat ->
  forall fuel start,
    Forall (fun c => (1 <= length c <= step)%nat)
      (map (fun i => slice lst i (i + step))
         (range_from fuel start (length lst) step))
    /\ Forall (fun c => length c = step)
         (removelast (map (fun i => slice lst i (i + step))
                        (range_from fuel start (length lst) step))).
Proof.
  intros Hstep. induction fuel as [|fuel IH]; intro start.
  - simpl. split; constructor.
  - cbn [range_from].
    destruct (start <? length lst)%nat eqn:E; [|simpl; split; constructor].
    apply Nat.ltb_lt in E. cbn [map]. destruct (IH (start + step)%nat) as [H1 H2].
    assert (Hlen : length (slice lst start (start + step))
                   = Nat.min step (length lst - start)).
    { unfold slice. rewrite length_firstn, length_skipn. lia. }
    split.
    + constructor; [lia | exact H1].
    + destruct fuel as [|fuel']; [simpl; constructor|].
      cbn [range_from] in *.
      destruct (start + step <? length lst)%nat eqn:E2;
        [|simpl; constructor].
      apply Nat.ltb_lt in E2. cbn [map] in *.
      change (removelast (?x :: ?y :: ?l)) with (x :: removelast (y :: l)).
      constructor; [lia | exact H2].
Qed.

Lemma range_from_length (n step : nat) :
  (0 < step)%nat ->
  forall fuel start,
    (n <= fuel + start)%nat ->
    length (range_from fuel start n step)
    = ((n - start + step - 1) / step)%nat.
Proof.
  intros Hstep. induction fuel as [|fuel IH]; intros start Hfuel.
  - simpl. symmetry. apply Nat.div_small. lia.
  - cbn [range_from]. destruct (start <? n)%nat eqn:E.
    + apply Nat.ltb_lt in E. cbn [length]. rewrite IH by lia.
      destruct (Nat.le_gt_cases (start + step) n) as [Hle|Hgt].
      * replace (n - start + step - 1)%nat
          with ((n - (start + step) + step - 1) + 1 * step)%nat by lia.
        rewrite Nat.div_add by lia. lia.
      * replace (n - (start + step) + step - 1)%nat with (step - 1)%nat
          by lia.
        rewrite (Nat.div_small (step - 1) step) by lia.
        replace (n - start + step - 1)%nat
          with ((n - start - 1) + 1 * step)%nat by lia.
        rewrite Nat.div_add by lia.
        rewrite (Nat.div_small (n - start - 1) step) by lia. reflexivity.
    + apply Nat.ltb_ge in E. simpl. symmetry. apply Nat.div_small. lia.
Qed.

(** X1.  [chunkify] with a positive chunk size cuts the list into
    consecutive chunks: their concatenation is the list, no chunk is empty
    or longer than the chunk size, every chunk but the last has exactly the
    chunk size, and there are [ceil(len / chunk_size)] of them.  With the
    chunk size 0 it raises [ValueError]; with a negative one it yields
    nothing, whatever the list. *)
Theorem chunkify_chunks {A : Type} (lst : list A) (chunk_size : Z) :
  ((0 < chunk_size)%Z ->
   exists chunks,
     chunkify lst chunk_size = Done chunks
     /\ concat chunks = lst
     /\ Forall (fun c => (1 <= length c <= Z.to_nat chunk_size)%nat) chunks
     /\ Forall (fun c => length c = Z.to_nat chunk_size) (removelast chunks)
     /\ length chunks
        = ((length lst + Z.to_nat chunk_size - 1) / Z.to_nat chunk_size)%nat)
  /\ (chunk_size = 0%Z -> chunkify lst chunk_size = Fail ZeroStep)
  /\ ((chunk_size < 0)%Z -> chunkify lst chunk_size = Done []).
Proof.
  split; [|split].
  - intro Hpos. unfold chunkify.
    assert (E0 : (chunk_size =? 0)%Z = false) by (apply Z.eqb_neq; lia).
    assert (E1 : (chunk_size <? 0)%Z = false) by (apply Z.ltb_ge; lia).
    rewrite E0, E1. cbv zeta.
    assert (Hstep : (0 < Z.to_nat chunk_size)%nat) by lia.
    eexists. split; [reflexivity|].
    split; [|split; [|split]].
    + rewrite (range_from_concat lst _ Hstep) by lia. reflexivity.
    + apply (range_from_chunks lst _ Hstep).
    + apply (range_from_chunks lst _ Hstep).
    + rewrite length_map, (range_from_length _ _ Hstep) by lia.
      now rewrite Nat.sub_0_r.
  - intros ->. reflexivity.
  - intro Hneg. unfold chunkify.
    assert (E0 : (chunk_size =? 0)%Z = false) by (apply Z.eqb_neq; lia).
    assert (E1 : (chunk_size <? 0)%Z = true) by (apply Z.ltb_lt; lia).
    now rewrite E0, E1.
Qed.

Lemma chunkify_chunks_witness :
  (exists chunks,
      chunkify [1; 2; 3; 4; 5; 6; 7]%nat 3 = Done chunks
      /\ concat chunks = [1; 2; 3; 4; 5; 6; 7]%nat
      /\ length chunks = 3%nat)
  /\ chunkify [1; 2; 3]%nat 0 = Fail ZeroStep
  /\ chunkify [1; 2; 3]%nat (-2) = Done [].
Proof.
  split; [|split].
  - destruct (proj1 (chunkify_chunks [1; 2; 3; 4; 5; 6; 7]%nat 3))
      as [chunks [H1 [H2 [_ [_ H3]]]]]; [lia|].
    exists chunks. split; [exact H1|]. split; [exact H2 | exact H3].
  - apply (proj1 (proj2 (chunkify_chunks [1; 2; 3]%nat 0))). reflexivity.
  - apply (proj2 (proj2 (chunkify_chunks [1; 2; 3]%nat (-2)))). lia.
Defined.

(** ** The HTTP response *)

Lemma parse_bboxes_known (obj_type : string) (label : Label)
  (bboxes : list json_bbox) (acc : AnnotationSet) :
  label_of_key obj_type = Done label ->
  Forall (fun b => exists d, bbox_entry b d) bboxes ->
  exists ds,
    Forall2 bbox_entry bboxes ds
    /\ parse_bboxes obj_type acc bboxes = Done (extend_at label ds acc).
Proof.
  intros Hl Hall. revert acc.
  induction Hall as [|b bboxes [d Hd] _ IH]; intro acc.
  - exists []. split; [constructor|]. simpl.
    destruct label, acc; simpl; now rewrite app_nil_r.
  - destruct d as [[xa ya xb yb] cf].
    destruct (IH (append_at label (mkDet (mkBox xa ya xb yb) cf) acc))
      as [ds [Hds Hparse]].
    exists (mkDet (mkBox xa ya xb yb) cf :: ds).
    split; [constructor; assumption|].
    cbn [parse_bboxes]. unfold parse_bbox.
    destruct Hd as [H1 [H2 [H3 [H4 H5]]]]. simpl in H1, H2, H3, H4, H5.
    rewrite H1, H2, H3, H4, H5, Hl. cbn [client_bind].
    rewrite Hparse.
    destruct label; simpl; now rewrite <- app_assoc.
Qed.

Lemma boxes_of_cons (key k : string) (bbs : list json_bbox)
  (rest : list (string * list json_bbox)) :
  boxes_of key ((k, bbs) :: rest)
  = (if String.eqb k key then bbs else []) ++ boxes_of key rest.
Proof. reflexivity. Qed.

Lemma parse_items_known (bounding_boxes : list (string * list json_bbox))
  (acc : AnnotationSet) :
  Forall (fun kb =>
            (exists label, label_of_key (fst kb) = Done label)
            /\ Forall (fun b => exists d, bbox_entry b d) (snd kb))
    bounding_boxes ->
  exists ts cs us,
    parse_items acc bounding_boxes
    = Done (mkAnn (table acc ++ ts) (chart acc ++ cs) (title acc ++ us))
    /\ Forall2 bbox_entry (boxes_of "table" bounding_boxes) ts
    /\ Forall2 bbox_entry (boxes_of "chart" bounding_boxes) cs
    /\ Forall2 bbox_entry (boxes_of "title" bounding_boxes) us.
Proof.
  intro Hall. revert acc.
  induction Hall as [|[k bbs] rest [[label Hl] Hb] _ IH]; intro acc.
  - exists [], [], []. simpl. rewrite !app_nil_r.
    destruct acc; repeat split; constructor.
  - simpl in Hl, Hb.
    destruct (parse_bboxes_known k label bbs acc Hl Hb) as [ds [Hds Hp]].
    destruct (IH (extend_at label ds acc)) as [ts [cs [us [Hr [Ht [Hc Hu]]]]]].
    cbn [parse_items]. rewrite Hp. cbn [client_bind]. rewrite Hr.
    rewrite !boxes_of_cons.
    unfold label_of_key in Hl.
    destruct (String.eqb k "table") eqn:E1.
    { apply String.eqb_eq in E1. subst k. injection Hl as <-.
      exists (ds ++ ts), cs, us. simpl. rewrite <- app_assoc.
      repeat split; try assumption. now apply Forall2_app. }
    destruct (String.eqb k "chart") eqn:E2.
    { apply String.eqb_eq in E2. subst k. injection Hl as <-.
      exists ts, (ds ++ cs), us. simpl. rewrite <- app_assoc.
      repeat split; try assumption. now apply Forall2_app. }
    destruct (String.eqb k "title") eqn:E3; [|discriminate].
    apply String.eqb_eq in E3. subst k. injection Hl as <-.
    exists ts, cs, (ds ++ us). simpl. rewrite <- app_assoc.
    repeat split; try assumption. now apply Forall2_app.
Qed.

(** X2.  When every object type of a ["bounding_boxes"] dictionary is
    ["table"], ["chart"] or ["title"] and every box has its five keys, the
    HTTP parser returns for the image the boxes listed under each type, in
    their order, as entries [x_min, y_min, x_max, y_max, confidence]. *)
Theorem parse_detection_boxes
  (bounding_boxes : list (string * list json_bbox)) :
  Forall (fun kb =>
            (exists label, label_of_key (fst kb) = Done label)
            /\ Forall (fun b => exists d, bbox_entry b d) (snd kb))
    bounding_boxes ->
  exists out,
    parse_detection (Some bounding_boxes) = Done out
    /\ Forall2 bbox_entry (boxes_of "table" bounding_boxes) (table out)
    /\ Forall2 bbox_entry (boxes_of "chart" bounding_boxes) (chart out)
    /\ Forall2 bbox_entry (boxes_of "title" bounding_boxes) (title out).
Proof.
  intro H.
  destruct (parse_items_known bounding_boxes empty_annotation H)
    as [ts [cs [us [Hp [Ht [Hc Hu]]]]]].
  eexists. split; [exact Hp|]. simpl. auto.
Qed.

Lemma parse_detection_boxes_witness :
  exists out,
    parse_detection (Some sample_bounding_boxes) = Done out
    /\ Forall2 bbox_entry (boxes_of "table" sample_bounding_boxes) (table out)
    /\ Forall2 bbox_entry (boxes_of "chart" sample_bounding_boxes) (chart out)
    /\ Forall2 bbox_entry (boxes_of "title" sample_bounding_boxes) (title out).
Proof.
  apply (parse_detection_boxes sample_bounding_boxes).
  repeat constructor.
  - exists Table. reflexivity.
  - exists (mkDet (mkBox 0.1 0.3 0.5 0.5) 0.9). repeat split.
  - exists Title. reflexivity.
  - exists (mkDet (mkBox 0.1 0.2 0.5 0.25) 0.7). repeat split.
Defined.

Lemma parse_detections_Forall2 (batch_results : list json_detection)
  (outs : list AnnotationSet) :
  parse_detections batch_results = Done outs
  <-> Forall2 (fun d o => parse_detection d = Done o) batch_results outs.
Proof.
  revert outs. induction batch_results as [|d rest IH]; intro outs; simpl.
  - split; intro H.
    + injection H as <-. constructor.
    + inversion H. reflexivity.
  - split; intro H.
    + destruct (parse_detection d) as [o|e] eqn:Ed; [|discriminate].
      simpl in H.
      destruct (parse_detections rest) as [os|e] eqn:Er; [|discriminate].
      simpl in H. injection H as <-. constructor; [exact Ed|].
      apply IH. reflexivity.
    + inversion H as [|? o ? os Hd Hr]; subst.
      rewrite Hd. simpl. apply IH in Hr. rewrite Hr. reflexivity.
Qed.

(** X3.  [parse_output] for HTTP is image by image and all or nothing: it
    returns a list exactly when every entry of ["data"] parses, and the
    list then holds the dictionary of each entry at its position (a
    response without ["data"] gives the empty list); an entry without
    ["bounding_boxes"] makes the whole call raise [AttributeError].  For
    gRPC the response is returned as it is, and any other protocol name
    raises [ValueError]. *)
Theorem parse_output_protocols (data : option (list json_detection))
  (response : model_response) (protocol : string)
  (outs : list AnnotationSet) :
  (parse_output (Json data) "http" = Done (Parsed outs)
   <-> Forall2 (fun d o => parse_detection d = Done o)
         (match data with Some l => l | None => [] end) outs)
  /\ (forall pre post,
         data = Some (pre ++ None :: post) ->
         Forall (fun d => exists o, parse_detection d = Done o) pre ->
         parse_output (Json data) "http" = Fail AttributeError)
  /\ parse_output response "grpc" = Done (Unparsed response)
  /\ (protocol <> "grpc"%string -> protocol <> "http"%string ->
      parse_output response protocol = Fail InvalidProtocol).
Proof.
  split; [|split; [|split]].
  - unfold parse_output. simpl.
    rewrite <- parse_detections_Forall2.
    destruct (parse_detections _) as [os|e]; simpl; split; intro H;
      try discriminate; congruence.
  - intros pre post -> Hpre. unfold parse_output. simpl.
    assert (H : parse_detections (pre ++ None :: post) = Fail AttributeError).
    { induction Hpre as [|d pre [o Ho] _ IH]; [reflexivity|].
      simpl. rewrite Ho. simpl. now rewrite IH. }
    now rewrite H.
  - reflexivity.
  - intros Hg Hh. unfold parse_output.
    apply String.eqb_neq in Hg, Hh. now rewrite Hg, Hh.
Qed.

Lemma parse_output_protocols_witness :
  (exists out,
      parse_output (Json (Some [Some sample_bounding_boxes])) "http"
      = Done (Parsed [out]))
  /\ parse_output
       (Json (Some [Some sample_bounding_boxes; None; Some []])) "http"
     = Fail AttributeError
  /\ parse_output (Json None) "rest" = Fail InvalidProtocol.
Proof.
  split; [|split].
  - eexists.
    apply (proj1 (parse_output_protocols (Some [Some sample_bounding_boxes])
                    (Json None) "http" _)).
    constructor; [vm_compute; reflexivity | constructor].
  - apply (proj1 (proj2 (parse_output_protocols
                           (Some [Some sample_bounding_boxes; None; Some []])
                           (Json None) "http" []))
             [Some sample_bounding_boxes] [Some []]).
    + reflexivity.
    + constructor; [|constructor]. eexists. vm_compute. reflexivity.
  - apply (proj2 (proj2 (proj2 (parse_output_protocols None (Json None)
                                  "rest" [])))); discriminate.
Defined.

(** X4.  An object type other than ["table"], ["chart"] and ["title"] is
    an error only if it lists a box: with an empty list it is passed over,
    with a box the parser raises [KeyError] for the type (after reading the
    five numbers of the box). *)
Theorem parse_items_unknown_type (obj_type : string)
  (rest : list (string * list json_bbox)) (acc : AnnotationSet) :
  obj_type <> "table"%string -> obj_type <> "chart"%string ->
  obj_type <> "title"%string ->
  parse_items acc ((obj_type, []) :: rest) = parse_items acc rest
  /\ forall b bboxes d,
       bbox_entry b d ->
       parse_items acc ((obj_type, b :: bboxes) :: rest)
       = Fail (KeyError obj_type).
Proof.
  intros Ht Hc Hu. split; [reflexivity|].
  intros b bboxes d [H1 [H2 [H3 [H4 H5]]]].
  cbn [parse_items parse_bboxes]. unfold parse_bbox.
  rewrite H1, H2, H3, H4, H5. cbn [client_bind].
  unfold label_of_key.
  apply String.eqb_neq in Ht, Hc, Hu. rewrite Ht, Hc, Hu. reflexivity.
Qed.

Lemma parse_items_unknown_type_witness :
  parse_items empty_annotation (("figure"%string, []) :: sample_bounding_boxes)
  = parse_items empty_annotation sample_bounding_boxes
  /\ parse_items empty_annotation
       [("figure"%string,
         [[("x_min"%string, 0.1); ("y_min"%string, 0.3);
           ("x_max"%string, 0.5); ("y_max"%string, 0.5);
           ("confidence"%string, 0.9)]])]
     = Fail (KeyError "figure").
Proof.
  destruct (parse_items_unknown_type "figure" sample_bounding_boxes
              empty_annotation) as [H1 _]; try discriminate.
  destruct (parse_items_unknown_type "figure" [] empty_annotation)
    as [_ H2]; try discriminate.
  split; [exact H1|].
  apply (H2 _ [] (mkDet (mkBox 0.1 0.3 0.5 0.5) 0.9)). repeat split.
Defined.

(** ** Geometry *)

Lemma Qmult_le_both (a b c d : Q) :
  0 <= a -> a <= c -> 0 <= b -> b <= d -> a * b <= c * d.
Proof.
  intros Ha Hac Hb Hbd.
  apply Qle_trans with (c * b).
  - apply Qmult_le_compat_r; assumption.
  - rewrite (Qmult_comm c b), (Qmult_comm c d).
    apply Qmult_le_compat_r; [assumption | lra].
Qed.

(** The parts of [bb_iou]: the width and the height of the overlap. *)
Lemma overlap_bounds (a b : Box) :
  x1 a < x2 a -> x1 b < x2 b ->
  0 <= Qmax (Qmin (x2 a) (x2 b) - Qmax (x1 a) (x1 b)) 0
  /\ Qmax (Qmin (x2 a) (x2 b) - Qmax (x1 a) (x1 b)) 0 <= x2 a - x1 a
  /\ Qmax (Qmin (x2 a) (x2 b) - Qmax (x1 a) (x1 b)) 0 <= x2 b - x1 b.
Proof.
  intros Ha Hb. repeat split; minmax_lra.
Qed.

Lemma overlap_bounds_y (a b : Box) :
  y1 a < y2 a -> y1 b < y2 b ->
  0 <= Qmax (Qmin (y2 a) (y2 b) - Qmax (y1 a) (y1 b)) 0
  /\ Qmax (Qmin (y2 a) (y2 b) - Qmax (y1 a) (y1 b)) 0 <= y2 a - y1 a
  /\ Qmax (Qmin (y2 a) (y2 b) - Qmax (y1 a) (y1 b)) 0 <= y2 b - y1 b.
Proof.
  intros Ha Hb. repeat split; minmax_lra.
Qed.

Lemma bb_iou_unit (a b : Box) :
  valid_box a -> valid_box b -> 0 <= bb_iou a b <= 1.
Proof.
  intros [A1 [A2 [A3 [A4 [A5 A6]]]]] [B1 [B2 [B3 [B4 [B5 B6]]]]].
  unfold bb_iou, area. cbv zeta.
  destruct (overlap_bounds a b A2 B2) as [W0 [Wa Wb]].
  destruct (overlap_bounds_y a b A5 B5) as [H0 [Ha Hb]].
  set (iw := Qmax (Qmin (x2 a) (x2 b) - Qmax (x1 a) (x1 b)) 0) in *.
  set (ih := Qmax (Qmin (y2 a) (y2 b) - Qmax (y1 a) (y1 b)) 0) in *.
  clearbody iw ih.
  assert (Hi0 : 0 <= iw * ih) by (apply Qmult_le_0_compat; assumption).
  assert (Hia : iw * ih <= (x2 a - x1 a) * (y2 a - y1 a))
    by (apply Qmult_le_both; assumption).
  assert (Hib : iw * ih <= (x2 b - x1 b) * (y2 b - y1 b))
    by (apply Qmult_le_both; assumption).
  assert (HA : 0 < (x2 a - x1 a) * (y2 a - y1 a)).
  { apply Qmult_lt_0_compat; lra. }
  set (I := iw * ih) in *. set (A := (x2 a - x1 a) * (y2 a - y1 a)) in *.
  set (B := (x2 b - x1 b) * (y2 b - y1 b)) in *. clearbody I A B.
  assert (HD : 0 < A + B - I) by lra.
  split.
  - apply Qle_shift_div_l; [exact HD | lra].
  - apply Qle_shift_div_r; [exact HD | lra].
Qed.

Lemma bb_iou_sym (a b : Box) : bb_iou a b == bb_iou b a.
Proof.
  unfold bb_iou, area. cbv zeta.
  rewrite (Q.min_comm (x2 a) (x2 b)), (Q.max_comm (x1 a) (x1 b)).
  rewrite (Q.min_comm (y2 a) (y2 b)), (Q.max_comm (y1 a) (y1 b)).
  set (I := Qmax _ 0 * Qmax _ 0).
  assert (E : (x2 a - x1 a) * (y2 a - y1 a) + (x2 b - x1 b) * (y2 b - y1 b)
              - I
              == (x2 b - x1 b) * (y2 b - y1 b)
                 + (x2 a - x1 a) * (y2 a - y1 a) - I) by ring.
  now rewrite E.
Qed.

Lemma bb_iou_self (a : Box) : valid_box a -> bb_iou a a == 1.
Proof.
  intros [A1 [A2 [A3 [A4 [A5 A6]]]]].
  unfold bb_iou, area. cbv zeta.
  rewrite !Q.min_id, !Q.max_id.
  rewrite (Q.max_l (x2 a - x1 a) 0) by lra.
  rewrite (Q.max_l (y2 a - y1 a) 0) by lra.
  assert (HA : 0 < (x2 a - x1 a) * (y2 a - y1 a)).
  { apply Qmult_lt_0_compat; lra. }
  set (A := (x2 a - x1 a) * (y2 a - y1 a)) in *. clearbody A.
  field. lra.
Qed.

Lemma bb_iou_disjoint (a b : Box) : disjoint a b -> bb_iou a b == 0.
Proof.
  intro H. unfold bb_iou. cbv zeta.
  assert (E : Qmax (Qmin (x2 a) (x2 b) - Qmax (x1 a) (x1 b)) 0
              * Qmax (Qmin (y2 a) (y2 b) - Qmax (y1 a) (y1 b)) 0 == 0).
  { destruct H as [H|[H|[H|H]]].
    - assert (E : Qmax (Qmin (x2 a) (x2 b) - Qmax (x1 a) (x1 b)) 0 == 0)
        by minmax_lra.
      rewrite E. ring.
    - assert (E : Qmax (Qmin (x2 a) (x2 b) - Qmax (x1 a) (x1 b)) 0 == 0)
        by minmax_lra.
      rewrite E. ring.
    - assert (E : Qmax (Qmin (y2 a) (y2 b) - Qmax (y1 a) (y1 b)) 0 == 0)
        by minmax_lra.
      rewrite E. ring.
    - assert (E : Qmax (Qmin (y2 a) (y2 b) - Qmax (y1 a) (y1 b)) 0 == 0)
        by minmax_lra.
      rewrite E. ring. }
  rewrite E. unfold Qdiv. ring.
Qed.

Lemma iou_defined_sym (a b : Box) : iou_defined a b -> iou_defined b a.
Proof.
  unfold iou_defined, area. intros H E. apply H.
  etransitivity; [|exact E].
  rewrite (Q.min_comm (x2 a) (x2 b)), (Q.max_comm (x1 a) (x1 b)).
  rewrite (Q.min_comm (y2 a) (y2 b)), (Q.max_comm (y1 a) (y1 b)). ring.
Qed.

Lemma valid_box_iou_defined (a b : Box) :
  valid_box a -> valid_box b -> iou_defined a b.
Proof.
  intros [A1 [A2 [A3 [A4 [A5 A6]]]]] [B1 [B2 [B3 [B4 [B5 B6]]]]].
  unfold iou_defined, area.
  destruct (overlap_bounds a b A2 B2) as [W0 [Wa Wb]].
  destruct (overlap_bounds_y a b A5 B5) as [H0 [Ha Hb]].
  set (iw := Qmax (Qmin (x2 a) (x2 b) - Qmax (x1 a) (x1 b)) 0) in *.
  set (ih := Qmax (Qmin (y2 a) (y2 b) - Qmax (y1 a) (y1 b)) 0) in *.
  clearbody iw ih.
  assert (Hib : iw * ih <= (x2 b - x1 b) * (y2 b - y1 b))
    by (apply Qmult_le_both; assumption).
  assert (HA : 0 < (x2 a - x1 a) * (y2 a - y1 a)).
  { apply Qmult_lt_0_compat; lra. }
  intro E. lra.
Qed.

Ltac closed_box :=
  unfold valid_box, inside_box, unit_coords, contains, disjoint; simpl;
  repeat split; vm_compute; (reflexivity || discriminate).

(** X5.  Where the IoU of [bb_iou_array] is a number (the denominator of
    its quotient is not zero), it is symmetric, and it is 0 for two boxes
    that do not overlap.  For valid boxes it is a number, it lies in
    [0, 1], and the IoU of a box with itself is 1. *)
Theorem bb_iou_properties (a b : Box) :
  (iou_defined a b -> iou_defined b a /\ bb_iou a b == bb_iou b a)
  /\ (iou_defined a b -> disjoint a b -> bb_iou a b == 0)
  /\ (valid_box a -> valid_box b ->
      iou_defined a b /\ 0 <= bb_iou a b <= 1)
  /\ (valid_box a -> iou_defined a a /\ bb_iou a a == 1).
Proof.
  split; [|split; [|split]].
  - intro H. split; [now apply iou_defined_sym | apply bb_iou_sym].
  - intros _. apply bb_iou_disjoint.
  - intros Ha Hb. split; [now apply valid_box_iou_defined|].
    now apply bb_iou_unit.
  - intro Ha. split; [now apply valid_box_iou_defined|].
    now apply bb_iou_self.
Qed.

Lemma bb_iou_properties_witness :
  (bb_iou (mkBox 0.1 0.1 0.5 0.5) (mkBox 0.3 0.3 0.9 0.9)
   == bb_iou (mkBox 0.3 0.3 0.9 0.9) (mkBox 0.1 0.1 0.5 0.5))
  /\ bb_iou (mkBox 0.1 0.1 0.4 0.4) (mkBox 0.6 0.6 0.9 0.9) == 0
  /\ 0 <= bb_iou (mkBox 0.1 0.1 0.5 0.5) (mkBox 0.3 0.3 0.9 0.9) <= 1
  /\ bb_iou (mkBox 0.1 0.1 0.5 0.5) (mkBox 0.1 0.1 0.5 0.5) == 1.
Proof.
  split; [|split; [|split]].
  - apply (proj1 (bb_iou_properties (mkBox 0.1 0.1 0.5 0.5)
                    (mkBox 0.3 0.3 0.9 0.9))).
    vm_compute. discriminate.
  - apply (proj1 (proj2 (bb_iou_properties (mkBox 0.1 0.1 0.4 0.4)
                           (mkBox 0.6 0.6 0.9 0.9)))).
    + vm_compute. discriminate.
    + left. vm_compute. discriminate.
  - apply (proj1 (proj2 (proj2 (bb_iou_properties (mkBox 0.1 0.1 0.5 0.5)
                                  (mkBox 0.3 0.3 0.9 0.9)))));
      closed_box.
  - apply (proj2 (proj2 (proj2 (bb_iou_properties (mkBox 0.1 0.1 0.5 0.5)
                                  (mkBox 0.1 0.1 0.5 0.5)))));
      closed_box.
Defined.

(** X6.  [merge_boxes] returns the least box that contains its two
    arguments: it contains both, and every box that contains both contains
    it.  Merging a list of boxes into a box one after the other, as
    [match_with_title] does with the matched titles, gives a box that
    contains the first box and every box of the list. *)
Theorem merge_boxes_least (a b : Box) (ts : list Box) :
  contains (merge_boxes a b) a
  /\ contains (merge_boxes a b) b
  /\ (forall c, contains c a -> contains c b -> contains c (merge_boxes a b))
  /\ contains (fold_left merge_boxes ts a) a
  /\ Forall (contains (fold_left merge_boxes ts a)) ts.
Proof.
  split; [|split; [|split]].
  - unfold contains, merge_boxes; simpl; repeat split; minmax_lra.
  - unfold contains, merge_boxes; simpl; repeat split; minmax_lra.
  - unfold contains, merge_boxes; simpl.
    intros c [C1 [C2 [C3 C4]]] [D1 [D2 [D3 D4]]]. repeat split; minmax_lra.
  - apply fold_merge_boxes_contains.
Qed.

(** X7.  [expand_boxes] with ratios of at least 1 on a box inside the
    unit square returns a box inside the unit square that contains it.
    When the expanded box needs no clipping, its centre is the centre of
    the box and its width and height are those of the box times the
    ratios. *)
Theorem expand_box_contains (r_x r_y : Q) (b : Box) :
  (1 <= r_x -> 1 <= r_y -> inside_box b ->
   inside_box (expand_box r_x r_y b) /\ contains (expand_box r_x r_y b) b)
  /\ (0 <= x1 b - (x2 b - x1 b) / 2 * (r_x - 1) ->
      x2 b + (x2 b - x1 b) / 2 * (r_x - 1) <= 1 ->
      0 <= y1 b - (y2 b - y1 b) / 2 * (r_y - 1) ->
      y2 b + (y2 b - y1 b) / 2 * (r_y - 1) <= 1 ->
      1 <= r_x -> 1 <= r_y -> inside_box b ->
      x1 (expand_box r_x r_y b) + x2 (expand_box r_x r_y b) == x1 b + x2 b
      /\ y1 (expand_box r_x r_y b) + y2 (expand_box r_x r_y b)
         == y1 b + y2 b
      /\ x2 (expand_box r_x r_y b) - x1 (expand_box r_x r_y b)
         == r_x * (x2 b - x1 b)
      /\ y2 (expand_box r_x r_y b) - y1 (expand_box r_x r_y b)
         == r_y * (y2 b - y1 b)).
Proof.
  assert (Hhalf : forall v, 0 <= v -> 0 <= v / 2).
  { intros v Hv. unfold Qdiv. apply Qmult_le_0_compat; [exact Hv|].
    vm_compute. discriminate. }
  split.
  - intros Hx Hy [B1 [B2 [B3 [B4 [B5 B6]]]]].
    unfold expand_box. cbv zeta.
    assert (Hdw : 0 <= (x2 b - x1 b) / 2 * (r_x - 1)).
    { apply Qmult_le_0_compat; [apply Hhalf|]; lra. }
    assert (Hdh : 0 <= (y2 b - y1 b) / 2 * (r_y - 1)).
    { apply Qmult_le_0_compat; [apply Hhalf|]; lra. }
    set (dw := (x2 b - x1 b) / 2 * (r_x - 1)) in *.
    set (dh := (y2 b - y1 b) / 2 * (r_y - 1)) in *.
    clearbody dw dh.
    unfold inside_box, contains, clip; simpl.
    repeat split; minmax_lra.
  - intros C1 C2 C3 C4 Hx Hy [B1 [B2 [B3 [B4 [B5 B6]]]]].
    unfold expand_box. cbv zeta.
    assert (Hdw : 0 <= (x2 b - x1 b) / 2 * (r_x - 1)).
    { apply Qmult_le_0_compat; [apply Hhalf|]; lra. }
    assert (Hdh : 0 <= (y2 b - y1 b) / 2 * (r_y - 1)).
    { apply Qmult_le_0_compat; [apply Hhalf|]; lra. }
    assert (Ew : r_x * (x2 b - x1 b)
                 == (x2 b - x1 b) + 2 * ((x2 b - x1 b) / 2 * (r_x - 1)))
      by field.
    assert (Eh : r_y * (y2 b - y1 b)
                 == (y2 b - y1 b) + 2 * ((y2 b - y1 b) / 2 * (r_y - 1)))
      by field.
    rewrite Ew, Eh.
    set (dw := (x2 b - x1 b) / 2 * (r_x - 1)) in *.
    set (dh := (y2 b - y1 b) / 2 * (r_y - 1)) in *.
    clearbody dw dh.
    unfold clip; simpl.
    repeat split; minmax_lra.
Qed.

Lemma expand_box_contains_witness :
  (inside_box (expand_box 1.1 1.25 (mkBox 0.05 0.2 0.6 0.4))
   /\ contains (expand_box 1.1 1.25 (mkBox 0.05 0.2 0.6 0.4))
        (mkBox 0.05 0.2 0.6 0.4))
  /\ x2 (expand_box 1.05 1.1 (mkBox 0.2 0.2 0.6 0.4))
     - x1 (expand_box 1.05 1.1 (mkBox 0.2 0.2 0.6 0.4))
     == 1.05 * (0.6 - 0.2).
Proof.
  split.
  - apply (proj1 (expand_box_contains 1.1 1.25 (mkBox 0.05 0.2 0.6 0.4)));
      closed_box.
  - apply (proj2 (expand_box_contains 1.05 1.1 (mkBox 0.2 0.2 0.6 0.4)));
      closed_box.
Defined.

Lemma merge_boxes_least_witness :
  contains (merge_boxes (mkBox 0.2 0.2 0.6 0.4) (mkBox 0.2 0.05 0.6 0.18))
    (mkBox 0.2 0.2 0.6 0.4)
  /\ contains (mkBox 0.1 0 0.7 0.5)
       (merge_boxes (mkBox 0.2 0.2 0.6 0.4) (mkBox 0.2 0.05 0.6 0.18)).
Proof.
  destruct (merge_boxes_least (mkBox 0.2 0.2 0.6 0.4)
              (mkBox 0.2 0.05 0.6 0.18) []) as [H1 [_ [H3 _]]].
  split; [exact H1|]. apply H3; closed_box.
Defined.

(** ** The normalizer: the rows kept *)

Lemma argmax_from_spec (l pre : list Q) (best : Q) (besti : nat) :
  nth_error pre besti = Some best ->
  (forall j u, nth_error pre j = Some u -> (j < besti)%nat -> u < best) ->
  (forall u, In u pre -> u <= best) ->
  exists v,
    nth_error (pre ++ l) (argmax_from best besti (length pre) l) = Some v
    /\ (forall j u, nth_error (pre ++ l) j = Some u ->
                    (j < argmax_from best besti (length pre) l)%nat -> u < v)
    /\ (forall u, In u (pre ++ l) -> u <= v).
Proof.
  revert pre best besti.
  induction l as [|x l IH]; intros pre best besti Hb Hlt Hle.
  - simpl. rewrite app_nil_r. eauto.
  - assert (E : pre ++ x :: l = (pre ++ [x]) ++ l)
      by (now rewrite <- app_assoc).
    assert (El : S (length pre) = length (pre ++ [x]))
      by (rewrite length_app; simpl; lia).
    assert (Hbi : (besti < length pre)%nat)
      by (apply nth_error_Some; congruence).
    cbn [argmax_from]. rewrite E, El.
    destruct (Qlt_bool best x) eqn:Ex.
    + apply Qlt_bool_iff in Ex. apply IH.
      * apply nth_error_middle.
      * intros j u Hj Hjlt. rewrite nth_error_app1 in Hj by lia.
        apply nth_error_In in Hj. apply Hle in Hj. lra.
      * intros u Hu. apply in_app_or in Hu. destruct Hu as [Hu|[<-|[]]].
        -- apply Hle in Hu. lra.
        -- apply Qle_refl.
    + apply Qlt_bool_false in Ex. apply IH.
      * rewrite nth_error_app1 by lia. exact Hb.
      * intros j u Hj Hjlt. rewrite nth_error_app1 in Hj by lia.
        now apply (Hlt j).
      * intros u Hu. apply in_app_or in Hu. destruct Hu as [Hu|[<-|[]]].
        -- now apply Hle.
        -- exact Ex.
Qed.

Lemma argmax_spec (l : list Q) (i : nat) :
  argmax l = Ok i ->
  exists v,
    nth_error l i = Some v
    /\ (forall j u, nth_error l j = Some u -> (j < i)%nat -> u < v)
    /\ (forall u, In u l -> u <= v).
Proof.
  destruct l as [|x l]; [discriminate|]. intro H. injection H as <-.
  destruct (argmax_from_spec l [x] x 0%nat) as [v [H1 [H2 H3]]].
  - reflexivity.
  - intros j u _ Hj. lia.
  - intros u [<-|[]]. apply Qle_refl.
  - simpl in *. eauto.
Qed.

Lemma kept_row_weaken (ncols num_classes : nat) (conf_thre : Q)
  (r0 : list Q) (image_pred : list (list Q)) (row : list Q) :
  kept_row ncols num_classes conf_thre image_pred row ->
  kept_row ncols num_classes conf_thre (r0 :: image_pred) row.
Proof.
  intros [r [k [score [v [Hin H]]]]]. exists r, k, score, v.
  split; [now right | exact H].
Qed.

Lemma detections_kept (ncols num_classes : nat) (conf_thre : Q)
  (image_pred : list (list Q)) (class_conf : list Q)
  (class_pred : list nat) :
  (5 < ncols)%nat ->
  Forall (fun r => length r = ncols) image_pred ->
  mapM np_max (map (class_slice ncols num_classes) image_pred)
  = Ok class_conf ->
  mapM argmax (map (class_slice ncols num_classes) image_pred)
  = Ok class_pred ->
  Forall (kept_row ncols num_classes conf_thre image_pred)
    (filter (fun d => Qle_bool conf_thre (nth 4 d 0 * nth 5 d 0))
       (map2 (fun r '(cc, cp) => firstn 5 r ++ [cc; inject_Z (Z.of_nat cp)])
          image_pred (combine class_conf class_pred))).
Proof.
  intros Hc Hall. revert class_conf class_pred.
  induction Hall as [|r image_pred Hlen _ IH];
    intros class_conf class_pred Hcc Hcp; [constructor|].
  simpl in Hcc. apply bind_Ok in Hcc. destruct Hcc as [cc [Hcc1 Hcc]].
  apply bind_Ok in Hcc. destruct Hcc as [ccs [Hccs Hcc]].
  injection Hcc as <-.
  simpl in Hcp. apply bind_Ok in Hcp. destruct Hcp as [cp [Hcp1 Hcp]].
  apply bind_Ok in Hcp. destruct Hcp as [cps [Hcps Hcp]].
  injection Hcp as <-.
  cbn [combine map2 filter].
  assert (H5 : length (firstn 5 r) = 5%nat)
    by (rewrite length_firstn; lia).
  assert (Hrest : Forall (kept_row ncols num_classes conf_thre
                            (r :: image_pred))
                    (filter (fun d => Qle_bool conf_thre
                                        (nth 4 d 0 * nth 5 d 0))
                       (map2 (fun r '(cc, cp) =>
                                firstn 5 r ++ [cc; inject_Z (Z.of_nat cp)])
                          image_pred (combine ccs cps)))).
  { eapply Forall_impl; [|exact (IH ccs cps Hccs Hcps)].
    intros row. apply kept_row_weaken. }
  destruct (Qle_bool conf_thre _) eqn:E; [|exact Hrest].
  constructor; [|exact Hrest].
  rewrite (app_nth1 (firstn 5 r)) in E by lia.
  rewrite (app_nth2 (firstn 5 r)) in E by lia.
  rewrite H5 in E. simpl (nth (5 - 5) _ _) in E.
  assert (H4 : nth 4 (firstn 5 r) 0 = nth 4 r 0).
  { rewrite <- (firstn_skipn 5 r) at 2. rewrite app_nth1 by lia.
    reflexivity. }
  rewrite H4 in E. apply Qle_bool_iff in E.
  destruct (argmax_spec _ _ Hcp1) as [v [Hv [_ Hub]]].
  destruct (np_max_spec _ _ Hcc1) as [Hub' [y [Hy Hyeq]]].
  exists r, cp, cc, v.
  split; [now left|]. split; [reflexivity|].
  split; [rewrite length_app, H5; reflexivity|].
  split.
  { assert (Hk : (cp < length (class_slice ncols num_classes r))%nat)
      by (apply nth_error_Some; congruence).
    unfold class_slice in Hk. rewrite length_firstn in Hk. lia. }
  split; [exact Hv|].
  split.
  { apply Qle_antisym.
    - apply Hub'. eapply nth_error_In; eauto.
    - rewrite <- Hyeq. now apply Hub. }
  split; [exact Hub' | exact E].
Qed.

(** X8.  For an image whose candidates have [width] numbers, every row that
    [postprocess_model_prediction] keeps has 7 numbers: the corner box and
    the objectness of a candidate of the image, the largest of its class
    scores, and the index of that score, which is below [num_classes]; and
    the objectness times that class score is at least [conf_thre].  This
    holds whatever rows the suppression selects. *)
Theorem postprocess_image_rows
  (nms : list Box -> list Q -> Q -> list nat)
  (batched_nms : list Box -> list Q -> list Q -> Q -> list nat)
  (width num_classes : nat) (conf_thre nms_thre : Q) (class_agnostic : bool)
  (image_pred : list (list Q)) (arr : Array2) :
  Forall (fun r => length r = width) image_pred ->
  postprocess_image nms batched_nms width num_classes conf_thre nms_thre
    class_agnostic image_pred
  = Ok (Some arr) ->
  ncols arr = 7%nat
  /\ Forall (kept_row width num_classes conf_thre image_pred) (rows arr).
Proof.
  intros Hlen H. unfold postprocess_image in H.
  destruct (length image_pred =? 0)%nat; [discriminate|]. cbv zeta in H.
  destruct (Nat.min (width - 5) num_classes =? 0)%nat eqn:Emin;
    [discriminate|].
  apply Nat.eqb_neq in Emin.
  apply bind_Ok in H. destruct H as [class_conf [Hcc H]].
  apply bind_Ok in H. destruct H as [class_pred [Hcp H]].
  match type of H with
  | (if ?c then _ else _) = _ => destruct c; [discriminate|]
  end.
  apply bind_Ok in H. destruct H as [detections [Hrows H]].
  injection H as <-. simpl. split; [reflexivity|].
  apply take_rows_In in Hrows. destruct Hrows as [_ Hin].
  assert (Hkept := detections_kept width num_classes conf_thre image_pred
                     class_conf class_pred ltac:(lia) Hlen Hcc Hcp).
  rewrite Forall_forall in *. intros row Hrow.
  apply Hkept. now apply Hin.
Qed.

Lemma postprocess_image_rows_witness :
  exists arr,
    postprocess_image keep_all keep_all_batched 8 3 0.01 0.5 true
      [[412; 462; 612; 562; 0.9; 0.8; 0.1; 0.1]]
    = Ok (Some arr)
    /\ ncols arr = 7%nat
    /\ Forall (kept_row 8 3 0.01 [[412; 462; 612; 562; 0.9; 0.8; 0.1; 0.1]])
         (rows arr).
Proof.
  eexists. split; [vm_compute; reflexivity|].
  apply (postprocess_image_rows keep_all keep_all_batched 8 3 0.01 0.5 true
           [[412; 462; 612; 562; 0.9; 0.8; 0.1; 0.1]]).
  - repeat constructor.
  - vm_compute. reflexivity.
Defined.

(** ** The normalizer: the detections emitted *)

Lemma column_Ok_inv (a : Array2) (k : nat) (c : list Q) :
  column a k = Ok c ->
  c = map (fun r => nth k r 0) (rows a) /\ (k < ncols a)%nat.
Proof.
  unfold column. destruct (k <? ncols a)%nat eqn:E; [|discriminate].
  intro H. injection H as <-. apply Nat.ltb_lt in E. auto.
Qed.

Lemma np_mask_map {A B : Type} (f : A -> B) (p : A -> bool) (l : list A) :
  np_mask (map f l) (map p l) = map f (filter p l).
Proof.
  induction l as [|x l IH]; [reflexivity|].
  simpl. destruct (p x); simpl; now rewrite IH.
Qed.

Lemma np_mask_filter {A : Type} (p : A -> bool) (l : list A) :
  np_mask l (map p l) = filter p l.
Proof.
  rewrite <- (map_id l) at 1. rewrite np_mask_map. apply map_id.
Qed.

Lemma postprocess_try_inl (original_image_shape : list nat) (arr : Array2)
  (min_score : Q) (bboxes : list Box) (scores labels : list Q) :
  postprocess_try original_image_shape arr min_score
  = inl (bboxes, scores, labels) ->
  let kept :=
    filter (fun r => Qlt_bool min_score (nth 4 r 0 * nth 5 r 0)) (rows arr)
  in
  length bboxes = length kept /\ length labels = length kept
  /\ scores = map (fun r => nth 4 r 0 * nth 5 r 0) kept
  /\ Forall unit_coords bboxes.
Proof.
  unfold postprocess_try.
  destruct (column arr 4) as [c4|e4] eqn:E4; [|discriminate].
  destruct (column arr 5) as [c5|e5] eqn:E5; [|discriminate].
  apply column_Ok_inv in E4, E5. destruct E4 as [-> _], E5 as [-> _].
  cbv zeta. rewrite map2_map, map_map.
  rewrite np_mask_filter.
  rewrite (np_mask_map (fun r => nth 4 r 0 * nth 5 r 0)
             (fun r => Qlt_bool min_score (nth 4 r 0 * nth 5 r 0))).
  set (kept := filter _ (rows arr)).
  match goal with
  | |- match ?m with Ok _ => _ | Raise _ => _ end = _ -> _ =>
      destruct m as [v|e] eqn:Er; [|discriminate]
  end.
  intro H. injection H as ->.
  apply bind_Ok in Er. destruct Er as [d0 [_ Er]].
  apply bind_Ok in Er. destruct Er as [a [_ Er]].
  apply bind_Ok in Er. destruct Er as [d1 [_ Er]].
  apply bind_Ok in Er. destruct Er as [b [_ Er]].
  cbv zeta in Er.
  apply bind_Ok in Er. destruct Er as [lbls [Hl Er]].
  injection Er as <- <- <-.
  apply column_Ok_inv in Hl. destruct Hl as [-> _]. simpl rows.
  rewrite !length_map. repeat split.
  apply Forall_map. apply Forall_forall. intros r _.
  unfold unit_coords; simpl. repeat split; apply clip_unit.
Qed.

Lemma bucket_rows_spec (P : Detection -> Prop) (bboxes : list Box)
  (scores labels : list Q) (acc ann : AnnotationSet) :
  length scores = length bboxes -> length labels = length bboxes ->
  bucket_rows acc bboxes scores labels = Ok ann ->
  detection_count ann = (detection_count acc + length bboxes)%nat
  /\ (Forall P (table acc ++ chart acc ++ title acc) ->
      Forall (fun b => forall s, In s scores -> P (round_entry b s)) bboxes ->
      Forall P (table ann ++ chart ann ++ title ann)).
Proof.
  revert scores labels acc.
  induction bboxes as [|b bboxes IH]; intros scores labels acc Hs Hl H.
  - destruct scores; [|discriminate]. destruct labels; [|discriminate].
    simpl in H. injection H as <-. split; [simpl; lia | auto].
  - destruct scores as [|s scores]; [discriminate|].
    destruct labels as [|l labels]; [discriminate|].
    cbn [bucket_rows] in H. apply bind_Ok in H.
    destruct H as [class_name [_ H]].
    apply IH in H; [|simpl in *; lia ..]. destruct H as [Hcount HP].
    split.
    + rewrite Hcount. unfold detection_count.
      destruct class_name; simpl; rewrite ?length_app; simpl; lia.
    + intros Hacc Hb. inversion Hb as [|? ? Hb0 Hbs]; subst.
      apply HP.
      * assert (Hnew : P (round_entry b s)) by (apply Hb0; now left).
        rewrite !Forall_app in *. destruct Hacc as [Ht [Hc Hu]].
        destruct class_name; simpl; rewrite ?Forall_app;
          repeat split; try assumption; repeat constructor; assumption.
      * eapply Forall_impl; [|exact Hbs].
        intros b' Hb' s' Hs'. apply Hb'. now right.
Qed.

(** X9.  When [postprocess_results] returns the dictionary of an image, it
    holds one detection for every row whose objectness times class score is
    above [min_score], and no other; every coordinate of every detection
    lies in [0, 1], and every confidence is at least [min_score] rounded to
    four decimals (it can equal it although the filter is strict). *)
Theorem postprocess_result_detections (original_image_shape : list nat)
  (arr : Array2) (min_score : Q) (ann : AnnotationSet) :
  postprocess_result original_image_shape (Some arr) min_score = Ok ann ->
  detection_count ann
  = length (filter (fun r => Qlt_bool min_score (nth 4 r 0 * nth 5 r 0))
              (rows arr))
  /\ Forall (fun d => unit_coords (bbox d)
                      /\ round4 min_score <= confidence d)
       (table ann ++ chart ann ++ title ann).
Proof.
  intro H. unfold postprocess_result in H.
  destruct (postprocess_try original_image_shape arr min_score)
    as [[[bboxes scores] labels]|[shp e]] eqn:Et; [|discriminate].
  apply postprocess_try_inl in Et. cbv zeta in Et.
  destruct Et as [Hb [Hl [Hs Hu]]].
  set (kept := filter _ (rows arr)) in *.
  assert (Hsl : length scores = length bboxes)
    by (rewrite Hs, length_map; lia).
  destruct (bucket_rows_spec
              (fun d => unit_coords (bbox d)
                        /\ round4 min_score <= confidence d)
              bboxes scores labels empty_annotation ann Hsl
              ltac:(lia) H) as [Hcount HP].
  split; [rewrite Hcount; simpl; lia|].
  apply HP; [constructor|].
  eapply Forall_impl; [|exact Hu].
  intros b [[X1 X2] [[Y1 Y2] [[X3 X4] [Y3 Y4]]]] s Hin.
  split.
  - unfold unit_coords, round_entry; simpl.
    repeat split; apply round4_unit; auto.
  - simpl. apply round4_mono. rewrite Hs in Hin.
    apply in_map_iff in Hin. destruct Hin as [r [<- Hr]].
    apply filter_In in Hr. destruct Hr as [_ Hr].
    apply Qlt_bool_iff in Hr. lra.
Qed.

Lemma postprocess_result_detections_witness :
  exists ann,
    postprocess_result [1024; 1024; 3]%nat
      (Some (mkArr 7 [[100; 200; 500; 600; 0.9; 0.8; 0];
                      [10; 20; 50; 60; 0.2; 0.3; 2]])) 0.1
    = Ok ann
    /\ detection_count ann = 1%nat.
Proof.
  eexists. split; [vm_compute; reflexivity|].
  apply (postprocess_result_detections [1024; 1024; 3]%nat
           (mkArr 7 [[100; 200; 500; 600; 0.9; 0.8; 0];
                     [10; 20; 50; 60; 0.2; 0.3; 2]]) 0.1).
  vm_compute. reflexivity.
Defined.

(** ** The normalizer: results without a shape *)

Lemma mapM_length {A B : Type} (f : A -> result B) (l : list A)
  (r : list B) :
  mapM f l = Ok r -> length r = length l.
Proof.
  intro H. apply mapM_Ok_Forall2 in H.
  symmetry. eapply Forall2_length. exact H.
Qed.

Lemma combine_app_short {A B : Type} (l : list A) (l1 l2 : list B) :
  (length l <= length l1)%nat ->
  combine l (l1 ++ l2) = combine l l1.
Proof.
  revert l1. induction l as [|a l IH]; intros [|b l1] H; simpl in *;
    try reflexivity; try lia.
  f_equal. apply IH. lia.
Qed.

(** X10.  [postprocess_results] pairs shapes and results with [zip]: it
    returns one dictionary per pair, so as many as the shorter of the two
    lists, and the results that have no shape are never looked at, whatever
    they hold.  With no shape at all (the default of the caller) the answer
    is the empty list. *)
Theorem postprocess_results_zip (results extra : list (option Array2))
  (original_image_shapes : list (list nat)) (min_score : Q) :
  (length original_image_shapes <= length results)%nat ->
  postprocess_results (results ++ extra) original_image_shapes min_score
  = postprocess_results results original_image_shapes min_score
  /\ (forall out,
         postprocess_results results original_image_shapes min_score = Ok out ->
         length out = length original_image_shapes)
  /\ postprocess_results (results ++ extra) [] min_score = Ok [].
Proof.
  intro Hlen. unfold postprocess_results. repeat split.
  - now rewrite combine_app_short.
  - intros out H. apply mapM_length in H. rewrite H, length_combine. lia.
Qed.

Lemma postprocess_results_zip_witness :
  postprocess_results ([None] ++ [Some (mkArr 3 [[1; 2; 3]])])
    [[1024; 1024; 3]%nat] 0
  = postprocess_results [None] [[1024; 1024; 3]%nat] 0
  /\ (forall out,
         postprocess_results [None] [[1024; 1024; 3]%nat] 0 = Ok out ->
         length out = length [[1024; 1024; 3]%nat])
  /\ postprocess_results ([None] ++ [Some (mkArr 3 [[1; 2; 3]])]) [] 0
     = Ok [].
Proof.
  apply (postprocess_results_zip [None] [Some (mkArr 3 [[1; 2; 3]])]
           [[1024; 1024; 3]%nat] 0).
  simpl. lia.
Defined.

(** ** The fusion engine: the order of the rows *)

Lemma insert_by_score_sorted (x : FusionRecord) (l : list FusionRecord) :
  StronglySorted (fun a b => f_score a <= f_score b) l ->
  StronglySorted (fun a b => f_score a <= f_score b) (insert_by_score x l).
Proof.
  induction 1 as [|y l Hs IH Hy]; simpl.
  - constructor; constructor.
  - destruct (Qle_bool (f_score x) (f_score y)) eqn:E.
    + apply Qle_bool_iff in E. constructor.
      * now constructor.
      * constructor; [assumption|].
        eapply Forall_impl; [|exact Hy]. intros a Ha. simpl in Ha. lra.
    + apply Qle_bool_false in E. constructor; [assumption|].
      apply Forall_forall. intros a Ha.
      apply insert_by_score_In in Ha. destruct Ha as [->|Ha]; [lra|].
      rewrite Forall_forall in Hy. now apply Hy.
Qed.

Lemma sort_by_score_sorted (l : list FusionRecord) :
  StronglySorted (fun a b => f_score a <= f_score b) (sort_by_score l).
Proof.
  unfold sort_by_score. induction l as [|x l IH]; simpl; [constructor|].
  now apply insert_by_score_sorted.
Qed.

Lemma StronglySorted_snoc {A : Type} (R : A -> A -> Prop) (l : list A)
  (x : A) :
  StronglySorted R l -> Forall (fun a => R a x) l ->
  StronglySorted R (l ++ [x]).
Proof.
  induction 1 as [|a l Hs IH Ha]; intro Hx; simpl.
  - constructor; constructor.
  - inversion Hx; subst. constructor; [now apply IH|].
    apply Forall_app. split; [assumption | now repeat constructor].
Qed.

Lemma StronglySorted_rev {A : Type} (R : A -> A -> Prop) (l : list A) :
  StronglySorted R l -> StronglySorted (fun a b => R b a) (rev l).
Proof.
  induction 1 as [|a l Hs IH Ha]; simpl; [constructor|].
  apply StronglySorted_snoc; [assumption|].
  apply Forall_forall. intros b Hb. apply in_rev in Hb.
  rewrite Forall_forall in Ha. now apply Ha.
Qed.

Lemma sort_by_score_desc_sorted (l : list FusionRecord) :
  StronglySorted (fun a b => f_score b <= f_score a) (sort_by_score_desc l).
Proof.
  unfold sort_by_score_desc.
  apply (StronglySorted_rev (fun a b => f_score a <= f_score b)).
  apply sort_by_score_sorted.
Qed.

Lemma StronglySorted_map {A B : Type} (f : A -> B) (R : B -> B -> Prop)
  (l : list A) :
  StronglySorted (fun a b => R (f a) (f b)) l -> StronglySorted R (map f l).
Proof.
  induction 1 as [|a l Hs IH Ha]; simpl; constructor; [assumption|].
  apply Forall_map. exact Ha.
Qed.

Lemma insert_by_score_length (x : FusionRecord) (l : list FusionRecord) :
  length (insert_by_score x l) = S (length l).
Proof.
  induction l as [|y l IH]; simpl; [reflexivity|].
  destruct (Qle_bool (f_score x) (f_score y)); simpl; [reflexivity|].
  now rewrite IH.
Qed.

Lemma sort_by_score_desc_length (l : list FusionRecord) :
  length (sort_by_score_desc l) = length l.
Proof.
  unfold sort_by_score_desc, sort_by_score. rewrite length_rev.
  induction l as [|x l IH]; simpl; [reflexivity|].
  now rewrite insert_by_score_length, IH.
Qed.

(** X11.  Whatever the merge policy, the confidence policy and the mode,
    the three arrays that [weighted_boxes_fusion] returns have the same
    length and the confidences are in non-increasing order: the row [i] of
    the boxes, of the scores and of the labels describe the same merged
    box, the most confident first. *)
Theorem weighted_boxes_fusion_sorted (boxes_list : list (list Box))
  (scores_list : list (list Q)) (labels_list : list (list Z))
  (iou_thr skip_box_thr : Q) (ct : conf_type) (mt : merge_type)
  (class_agnostic : bool) (boxes : list Box) (scores : list Q)
  (labels : list Z) :
  weighted_boxes_fusion boxes_list scores_list labels_list iou_thr
    skip_box_thr ct mt class_agnostic
  = Ok (boxes, scores, labels) ->
  length boxes = length scores /\ length labels = length scores
  /\ StronglySorted (fun a b => b <= a) scores.
Proof.
  unfold weighted_boxes_fusion. cbv zeta. intro H.
  apply bind_Ok in H. destruct H as [filtered_boxes [_ H]].
  destruct (length filtered_boxes =? 0)%nat.
  - injection H as <- <- <-. repeat split. constructor.
  - apply bind_Ok in H. destruct H as [overall_boxes [_ H]].
    injection H as <- <- <-. rewrite !length_map. repeat split.
    apply StronglySorted_map. apply sort_by_score_desc_sorted.
Qed.

Lemma weighted_boxes_fusion_sorted_witness :
  exists boxes scores labels,
    weighted_boxes_fusion (fst (fst sample_two_models))
      (snd (fst sample_two_models)) (snd sample_two_models) 0.2 0 Max
      Biggest false
    = Ok (boxes, scores, labels)
    /\ length boxes = length scores /\ length labels = length scores
    /\ StronglySorted (fun a b => b <= a) scores.
Proof.
  do 3 eexists. split; [vm_compute; reflexivity|].
  apply (weighted_boxes_fusion_sorted (fst (fst sample_two_models))
           (snd (fst sample_two_models)) (snd sample_two_models) 0.2 0 Max
           Biggest false).
  vm_compute. reflexivity.
Defined.

(** ** The fusion engine: the clusters of a bucket *)

Lemma setitem_In {A : Type} (l : list A) (i : nat) (a v x : A) :
  nth_error l i = Some a ->
  In v (setitem l i v)
  /\ (In x l -> x = a \/ In x (setitem l i v)).
Proof.
  revert i. induction l as [|b l IH]; intros i H.
  - destruct i; discriminate.
  - destruct i as [|i]; simpl in *.
    + injection H as ->. split; [now left|]. intros [->|Hx]; auto.
    + destruct (IH i H) as [Hv Hx]. split; [now right|].
      intros [->|Hin]; [right; now left|].
      destruct (Hx Hin); auto.
Qed.

Lemma cluster_step_covers (boxes : list FusionRecord) (iou_thr : Q)
  (clusters clusters' : list (list nat)) (j : nat) :
  cluster_step boxes iou_thr clusters j = Ok clusters' ->
  (exists c, In c clusters' /\ In j c)
  /\ (forall i, (exists c, In c clusters /\ In i c) ->
                exists c, In c clusters' /\ In i c)
  /\ (length clusters' <= S (length clusters))%nat.
Proof.
  unfold cluster_step. cbv zeta. intro H.
  apply bind_Ok in H. destruct H as [boxes_ids [_ H]].
  apply bind_Ok in H. destruct H as [boxes_j [_ H]].
  destruct (fst (find_matching_box_fast boxes_ids boxes_j iou_thr))
    as [k|].
  - apply bind_Ok in H. destruct H as [index [_ H]].
    destruct (cluster_idx_from 0 j index clusters) as [|ci rest].
    + injection H as <-. repeat split.
      * exists [index; j]. split; [apply in_or_app|]; simpl; auto.
      * intros i [c [Hc Hi]]. exists c. split; [apply in_or_app|]; auto.
      * rewrite length_app. simpl. lia.
    + apply bind_Ok in H. destruct H as [clust [Hclust H]].
      injection H as <-. apply getitem_Ok in Hclust.
      repeat split.
      * exists (list_set (clust ++ [index; j])). split.
        -- eapply (setitem_In clusters ci clust _ clust). exact Hclust.
        -- apply list_set_In. apply in_or_app. right. simpl. auto.
      * intros i [c [Hc Hi]].
        destruct (setitem_In clusters ci clust
                    (list_set (clust ++ [index; j])) c Hclust) as [Hv Hx].
        destruct (Hx Hc) as [->|Hin].
        -- exists (list_set (clust ++ [index; j])). split; [assumption|].
           apply list_set_In. apply in_or_app. now left.
        -- exists c. auto.
      * rewrite setitem_length. lia.
  - injection H as <-. repeat split.
    + exists [j]. split; [apply in_or_app|]; simpl; auto.
    + intros i [c [Hc Hi]]. exists c. split; [apply in_or_app|]; auto.
    + rewrite length_app. simpl. lia.
Qed.

Lemma clusterize_from_covers (boxes : list FusionRecord) (iou_thr : Q)
  (js : list nat) (clusters clusters' : list (list nat)) :
  clusterize_from boxes iou_thr clusters js = Ok clusters' ->
  (forall j, In j js -> exists c, In c clusters' /\ In j c)
  /\ (forall i, (exists c, In c clusters /\ In i c) ->
                exists c, In c clusters' /\ In i c)
  /\ (length clusters' <= length clusters + length js)%nat.
Proof.
  revert clusters. induction js as [|j js IH]; intros clusters H; simpl in H.
  - injection H as <-. repeat split; [intros j []|auto|simpl; lia].
  - apply bind_Ok in H. destruct H as [c1 [H1 H]].
    apply cluster_step_covers in H1. destruct H1 as [Hj [Hkeep Hlen]].
    apply IH in H. destruct H as [Hjs [Hkeep' Hlen']].
    repeat split.
    + intros i [<-|Hi]; [now apply Hkeep' | now apply Hjs].
    + intros i Hi. apply Hkeep'. now apply Hkeep.
    + simpl. lia.
Qed.

(** X12.  The clustering loop of [weighted_boxes_fusion] always ends with
    a list of clusters that covers the bucket: every row of the bucket is
    in at least one cluster, a cluster holds only rows of the bucket and is
    never empty, and there are at most as many clusters as rows. *)
Theorem clusterize_covers (boxes : list FusionRecord) (iou_thr : Q) :
  exists clusters,
    clusterize boxes iou_thr = Ok clusters
    /\ (forall j, (j < length boxes)%nat <->
                  exists c, In c clusters /\ In j c)
    /\ Forall (fun c => c <> []) clusters
    /\ (length clusters <= length boxes)%nat.
Proof.
  destruct (clusterize_ok boxes iou_thr) as [clusters [H Hok]].
  exists clusters. split; [assumption|].
  unfold clusterize in H. apply clusterize_from_covers in H.
  destruct H as [Hjs [_ Hlen]]. repeat split.
  - intro Hj. apply Hjs. apply in_seq. lia.
  - intros [c [Hc Hj]]. rewrite Forall_forall in Hok.
    destruct (Hok c Hc) as [_ Hall]. rewrite Forall_forall in Hall.
    now apply Hall.
  - eapply Forall_impl; [|exact Hok]. intros c [Hne _]. exact Hne.
  - rewrite length_seq in Hlen. simpl in Hlen. exact Hlen.
Qed.

(** ** The fusion engine: where the rows of a bucket come from *)

Lemma Ok_inj {A : Type} (a b : A) : Ok a = Ok b -> a = b.
Proof.
  intro H. now injection H.
Qed.

Lemma key_eqb_eq (a b : bucket_key) : key_eqb a b = true -> a = b.
Proof.
  destruct a as [x|], b as [y|]; simpl; try discriminate; [|reflexivity].
  intro H. apply Z.eqb_eq in H. now subst.
Qed.

Lemma bucket_append_all (P : bucket_key -> FusionRecord -> Prop)
  (k : bucket_key) (r : FusionRecord) (d : buckets) :
  P k r ->
  Forall (fun kb => snd kb <> [] /\ Forall (P (fst kb)) (snd kb)) d ->
  Forall (fun kb => snd kb <> [] /\ Forall (P (fst kb)) (snd kb))
    (bucket_append k r d)
  /\ bucket_total (bucket_append k r d) = S (bucket_total d).
Proof.
  intro Hr. unfold bucket_total.
  induction 1 as [|[k' l] d [Hne Hall] Hd [IH1 IH2]].
  - simpl. split; [|reflexivity]. repeat constructor; simpl;
      [discriminate | assumption].
  - cbn [bucket_append]. destruct (key_eqb k k') eqn:E.
    + apply key_eqb_eq in E. subst k'. split.
      * constructor; [|assumption]. simpl in *. split.
        -- destruct l; discriminate.
        -- apply Forall_app. split; [assumption | now repeat constructor].
      * simpl. rewrite !length_app. simpl. lia.
    + split.
      * constructor; [split; assumption | assumption].
      * simpl in *. rewrite !length_app. rewrite IH2. lia.
Qed.

Lemma prefilter_rows_all (P : bucket_key -> FusionRecord -> Prop) (t : nat)
  (weights : list Q) (thr : Q) (class_agnostic : bool) (boxes : list Box) :
  forall (scores : list Q) (labels : list Z) (d d' : buckets),
    (forall j box_part score label weight,
        nth_error boxes j = Some box_part ->
        nth_error scores j = Some score ->
        nth_error labels j = Some label ->
        nth_error weights t = Some weight ->
        thr <= score -> ~ area (repair_box box_part) == 0 ->
        P (if class_agnostic then None else Some label)
          (mkRec label (score * weight) weight (Z.of_nat t)
             (repair_box box_part))) ->
    Forall (fun kb => snd kb <> [] /\ Forall (P (fst kb)) (snd kb)) d ->
    prefilter_rows t weights thr class_agnostic d boxes scores labels
    = Ok d' ->
    Forall (fun kb => snd kb <> [] /\ Forall (P (fst kb)) (snd kb)) d'
    /\ (bucket_total d' <= bucket_total d + length boxes)%nat.
Proof.
  induction boxes as [|b boxes IH]; intros scores labels d d' H Hd Hr.
  - simpl in Hr. apply Ok_inj in Hr. subst d'. split; [assumption | lia].
  - destruct scores as [|s scores];
      [simpl in Hr; apply Ok_inj in Hr; subst d'; split; [assumption | lia]|].
    destruct labels as [|l labels];
      [simpl in Hr; apply Ok_inj in Hr; subst d'; split; [assumption | lia]|].
    cbn [prefilter_rows] in Hr. apply bind_Ok in Hr.
    destruct Hr as [d1 [Hone Hr]].
    assert (H1 :
      Forall (fun kb => snd kb <> [] /\ Forall (P (fst kb)) (snd kb)) d1
      /\ (bucket_total d1 <= S (bucket_total d))%nat).
    { unfold prefilter_one in Hone.
      destruct (Qlt_bool s thr) eqn:Es;
        [apply Ok_inj in Hone; subst d1; split; [assumption | lia]|].
      apply Qlt_bool_false in Es. cbv zeta in Hone.
      destruct (Qeq_bool _ 0) eqn:E;
        [apply Ok_inj in Hone; subst d1; split; [assumption | lia]|].
      apply Qeq_bool_neq in E.
      apply bind_Ok in Hone. destruct Hone as [weight [Hw Hone]].
      apply getitem_Ok in Hw. apply Ok_inj in Hone. subst d1.
      assert (HP : P (if class_agnostic then None else Some l)
                     (mkRec l (s * weight) weight (Z.of_nat t)
                        (repair_box b)))
        by (apply (H 0%nat); auto).
      destruct (bucket_append_all P _ _ d HP Hd) as [H1 H2].
      split; [assumption | exact (Nat.eq_le_incl _ _ H2)]. }
    destruct H1 as [H1 Hcount].
    assert (Htail : forall j box_part score label weight,
               nth_error boxes j = Some box_part ->
               nth_error scores j = Some score ->
               nth_error labels j = Some label ->
               nth_error weights t = Some weight ->
               thr <= score -> ~ area (repair_box box_part) == 0 ->
               P (if class_agnostic then None else Some label)
                 (mkRec label (score * weight) weight (Z.of_nat t)
                    (repair_box box_part)))
      by (intros j box_part score label weight; apply (H (S j))).
    destruct (IH scores labels d1 d' Htail H1 Hr) as [H2 H3].
    split; [assumption | simpl; lia].
Qed.

Lemma prefilter_models_all (P : bucket_key -> FusionRecord -> Prop)
  (scores : list (list Q)) (labels : list (list Z)) (weights : list Q)
  (thr : Q) (class_agnostic : bool) (boxes : list (list Box)) :
  forall (t : nat) (d d' : buckets),
    (forall k boxes_t scores_t labels_t weight j box_part score label,
        nth_error boxes k = Some boxes_t ->
        nth_error scores (t + k) = Some scores_t ->
        nth_error labels (t + k) = Some labels_t ->
        nth_error weights (t + k) = Some weight ->
        nth_error boxes_t j = Some box_part ->
        nth_error scores_t j = Some score ->
        nth_error labels_t j = Some label ->
        thr <= score -> ~ area (repair_box box_part) == 0 ->
        P (if class_agnostic then None else Some label)
          (mkRec label (score * weight) weight (Z.of_nat (t + k))
             (repair_box box_part))) ->
    Forall (fun kb => snd kb <> [] /\ Forall (P (fst kb)) (snd kb)) d ->
    prefilter_models t boxes scores labels weights thr class_agnostic d
    = Ok d' ->
    Forall (fun kb => snd kb <> [] /\ Forall (P (fst kb)) (snd kb)) d'
    /\ (bucket_total d' <= bucket_total d + length (concat boxes))%nat.
Proof.
  induction boxes as [|bt boxes IH]; intros t d d' H Hd Hm; simpl in Hm.
  - injection Hm as <-. split; [assumption | simpl; lia].
  - apply bind_Ok in Hm. destruct Hm as [st [Hst Hm]].
    destruct (negb (length bt =? length st)%nat); [discriminate|].
    apply bind_Ok in Hm. destruct Hm as [lt [Hlt Hm]].
    destruct (negb (length bt =? length lt)%nat); [discriminate|].
    apply bind_Ok in Hm. destruct Hm as [d1 [Hd1 Hm]].
    apply getitem_Ok in Hst, Hlt.
    assert (H1 :
      Forall (fun kb => snd kb <> [] /\ Forall (P (fst kb)) (snd kb)) d1
      /\ (bucket_total d1 <= bucket_total d + length bt)%nat).
    { apply (prefilter_rows_all P t weights thr class_agnostic bt st lt d d1);
        [|assumption|assumption].
      intros j box_part score label w Hb Hs Hl Hw Hthr Harea.
      specialize (H 0%nat bt st lt w j box_part score label).
      rewrite Nat.add_0_r in H. apply H; auto. }
    destruct H1 as [H1 Hc1].
    apply (IH (S t) d1 d') in Hm; [| |assumption].
    + destruct Hm as [H2 Hc2].
      split; [assumption|]. simpl. rewrite length_app. lia.
    + intros k boxes_t scores_t labels_t weight j box_part score label
        Hk Hs Hl Hw.
      specialize (H (S k) boxes_t scores_t labels_t weight j box_part
                    score label).
      rewrite Nat.add_succ_r in H. apply H; assumption.
Qed.

Lemma bucket_total_sorted (d : buckets) :
  bucket_total
    (map (fun '(k, current_boxes) => (k, sort_by_score_desc current_boxes)) d)
  = bucket_total d.
Proof.
  unfold bucket_total. induction d as [|[k l] d IH]; [reflexivity|].
  simpl. rewrite !length_app, sort_by_score_desc_length. simpl in IH.
  now rewrite IH.
Qed.

Lemma prefilter_boxes_all (boxes : list (list Box)) (scores : list (list Q))
  (labels : list (list Z)) (weights : list Q) (thr : Q)
  (class_agnostic : bool) (d : buckets) :
  prefilter_boxes boxes scores labels weights thr class_agnostic = Ok d ->
  Forall (fun kb =>
            snd kb <> []
            /\ StronglySorted (fun a b => f_score b <= f_score a) (snd kb)
            /\ Forall (fun r =>
                         prefiltered boxes scores labels weights thr
                           class_agnostic (fst kb) r
                         /\ valid_box (f_box r)) (snd kb)) d
  /\ (bucket_total d <= length (concat boxes))%nat.
Proof.
  unfold prefilter_boxes. intro H.
  apply bind_Ok in H. destruct H as [d0 [Hd0 H]]. injection H as <-.
  apply (prefilter_models_all
           (fun k r => prefiltered boxes scores labels weights thr
                         class_agnostic k r /\ valid_box (f_box r)))
    in Hd0; [| |constructor].
  - destruct Hd0 as [Hall Hcount]. split.
    + apply Forall_map. eapply Forall_impl; [|exact Hall].
      intros [k l] [Hne Hl]. simpl in *. repeat split.
      * now apply sort_by_score_desc_nonempty.
      * apply sort_by_score_desc_sorted.
      * now apply sort_by_score_desc_Forall.
    + rewrite bucket_total_sorted. exact Hcount.
  - intros k boxes_t scores_t labels_t weight j box_part score label
      Hk Hs Hl Hw Hb Hsc Hlb Hthr Harea. simpl in *. split.
    + exists k, j, boxes_t, scores_t, labels_t, weight, box_part, score,
        label. repeat split; assumption.
    + simpl. apply inside_box_nonzero_area;
        [apply repair_box_inside | exact Harea].
Qed.

(** X13.  Every row that [prefilter_boxes] puts in its dictionary comes
    from an input box whose score is not below [thr] and whose repaired box
    has a positive width and height inside the unit square; the row holds
    the label of that box, its score times the weight of its model, and the
    index of the model.  A bucket is never empty, its key is the label of
    its rows (or the single key of the class-agnostic mode), and its rows
    are in non-increasing order of score. *)
Theorem prefilter_boxes_rows (boxes : list (list Box))
  (scores : list (list Q)) (labels : list (list Z)) (weights : list Q)
  (thr : Q) (class_agnostic : bool) (d : buckets) :
  prefilter_boxes boxes scores labels weights thr class_agnostic = Ok d ->
  Forall (fun kb =>
            snd kb <> []
            /\ StronglySorted (fun a b => f_score b <= f_score a) (snd kb)
            /\ Forall (fun r =>
                         prefiltered boxes scores labels weights thr
                           class_agnostic (fst kb) r
                         /\ valid_box (f_box r)) (snd kb)) d.
Proof.
  intro H. now apply prefilter_boxes_all in H.
Qed.

Lemma prefilter_boxes_rows_witness :
  Forall (fun kb =>
            snd kb <> []
            /\ StronglySorted (fun a b => f_score b <= f_score a) (snd kb)
            /\ Forall (fun r =>
                         prefiltered (fst (fst sample_mixed))
                           (snd (fst sample_mixed)) (snd sample_mixed) [1] 0
                           true (fst kb) r
                         /\ valid_box (f_box r)) (snd kb))
    [(None, sample_mixed_bucket)].
Proof.
  apply (prefilter_boxes_rows (fst (fst sample_mixed))
           (snd (fst sample_mixed)) (snd sample_mixed) [1] 0 true).
  vm_compute. reflexivity.
Defined.

(** ** The fusion engine: the number of merged boxes *)

Lemma fuse_buckets_length (weights : list Q) (iou_thr : Q) (ct : conf_type)
  (mt : merge_type) (d : buckets) (out : list FusionRecord) :
  fuse_buckets weights iou_thr ct mt d = Ok out ->
  (length out <= bucket_total d)%nat.
Proof.
  unfold bucket_total. revert out.
  induction d as [|[k boxes] d IH]; intros out H; simpl in H.
  - injection H as <-. simpl. lia.
  - apply bind_Ok in H. destruct H as [merged [Hm H]].
    apply bind_Ok in H. destruct H as [others [Ho H]].
    injection H as <-. apply IH in Ho.
    unfold fuse_bucket in Hm. apply bind_Ok in Hm.
    destruct Hm as [clusters [Hc Hm]].
    apply mapM_length in Hm. unfold clusterize in Hc.
    apply clusterize_from_covers in Hc. destruct Hc as [_ [_ Hlen]].
    rewrite length_seq in Hlen.
    simpl in *. rewrite !length_app. lia.
Qed.

(** X14.  [weighted_boxes_fusion] never returns more boxes than it was
    given: the number of merged boxes is at most the number of input boxes
    of all the models together. *)
Theorem weighted_boxes_fusion_count (boxes_list : list (list Box))
  (scores_list : list (list Q)) (labels_list : list (list Z))
  (iou_thr skip_box_thr : Q) (ct : conf_type) (mt : merge_type)
  (class_agnostic : bool) (boxes : list Box) (scores : list Q)
  (labels : list Z) :
  weighted_boxes_fusion boxes_list scores_list labels_list iou_thr
    skip_box_thr ct mt class_agnostic
  = Ok (boxes, scores, labels) ->
  (length boxes <= length (concat boxes_list))%nat.
Proof.
  unfold weighted_boxes_fusion. cbv zeta. intro H.
  apply bind_Ok in H. destruct H as [filtered_boxes [Hf H]].
  destruct (length filtered_boxes =? 0)%nat.
  - injection H as <- <- <-. simpl. lia.
  - apply bind_Ok in H. destruct H as [overall_boxes [Ho H]].
    injection H as <- <- <-.
    rewrite length_map, sort_by_score_desc_length.
    apply fuse_buckets_length in Ho.
    apply prefilter_boxes_all in Hf. destruct Hf as [_ Hf]. lia.
Qed.

Lemma weighted_boxes_fusion_count_witness :
  exists boxes scores labels,
    weighted_boxes_fusion (fst (fst sample_two_models))
      (snd (fst sample_two_models)) (snd sample_two_models) 0.2 0 Avg
      Weighted true
    = Ok (boxes, scores, labels)
    /\ (length boxes
        <= length (concat (fst (fst sample_two_models))))%nat.
Proof.
  do 3 eexists. split; [vm_compute; reflexivity|].
  eapply (weighted_boxes_fusion_count (fst (fst sample_two_models))
            (snd (fst sample_two_models)) (snd sample_two_models) 0.2 0 Avg
            Weighted true).
  vm_compute. reflexivity.
Defined.

(** ** The fusion engine: boxes that do not overlap *)

Lemma take_rows_nth {A : Type} (arr : list A) (idxs : list nat)
  (r : list A) :
  take_rows arr idxs = Ok r ->
  Forall2 (fun i a => nth_error arr i = Some a) idxs r.
Proof.
  revert r. induction idxs as [|i idxs IH]; simpl; intros r H.
  - injection H as <-. constructor.
  - apply bind_Ok in H. destruct H as [a [Ha H]].
    apply bind_Ok in H. destruct H as [r' [Hr' H]].
    injection H as <-. apply getitem_Ok in Ha. constructor; auto.
Qed.

Lemma find_matching_box_fast_none (boxes_list : list FusionRecord)
  (new_box : FusionRecord) (match_iou : Q) :
  Forall (fun b => bb_iou (f_box b) (f_box new_box) <= match_iou)
    boxes_list ->
  fst (find_matching_box_fast boxes_list new_box match_iou) = None.
Proof.
  intro H. unfold find_matching_box_fast.
  destruct (bb_iou_array (map f_box boxes_list) (f_box new_box))
    as [|iou0 ious'] eqn:E; [reflexivity|]. cbv zeta.
  assert (Hall : Forall (fun v => v <= match_iou) (iou0 :: ious')).
  { rewrite <- E. unfold bb_iou_array. rewrite map_map.
    apply Forall_map. exact H. }
  assert (Hb : (argmax_from iou0 0 1 ious' < length (iou0 :: ious'))%nat).
  { destruct (argmax_from_bound ious' iou0 0%nat 1%nat) as [Eb|Eb];
      [rewrite Eb|]; simpl; lia. }
  assert (Hle : nth (argmax_from iou0 0 1 ious') (iou0 :: ious') 0
                <= match_iou).
  { rewrite Forall_forall in Hall. apply Hall. now apply nth_In. }
  apply Qle_bool_iff in Hle. rewrite Hle. reflexivity.
Qed.

Lemma cluster_step_separated (boxes : list FusionRecord) (iou_thr : Q)
  (clusters : list (list nat)) (j : nat) :
  separated iou_thr boxes -> (j < length boxes)%nat ->
  cluster_step boxes iou_thr clusters j = Ok (clusters ++ [[j]]).
Proof.
  intros Hsep Hj. unfold cluster_step. cbv zeta.
  set (ids := filter (fun i => negb (i =? j)%nat) (seq 0 (length boxes))).
  assert (Hids : Forall (fun i => (i < length boxes)%nat) ids).
  { apply Forall_forall. intros i Hi. apply filter_In in Hi.
    destruct Hi as [Hi _]. apply in_seq in Hi. lia. }
  destruct (take_rows_total boxes ids Hids) as [boxes_ids [Hrows _]].
  rewrite Hrows. cbn [bind].
  destruct (getitem_lt boxes j Hj) as [boxes_j [Hbj _]].
  rewrite Hbj. cbn [bind]. apply getitem_Ok in Hbj.
  rewrite find_matching_box_fast_none; [reflexivity|].
  apply take_rows_nth in Hrows.
  assert (Hne : Forall (fun i => i <> j) ids).
  { apply Forall_forall. intros i Hi. apply filter_In in Hi.
    destruct Hi as [_ Hi]. apply negb_true_iff in Hi.
    now apply Nat.eqb_neq in Hi. }
  clear Hids. induction Hrows as [|i b ids' bs Hi _ IH]; [constructor|].
  inversion Hne; subst. constructor; [|now apply IH].
  now apply (Hsep i j).
Qed.

Lemma clusterize_from_separated (boxes : list FusionRecord) (iou_thr : Q)
  (js : list nat) (clusters : list (list nat)) :
  separated iou_thr boxes -> Forall (fun j => (j < length boxes)%nat) js ->
  clusterize_from boxes iou_thr clusters js
  = Ok (clusters ++ map (fun j => [j]) js).
Proof.
  intros Hsep Hjs. revert clusters.
  induction Hjs as [|j js Hj _ IH]; intro clusters; simpl.
  - now rewrite app_nil_r.
  - rewrite (cluster_step_separated boxes iou_thr clusters j Hsep Hj).
    cbn [bind]. rewrite IH, <- app_assoc. reflexivity.
Qed.

Lemma merge_cluster_single (boxes : list FusionRecord) (n : nat)
  (ct : conf_type) (mt : merge_type) (j : nat) (b : FusionRecord) :
  (0 < n)%nat -> nth_error boxes j = Some b ->
  (mt = Weighted -> ~ f_score b == 0) ->
  exists r,
    merge_cluster boxes (repeat 1 n) ct mt [j] = Ok r /\ unmerged n ct b r.
Proof.
  intros Hn Hb Hs. unfold merge_cluster. cbn [take_rows]. unfold getitem.
  rewrite Hb. cbn [bind].
  assert (Hlab : merge_labels (map f_label [b]) (map f_score [b])
                 = Ok (f_label b)).
  { apply merge_labels_uniform; [discriminate|]. repeat constructor. }
  assert (Hnz : ~ inject_Z (Z.of_nat n) == 0)
    by now apply inject_Z_of_nat_nonzero.
  destruct mt.
  - specialize (Hs eq_refl). unfold get_weighted_box.
    cbn [fold_left]. rewrite Hlab. cbn [bind].
    destruct ct; cbn [conf_of map np_max list_max fold_left bind].
    + eexists. split; [reflexivity|].
      unfold unmerged, contains, set_score, box_div, box_add, box_scale.
      cbn [f_label f_box f_score x1 y1 x2 y2 length].
      assert (E1 : forall v, (0 + f_score b * v) / (0 + f_score b) == v)
        by (intro v; field; lra).
      rewrite !E1.
      repeat split; try apply Qle_refl.
      rewrite np_sum_Qsum, Qsum_repeat_1.
      unfold np_mean, np_sum. cbn [app fold_left length].
      change (inject_Z (Z.of_nat 1)) with 1. field. exact Hnz.
    + rewrite (np_max_repeat_1 n Hn). cbn [bind].
      eexists. split; [reflexivity|].
      unfold unmerged, contains, set_score, box_div, box_add, box_scale.
      cbn [f_label f_box f_score x1 y1 x2 y2 length].
      assert (E1 : forall v, (0 + f_score b * v) / (0 + f_score b) == v)
        by (intro v; field; lra).
      rewrite !E1.
      repeat split; try apply Qle_refl.
      unfold list_max. cbn [fold_left]. field.
  - unfold get_biggest_box. cbn [getitem nth_error bind fold_left].
    rewrite Hlab. cbn [bind].
    destruct ct; cbn [conf_of app map np_max list_max fold_left bind].
    + eexists. split; [reflexivity|].
      unfold unmerged, contains, set_score.
      cbn [f_label f_box f_score x1 y1 x2 y2 length].
      rewrite !Q.min_id, !Q.max_id.
      repeat split; try apply Qle_refl.
      rewrite np_sum_Qsum, Qsum_repeat_1.
      unfold np_mean, np_sum. cbn [app fold_left length].
      change (inject_Z (Z.of_nat 1)) with 1. field. exact Hnz.
    + rewrite (np_max_repeat_1 n Hn). cbn [bind].
      eexists. split; [reflexivity|].
      unfold unmerged, contains, set_score.
      cbn [f_label f_box f_score x1 y1 x2 y2 length].
      rewrite !Q.min_id, !Q.max_id.
      repeat split; try apply Qle_refl.
      unfold list_max. cbn [fold_left]. field.
Qed.

Lemma merge_singletons (n : nat) (ct : conf_type) (mt : merge_type)
  (suf pre : list FusionRecord) :
  (0 < n)%nat ->
  (mt = Weighted -> Forall (fun b => ~ f_score b == 0) suf) ->
  exists out,
    mapM (merge_cluster (pre ++ suf) (repeat 1 n) ct mt)
      (map (fun j => [j]) (seq (length pre) (length suf)))
    = Ok out
    /\ Forall2 (unmerged n ct) suf out.
Proof.
  intros Hn. revert pre.
  induction suf as [|b suf IH]; intros pre Hs.
  - exists []. split; [reflexivity | constructor].
  - cbn [length seq map mapM].
    destruct (merge_cluster_single (pre ++ b :: suf) n ct mt (length pre) b
                Hn (nth_error_middle pre b suf)) as [r [Hr Hu]].
    { intro E. specialize (Hs E). now inversion Hs. }
    rewrite Hr. cbn [bind].
    assert (E : pre ++ b :: suf = (pre ++ [b]) ++ suf)
      by (now rewrite <- app_assoc).
    assert (El : S (length pre) = length (pre ++ [b]))
      by (rewrite length_app; simpl; lia).
    destruct (IH (pre ++ [b])) as [out [Ho Hall]].
    { intro Em. specialize (Hs Em). now inversion Hs. }
    rewrite E, El, Ho. cbn [bind].
    exists (r :: out). split; [reflexivity | now constructor].
Qed.

(** X15.  A bucket in which no two boxes overlap by more than [iou_thr]
    comes out of the fusion as it went in: one merged row per row, in the
    order of the bucket, with the same label and the same box.  With the
    [max] confidence the score is unchanged; with [avg] it is divided by the
    number of models, so a box seen by one model of several loses
    confidence.  (For the weighted merge the scores must not be 0.) *)
Theorem fuse_bucket_separated (n : nat) (iou_thr : Q) (ct : conf_type)
  (mt : merge_type) (boxes : list FusionRecord) :
  (0 < n)%nat -> separated iou_thr boxes ->
  (mt = Weighted -> Forall (fun b => ~ f_score b == 0) boxes) ->
  exists out,
    fuse_bucket (repeat 1 n) iou_thr ct mt boxes = Ok out
    /\ Forall2 (unmerged n ct) boxes out.
Proof.
  intros Hn Hsep Hs. unfold fuse_bucket, clusterize.
  rewrite (clusterize_from_separated boxes iou_thr (seq 0 (length boxes)) []
             Hsep).
  - cbn [bind app].
    exact (merge_singletons n ct mt boxes [] Hn Hs).
  - apply Forall_forall. intros j Hj. apply in_seq in Hj. lia.
Qed.

Lemma fuse_bucket_separated_witness :
  exists out,
    fuse_bucket (repeat 1 2) 0.2 Avg Weighted sample_bucket = Ok out
    /\ Forall2 (unmerged 2 Avg) sample_bucket out.
Proof.
  apply (fuse_bucket_separated 2 0.2 Avg Weighted sample_bucket).
  - lia.
  - intros i j bi bj Hi Hj Hne.
    destruct i as [|[|i]]; destruct j as [|[|j]]; simpl in Hi, Hj;
      try congruence;
      try (destruct i; discriminate); try (destruct j; discriminate);
      injection Hi as <-; injection Hj as <-;
      vm_compute; discriminate.
  - intros _. repeat constructor; vm_compute; discriminate.
Defined.

(** ** The label of a cluster whose members are in order of confidence *)

Lemma argmax_from_sorted (l : list Q) (best : Q) (besti i : nat) :
  Forall (fun x => x <= best) l -> argmax_from best besti i l = besti.
Proof.
  intro H. revert i. induction H as [|x l Hx _ IH]; intro i; simpl;
    [reflexivity|].
  apply Qlt_bool_false in Hx. rewrite Hx. apply IH.
Qed.

Lemma StronglySorted_nth {A : Type} (R : A -> A -> Prop) (l : list A) :
  StronglySorted R l ->
  forall i k a b,
    (i < k)%nat -> nth_error l i = Some a -> nth_error l k = Some b ->
    R a b.
Proof.
  induction 1 as [|x l Hs IH Hx]; intros i k a b Hik Hi Hk.
  - destruct i; discriminate.
  - destruct k as [|k]; [lia|]. simpl in Hk.
    destruct i as [|i]; simpl in Hi.
    + injection Hi as <-. rewrite Forall_forall in Hx. apply Hx.
      eapply nth_error_In. exact Hk.
    + apply (IH i k); [lia | assumption | assumption].
Qed.

Lemma filter_hd_index {A : Type} (p : A -> bool) (l : list A) (x : A)
  (rest : list A) :
  filter p l = x :: rest ->
  exists i,
    nth_error l i = Some x /\ p x = true
    /\ forall k y, (k < i)%nat -> nth_error l k = Some y -> p y = false.
Proof.
  induction l as [|a l IH]; simpl; [discriminate|].
  destruct (p a) eqn:E; intro H.
  - injection H as -> _. exists 0%nat. repeat split; auto.
    intros k y Hk. lia.
  - destruct (IH H) as [i [Hi [Hp Hlt]]]. exists (S i).
    repeat split; auto.
    intros [|k] y Hk Hy; simpl in Hy.
    + now injection Hy as <-.
    + apply (Hlt k); [lia | assumption].
Qed.

Lemma filter_all {A : Type} (p : A -> bool) (l : list A) :
  Forall (fun x => p x = true) l -> filter p l = l.
Proof.
  induction 1 as [|x l Hx _ IH]; simpl; [reflexivity|].
  now rewrite Hx, IH.
Qed.

Lemma filter_none {A : Type} (p : A -> bool) (l : list A) :
  filter p l = [] -> Forall (fun x => p x = false) l.
Proof.
  induction l as [|x l IH]; simpl; [constructor|].
  destruct (p x) eqn:E; [discriminate|]. intro H. constructor; auto.
Qed.

Lemma nodup_singleton (l : list Z) :
  length (nodup Z.eq_dec l) = 1%nat -> exists x, Forall (eq x) l.
Proof.
  intro H. destruct (nodup Z.eq_dec l) as [|x [|y r]] eqn:E;
    try discriminate.
  exists x. apply Forall_forall. intros y Hy.
  apply (nodup_In Z.eq_dec) in Hy. rewrite E in Hy.
  destruct Hy as [->|[]]. reflexivity.
Qed.

(** X16.  On members listed in non-increasing order of confidence (none of
    them equal to 2), [merge_labels] does return the label of the most
    confident member that is not a title: it answers with a label that is
    not the title label, carried by a member whose confidence is at least
    that of every other member that is not a title.  When every member is
    a title it answers with the title label. *)
Theorem merge_labels_sorted (labels : list Z) (confs : list Q) :
  length labels = length confs -> labels <> [] ->
  StronglySorted (fun a b => b <= a) confs ->
  Forall (fun c => ~ c == 2) confs ->
  (Forall (eq 2%Z) labels -> merge_labels labels confs = Ok 2%Z)
  /\ (~ Forall (eq 2%Z) labels ->
      exists i l ci,
        nth_error labels i = Some l /\ nth_error confs i = Some ci
        /\ l <> 2%Z
        /\ merge_labels labels confs = Ok l
        /\ forall k lk ck,
             nth_error labels k = Some lk -> lk <> 2%Z ->
             nth_error confs k = Some ck -> ck <= ci).
Proof.
  intros Hlen Hne Hsorted Hconfs. split.
  { intro H. now apply merge_labels_uniform. }
  intro Hnot.
  destruct (filter (fun l => negb (l =? 2)%Z) labels) as [|l rest] eqn:Ef.
  { exfalso. apply Hnot. apply filter_none in Ef.
    eapply Forall_impl; [|exact Ef]. intros a Ha. simpl in Ha.
    apply negb_false_iff in Ha. apply Z.eqb_eq in Ha. now subst. }
  destruct (filter_hd_index _ _ _ _ Ef) as [i [Hi [Hp Hbefore]]].
  apply negb_true_iff in Hp. apply Z.eqb_neq in Hp.
  assert (Hci : exists ci, nth_error confs i = Some ci).
  { destruct (nth_error confs i) as [ci|] eqn:E; [eauto|].
    apply nth_error_None in E.
    assert (i < length labels)%nat
      by (apply nth_error_Some; congruence).
    lia. }
  destruct Hci as [ci Hci].
  exists i, l, ci. repeat split; try assumption.
  - unfold merge_labels.
    destruct (length (np_unique labels) =? 1)%nat eqn:Eu.
    + apply Nat.eqb_eq in Eu. apply nodup_singleton in Eu.
      destruct Eu as [x Hx].
      assert (x = l).
      { rewrite Forall_forall in Hx. apply Hx.
        eapply nth_error_In. exact Hi. }
      subst x. destruct labels as [|a labels']; [congruence|].
      inversion Hx; subst. reflexivity.
    + cbv zeta. rewrite Ef.
      rewrite filter_all.
      * destruct confs as [|c0 cs].
        { destruct labels; [congruence | discriminate]. }
        unfold argmax. inversion Hsorted; subst.
        rewrite argmax_from_sorted by assumption.
        reflexivity.
      * eapply Forall_impl; [|exact Hconfs]. intros c Hc. simpl in Hc.
        destruct (Qeq_bool c 2) eqn:E; [|reflexivity].
        apply Qeq_bool_iff in E. contradiction.
  - intros k lk ck Hk Hlk Hck.
    destruct (Nat.lt_trichotomy k i) as [Hlt|[->|Hgt]].
    + specialize (Hbefore k lk Hlt Hk). simpl in Hbefore.
      apply negb_false_iff in Hbefore. apply Z.eqb_eq in Hbefore.
      contradiction.
    + rewrite Hci in Hck. injection Hck as <-. apply Qle_refl.
    + exact (StronglySorted_nth _ _ Hsorted i k ci ck Hgt Hci Hck).
Qed.

Lemma merge_labels_sorted_witness :
  (Forall (eq 2%Z) [2; 0; 1]%Z -> merge_labels [2; 0; 1]%Z [0.9; 0.5; 0.1]
                                  = Ok 2%Z)
  /\ (~ Forall (eq 2%Z) [2; 0; 1]%Z ->
      exists i l ci,
        nth_error [2; 0; 1]%Z i = Some l
        /\ nth_error [0.9; 0.5; 0.1] i = Some ci
        /\ l <> 2%Z
        /\ merge_labels [2; 0; 1]%Z [0.9; 0.5; 0.1] = Ok l
        /\ forall k lk ck,
             nth_error [2; 0; 1]%Z k = Some lk -> lk <> 2%Z ->
             nth_error [0.9; 0.5; 0.1] k = Some ck -> ck <= ci).
Proof.
  apply (merge_labels_sorted [2; 0; 1]%Z [0.9; 0.5; 0.1]).
  - reflexivity.
  - discriminate.
  - repeat constructor; vm_compute; discriminate.
  - repeat constructor; vm_compute; discriminate.
Defined.

(** ** The merged box of a cluster *)

Lemma contains_refl (b : Box) : contains b b.
Proof.
  unfold contains. repeat split; apply Qle_refl.
Qed.

Lemma contains_trans (a b c : Box) :
  contains a b -> contains b c -> contains a c.
Proof.
  unfold contains. intros [A1 [A2 [A3 A4]]] [B1 [B2 [B3 B4]]].
  repeat split; lra.
Qed.

Lemma envelope_contains (boxes : list FusionRecord) (box : Box) :
  contains (envelope box boxes) box
  /\ Forall (fun b => contains (envelope box boxes) (f_box b)) boxes.
Proof.
  unfold envelope. revert box.
  induction boxes as [|b boxes IH]; intro box; simpl.
  - split; [apply contains_refl | constructor].
  - destruct (IH (merge_boxes box (f_box b))) as [Hm Hall].
    assert (Hb : contains (merge_boxes box (f_box b)) box)
      by (unfold contains, merge_boxes; simpl; repeat split; minmax_lra).
    assert (Ht : contains (merge_boxes box (f_box b)) (f_box b))
      by (unfold contains, merge_boxes; simpl; repeat split; minmax_lra).
    split; [|constructor; [|exact Hall]];
      eapply contains_trans; eassumption.
Qed.

Lemma envelope_least (outer : Box) (boxes : list FusionRecord) (box : Box) :
  contains outer box ->
  Forall (fun b => contains outer (f_box b)) boxes ->
  contains outer (envelope box boxes).
Proof.
  unfold envelope. intros Hbox Hall. revert box Hbox.
  induction Hall as [|b boxes Hb _ IH]; intros box Hbox; simpl;
    [assumption|].
  apply IH. unfold contains, merge_boxes in *. simpl.
  destruct Hbox as [A1 [A2 [A3 A4]]], Hb as [B1 [B2 [B3 B4]]].
  repeat split; minmax_lra.
Qed.

Lemma weighted_fold_bounds (outer : Box) (boxes : list FusionRecord) :
  Forall (fun b => 0 < f_score b) boxes ->
  Forall (fun b => contains outer (f_box b)) boxes ->
  forall (box : Box) (conf : Q),
    x1 outer * conf <= x1 box -> y1 outer * conf <= y1 box ->
    x2 box <= x2 outer * conf -> y2 box <= y2 outer * conf ->
    let box' :=
      fold_left (fun box b => box_add box (box_scale (f_score b) (f_box b)))
        boxes box in
    let conf' := fold_left Qplus (map f_score boxes) conf in
    x1 outer * conf' <= x1 box' /\ y1 outer * conf' <= y1 box'
    /\ x2 box' <= x2 outer * conf' /\ y2 box' <= y2 outer * conf'
    /\ conf <= conf' /\ (boxes <> [] -> conf < conf').
Proof.
  intros Hs Hall. induction Hs as [|b boxes Hb Hs IH]; intros box conf
    X1 Y1 X2 Y2; cbv zeta.
  - simpl. repeat split; try assumption; [apply Qle_refl | congruence].
  - inversion Hall as [|? ? Hc Hall']; subst.
    destruct Hc as [C1 [C2 [C3 C4]]].
    assert (P1 : 0 <= f_score b * (x1 (f_box b) - x1 outer))
      by (apply Qmult_le_0_compat; lra).
    assert (P2 : 0 <= f_score b * (y1 (f_box b) - y1 outer))
      by (apply Qmult_le_0_compat; lra).
    assert (P3 : 0 <= f_score b * (x2 outer - x2 (f_box b)))
      by (apply Qmult_le_0_compat; lra).
    assert (P4 : 0 <= f_score b * (y2 outer - y2 (f_box b)))
      by (apply Qmult_le_0_compat; lra).
    cbn [fold_left map].
    destruct (IH Hall' (box_add box (box_scale (f_score b) (f_box b)))
                (conf + f_score b)) as [R1 [R2 [R3 [R4 [R5 _]]]]];
      unfold box_add, box_scale; cbn [x1 y1 x2 y2]; try lra.
    repeat split; try assumption; try lra.
Qed.

(** X17.  The box that a merge policy gives a cluster lies inside every
    box that contains all the members of the cluster.  With the [biggest]
    policy it also contains every member, so it is the least box around
    the cluster; with the [weighted] policy this holds when the scores are
    positive (the box is then their weighted mean). *)
Theorem merged_box_between (boxes : list FusionRecord) (ct : conf_type)
  (mt : merge_type) (r : FusionRecord) (outer : Box) :
  match mt with
  | Weighted => get_weighted_box boxes ct
  | Biggest => get_biggest_box boxes ct
  end = Ok r ->
  (mt = Weighted -> Forall (fun b => 0 < f_score b) boxes) ->
  Forall (fun b => contains outer (f_box b)) boxes ->
  contains outer (f_box r)
  /\ (mt = Biggest ->
      Forall (fun b => contains (f_box r) (f_box b)) boxes).
Proof.
  intros H Hs Hall. destruct mt.
  - split; [|discriminate]. specialize (Hs eq_refl).
    unfold get_weighted_box in H. rewrite weighted_fold in H.
    cbv beta iota in H.
    apply bind_Ok in H. destruct H as [label [Hlab H]].
    apply bind_Ok in H. destruct H as [conf' [_ H]].
    injection H as <-. cbn [f_box].
    assert (Hne : boxes <> []).
    { intro E. subst boxes. discriminate. }
    destruct (weighted_fold_bounds outer boxes Hs Hall (mkBox 0 0 0 0) 0)
      as [R1 [R2 [R3 [R4 [_ R5]]]]]; cbn [x1 y1 x2 y2]; try lra.
    specialize (R5 Hne).
    set (box := fold_left _ boxes (mkBox 0 0 0 0)) in *.
    set (conf := fold_left Qplus (map f_score boxes) 0) in *.
    clearbody box conf.
    unfold contains, box_div. cbn [x1 y1 x2 y2]. repeat split.
    + now apply Qle_shift_div_l.
    + now apply Qle_shift_div_l.
    + now apply Qle_shift_div_r.
    + now apply Qle_shift_div_r.
  - destruct boxes as [|m0 rest]; [discriminate|].
    unfold get_biggest_box in H. cbn [getitem nth_error bind] in H.
    rewrite biggest_fold in H. cbv beta iota in H.
    apply bind_Ok in H. destruct H as [label [_ H]].
    apply bind_Ok in H. destruct H as [conf [_ H]].
    apply Ok_inj in H. subst r. cbn [f_box]. split.
    + apply envelope_least; [|assumption]. now inversion Hall.
    + intros _. apply envelope_contains.
Qed.

Lemma merged_box_between_witness :
  exists r,
    get_weighted_box sample_bucket Max = Ok r
    /\ contains (mkBox 0 0 1 1) (f_box r).
Proof.
  eexists. split; [vm_compute; reflexivity|].
  eapply (merged_box_between sample_bucket Max Weighted _ (mkBox 0 0 1 1)).
  - vm_compute. reflexivity.
  - intros _. repeat constructor.
  - repeat constructor; vm_compute; discriminate.
Defined.

(** ** The fusion engine without [class_agnostic]: the boxes of a label *)

Lemma bucket_append_label_count (l : Z) (k : bucket_key) (r : FusionRecord)
  (d : buckets) :
  label_count l (flat_map snd (bucket_append k r d))
  = (label_count l (flat_map snd d) + label_count l [r])%nat.
Proof.
  unfold label_count. induction d as [|[k' rs] d IH].
  - simpl. destruct (Z.eqb l (f_label r)); simpl; lia.
  - cbn [bucket_append]. destruct (key_eqb k k').
    + cbn [flat_map snd]. rewrite !filter_app, !length_app. lia.
    + cbn [flat_map snd]. rewrite !filter_app, !length_app, IH. lia.
Qed.

Lemma prefilter_rows_label_count (l : Z) (t : nat) (weights : list Q)
  (thr : Q) (class_agnostic : bool) (boxes : list Box) :
  forall (scores : list Q) (labels : list Z) (d d' : buckets),
    prefilter_rows t weights thr class_agnostic d boxes scores labels
    = Ok d' ->
    (label_count l (flat_map snd d')
     <= label_count l (flat_map snd d) + length (filter (Z.eqb l) labels))%nat.
Proof.
  induction boxes as [|b boxes IH]; intros scores labels d d' Hr.
  { simpl in Hr. apply Ok_inj in Hr. subst d'. lia. }
  destruct scores as [|s scores];
    [simpl in Hr; apply Ok_inj in Hr; subst d'; lia|].
  destruct labels as [|lab labels];
    [simpl in Hr; apply Ok_inj in Hr; subst d'; simpl; lia|].
  cbn [prefilter_rows] in Hr. apply bind_Ok in Hr.
  destruct Hr as [d1 [Hone Hr]]. apply IH in Hr.
  assert (H1 :
    (label_count l (flat_map snd d1)
     <= label_count l (flat_map snd d)
        + (if Z.eqb l lab then 1 else 0))%nat).
  { unfold prefilter_one in Hone.
    destruct (Qlt_bool s thr); [apply Ok_inj in Hone; subst d1; lia|].
    cbv zeta in Hone.
    destruct (Qeq_bool _ 0); [apply Ok_inj in Hone; subst d1; lia|].
    apply bind_Ok in Hone. destruct Hone as [weight [_ Hone]].
    apply Ok_inj in Hone. subst d1.
    rewrite bucket_append_label_count. unfold label_count.
    cbn [filter f_label]. destruct (Z.eqb l lab); simpl; lia. }
  cbn [filter]. destruct (Z.eqb l lab); simpl in *; lia.
Qed.

Lemma skipn_nth_error {A : Type} (l : list A) (t : nat) (x : A) :
  nth_error l t = Some x -> skipn t l = x :: skipn (S t) l.
Proof.
  revert l. induction t as [|t IH]; intros [|a l] H; try discriminate.
  - now injection H as ->.
  - simpl in H. cbn [skipn]. now apply IH.
Qed.

Lemma prefilter_models_label_count (l : Z) (scores : list (list Q))
  (labels : list (list Z)) (weights : list Q) (thr : Q)
  (class_agnostic : bool) (boxes : list (list Box)) :
  forall (t : nat) (d d' : buckets),
    prefilter_models t boxes scores labels weights thr class_agnostic d
    = Ok d' ->
    (label_count l (flat_map snd d')
     <= label_count l (flat_map snd d)
        + length (filter (Z.eqb l) (concat (skipn t labels))))%nat.
Proof.
  induction boxes as [|bt boxes IH]; intros t d d' Hm; simpl in Hm.
  - apply Ok_inj in Hm. subst d'. lia.
  - apply bind_Ok in Hm. destruct Hm as [st [_ Hm]].
    destruct (negb (length bt =? length st)%nat); [discriminate|].
    apply bind_Ok in Hm. destruct Hm as [lt [Hlt Hm]].
    destruct (negb (length bt =? length lt)%nat); [discriminate|].
    apply bind_Ok in Hm. destruct Hm as [d1 [Hd1 Hm]].
    apply getitem_Ok in Hlt. rewrite (skipn_nth_error _ _ _ Hlt).
    cbn [concat]. rewrite filter_app, length_app.
    apply IH in Hm.
    assert (H1 : (label_count l (flat_map snd d1)
                  <= label_count l (flat_map snd d)
                     + length (filter (Z.eqb l) lt))%nat).
    { exact (prefilter_rows_label_count l t weights thr class_agnostic bt
               st lt d d1 Hd1). }
    lia.
Qed.

Lemma filter_length_insert (p : FusionRecord -> bool) (x : FusionRecord)
  (l : list FusionRecord) :
  length (filter p (insert_by_score x l)) = length (filter p (x :: l)).
Proof.
  induction l as [|y l IH]; [reflexivity|].
  cbn [insert_by_score].
  destruct (Qle_bool (f_score x) (f_score y)); [reflexivity|].
  cbn [filter] in *. destruct (p y), (p x); simpl in *; lia.
Qed.

Lemma sort_by_score_desc_count (p : FusionRecord -> bool)
  (l : list FusionRecord) :
  length (filter p (sort_by_score_desc l)) = length (filter p l).
Proof.
  unfold sort_by_score_desc, sort_by_score.
  rewrite filter_rev, length_rev.
  induction l as [|x l IH]; [reflexivity|].
  cbn [fold_right]. rewrite filter_length_insert.
  cbn [filter]. destruct (p x); simpl; lia.
Qed.

Lemma prefilter_boxes_label_count (l : Z) (boxes : list (list Box))
  (scores : list (list Q)) (labels : list (list Z)) (weights : list Q)
  (thr : Q) (class_agnostic : bool) (d : buckets) :
  prefilter_boxes boxes scores labels weights thr class_agnostic = Ok d ->
  (label_count l (flat_map snd d)
   <= length (filter (Z.eqb l) (concat labels)))%nat.
Proof.
  unfold prefilter_boxes. intro H.
  apply bind_Ok in H. destruct H as [d0 [Hd0 H]]. apply Ok_inj in H.
  subst d. apply (prefilter_models_label_count l) in Hd0.
  cbn [skipn flat_map] in Hd0. unfold label_count in *. simpl in Hd0.
  etransitivity; [|exact Hd0].
  clear Hd0. induction d0 as [|[k rs] d0 IH]; [simpl; lia|].
  cbn [map flat_map snd]. rewrite !filter_app, !length_app.
  rewrite sort_by_score_desc_count. lia.
Qed.

Lemma merge_cluster_label (k : Z) (boxes : list FusionRecord)
  (weights : list Q) (ct : conf_type) (mt : merge_type) (c : list nat)
  (r : FusionRecord) :
  Forall (fun b => f_label b = k) boxes ->
  merge_cluster boxes weights ct mt c = Ok r ->
  f_label r = k.
Proof.
  intros Hall H. unfold merge_cluster in H.
  apply bind_Ok in H. destruct H as [members [Hm H]].
  apply bind_Ok in H. destruct H as [weighted_box [Hw H]].
  assert (Hmem : Forall (fun b => f_label b = k) members).
  { apply take_rows_In in Hm. destruct Hm as [_ Hm].
    rewrite Forall_forall in *. intros b Hb. apply Hall. now apply Hm. }
  assert (Hlab : forall label,
             merge_labels (map f_label members) (map f_score members)
             = Ok label -> label = k).
  { intros label Hl. destruct members as [|m0 rest]; [discriminate|].
    rewrite (merge_labels_uniform k) in Hl.
    - now injection Hl.
    - discriminate.
    - apply Forall_map. eapply Forall_impl; [|exact Hmem].
      intros b Hb. now symmetry. }
  assert (Hwl : f_label weighted_box = k).
  { destruct mt.
    - unfold get_weighted_box in Hw. rewrite weighted_fold in Hw.
      cbv beta iota in Hw.
      apply bind_Ok in Hw. destruct Hw as [label [Hl Hw]].
      apply bind_Ok in Hw. destruct Hw as [conf [_ Hw]].
      apply Ok_inj in Hw. subst weighted_box. now apply Hlab.
    - destruct members as [|m0 rest]; [discriminate|].
      unfold get_biggest_box in Hw. cbn [getitem nth_error bind] in Hw.
      rewrite biggest_fold in Hw. cbv beta iota in Hw.
      apply bind_Ok in Hw. destruct Hw as [label [Hl Hw]].
      apply bind_Ok in Hw. destruct Hw as [conf [_ Hw]].
      apply Ok_inj in Hw. subst weighted_box. now apply Hlab. }
  destruct ct.
  - apply Ok_inj in H. subst r. exact Hwl.
  - apply bind_Ok in H. destruct H as [m [_ H]].
    apply Ok_inj in H. subst r. exact Hwl.
Qed.

Lemma label_count_uniform (l k : Z) (rs : list FusionRecord) :
  Forall (fun b => f_label b = k) rs ->
  label_count l rs = if Z.eqb l k then length rs else 0%nat.
Proof.
  unfold label_count. induction 1 as [|r rs Hr _ IH]; simpl.
  - now destruct (Z.eqb l k).
  - rewrite Hr. destruct (Z.eqb l k); simpl; lia.
Qed.

Lemma fuse_bucket_label_count (l k : Z) (weights : list Q) (iou_thr : Q)
  (ct : conf_type) (mt : merge_type) (boxes merged : list FusionRecord) :
  Forall (fun b => f_label b = k) boxes ->
  fuse_bucket weights iou_thr ct mt boxes = Ok merged ->
  Forall (fun b => f_label b = k) merged
  /\ (label_count l merged <= label_count l boxes)%nat.
Proof.
  intros Hall H. unfold fuse_bucket in H.
  apply bind_Ok in H. destruct H as [clusters [Hc H]].
  assert (Hm : Forall (fun b => f_label b = k) merged).
  { apply mapM_Ok_Forall2 in H. clear Hc.
    induction H as [|c r cs rs Hr _ IH]; constructor; [|exact IH].
    exact (merge_cluster_label k boxes weights ct mt c r Hall Hr). }
  split; [exact Hm|].
  rewrite (label_count_uniform l k merged Hm).
  rewrite (label_count_uniform l k boxes Hall).
  destruct (Z.eqb l k); [|lia].
  apply mapM_length in H. unfold clusterize in Hc.
  apply clusterize_from_covers in Hc. destruct Hc as [_ [_ Hlen]].
  rewrite length_seq in Hlen. simpl in Hlen. lia.
Qed.

Lemma fuse_buckets_label_count (l : Z) (weights : list Q) (iou_thr : Q)
  (ct : conf_type) (mt : merge_type) (d : buckets)
  (out : list FusionRecord) :
  Forall (fun kb => Forall (fun r => fst kb = Some (f_label r)) (snd kb)) d ->
  fuse_buckets weights iou_thr ct mt d = Ok out ->
  (label_count l out <= label_count l (flat_map snd d))%nat
  /\ Forall (fun r => In (Some (f_label r)) (map fst d)) out.
Proof.
  intro Hd. revert out.
  induction Hd as [|[k boxes] d Hkb _ IH]; intros out H; simpl in H.
  - apply Ok_inj in H. subst out. split; [simpl; lia | constructor].
  - apply bind_Ok in H. destruct H as [merged [Hm H]].
    apply bind_Ok in H. destruct H as [others [Ho H]].
    apply Ok_inj in H. subst out.
    destruct (IH _ Ho) as [IHc IHl]. simpl in Hkb.
    assert (Hmerged : (label_count l merged <= label_count l boxes)%nat
                      /\ Forall (fun r => k = Some (f_label r)) merged).
    { destruct boxes as [|b0 boxes'].
      - unfold fuse_bucket in Hm. simpl in Hm. apply Ok_inj in Hm.
        subst merged. split; [simpl; lia | constructor].
      - assert (Hu : Forall (fun b => f_label b = f_label b0)
                       (b0 :: boxes')).
        { inversion Hkb as [|? ? H0 _]; subst.
          eapply Forall_impl; [|exact Hkb].
          intros b Hb. simpl in Hb. congruence. }
        destruct (fuse_bucket_label_count l (f_label b0) _ _ _ _ _ _ Hu Hm)
          as [Hml Hmc].
        split; [exact Hmc|].
        inversion Hkb as [|? ? H0 _]; subst.
        eapply Forall_impl; [|exact Hml].
        intros r Hr. simpl in Hr. congruence. }
    destruct Hmerged as [Hmc Hml]. split.
    + unfold label_count in *. cbn [flat_map snd].
      rewrite !filter_app, !length_app. lia.
    + apply Forall_app. split.
      * eapply Forall_impl; [|exact Hml].
        intros r Hr. simpl. left. now symmetry.
      * eapply Forall_impl; [|exact IHl].
        intros r Hr. simpl. now right.
Qed.

Lemma prefilter_boxes_keys (boxes : list (list Box)) (scores : list (list Q))
  (labels : list (list Z)) (weights : list Q) (thr : Q) (d : buckets) :
  prefilter_boxes boxes scores labels weights thr false = Ok d ->
  Forall (fun kb => Forall (fun r => fst kb = Some (f_label r)) (snd kb)) d
  /\ Forall (fun kb => exists k, fst kb = Some k /\ In k (concat labels)) d.
Proof.
  intro H. apply prefilter_boxes_all in H. destruct H as [H _]. split.
  - eapply Forall_impl; [|exact H]. intros kb [_ [_ Hall]].
    eapply Forall_impl; [|exact Hall]. intros r [Hp _].
    destruct Hp as (t & j & bt & st & lt & w & b & s & lab & _ & _ & _
                    & _ & _ & _ & _ & _ & _ & Hr & Hk).
    rewrite Hr. exact Hk.
  - eapply Forall_impl; [|exact H]. intros [k0 rs0] [Hne [_ Hall]].
    simpl in *. destruct rs0 as [|r rs]; [congruence|].
    inversion Hall as [|? ? [Hp _] _]; subst.
    destruct Hp as (t & j & bt & st & lt & w & b & s & lab & _ & _ & Hl
                    & _ & _ & _ & Hj & _ & _ & _ & Hk).
    exists lab. split; [exact Hk|].
    apply in_concat. exists lt. split; eapply nth_error_In; eassumption.
Qed.

Lemma filter_map_length {A B : Type} (p : B -> bool) (f : A -> B)
  (l : list A) :
  length (filter p (map f l)) = length (filter (fun a => p (f a)) l).
Proof.
  induction l as [|a l IH]; [reflexivity|].
  simpl. destruct (p (f a)); simpl; now rewrite IH.
Qed.

(** X18.  Without [class_agnostic], [weighted_boxes_fusion] merges label
    by label: every label it returns is the label of an input box, and for
    every label it returns at most as many boxes as it was given with that
    label. *)
Theorem weighted_boxes_fusion_per_label (boxes_list : list (list Box))
  (scores_list : list (list Q)) (labels_list : list (list Z))
  (iou_thr skip_box_thr : Q) (ct : conf_type) (mt : merge_type)
  (boxes : list Box) (scores : list Q) (labels : list Z) :
  weighted_boxes_fusion boxes_list scores_list labels_list iou_thr
    skip_box_thr ct mt false
  = Ok (boxes, scores, labels) ->
  Forall (fun l => In l (concat labels_list)) labels
  /\ forall l,
       (length (filter (Z.eqb l) labels)
        <= length (filter (Z.eqb l) (concat labels_list)))%nat.
Proof.
  unfold weighted_boxes_fusion. cbv zeta. intro H.
  apply bind_Ok in H. destruct H as [filtered_boxes [Hf H]].
  destruct (length filtered_boxes =? 0)%nat.
  { injection H as <- <- <-. split; [constructor | intro l; simpl; lia]. }
  apply bind_Ok in H. destruct H as [overall_boxes [Ho H]].
  injection H as <- <- <-.
  destruct (prefilter_boxes_keys _ _ _ _ _ _ Hf) as [Hkeys Hin].
  split.
  - apply Forall_map. apply sort_by_score_desc_Forall.
    destruct (fuse_buckets_label_count 0 _ _ _ _ _ _ Hkeys Ho) as [_ Hl].
    eapply Forall_impl; [|exact Hl]. intros r Hr. simpl in Hr.
    apply in_map_iff in Hr. destruct Hr as [kb [Hk Hkb]].
    rewrite Forall_forall in Hin. destruct (Hin kb Hkb) as [k [Hk' Hc]].
    assert (E : Some k = Some (f_label r))
      by (transitivity (fst kb); [now symmetry | exact Hk]).
    injection E as <-. exact Hc.
  - intro l. rewrite filter_map_length.
    rewrite (sort_by_score_desc_count (fun r => Z.eqb l (f_label r))).
    destruct (fuse_buckets_label_count l _ _ _ _ _ _ Hkeys Ho) as [Hc _].
    apply (prefilter_boxes_label_count l) in Hf.
    unfold label_count in *. lia.
Qed.

Lemma weighted_boxes_fusion_per_label_witness :
  exists boxes scores labels,
    weighted_boxes_fusion (fst (fst sample_two_models))
      (snd (fst sample_two_models)) (snd sample_two_models) 0.2 0 Max
      Weighted false
    = Ok (boxes, scores, labels)
    /\ Forall (fun l => In l (concat (snd sample_two_models))) labels.
Proof.
  do 3 eexists. split; [vm_compute; reflexivity|].
  eapply (weighted_boxes_fusion_per_label (fst (fst sample_two_models))
            (snd (fst sample_two_models)) (snd sample_two_models) 0.2 0 Max
            Weighted).
  vm_compute. reflexivity.
Defined.

(** ** Chart and title fusion: the charts returned *)

Lemma map2_mkDet_confidence (boxes : list Box) (confs : list Q) :
  Forall (fun d => In (confidence d) confs) (map2 mkDet boxes confs)
  /\ (length (map2 mkDet boxes confs) <= length confs)%nat.
Proof.
  revert confs. induction boxes as [|b boxes IH]; intros [|c confs]; simpl;
    try (split; [constructor | lia]).
  destruct (IH confs) as [H1 H2]. split; [|lia].
  constructor; [now left|].
  eapply Forall_impl; [|exact H1]. intros d Hd. now right.
Qed.

Lemma np_mask_length_le {A B : Type} (p : B -> bool) (ls : list B)
  (arr : list A) :
  (length (np_mask arr (map p ls)) <= length (filter p ls))%nat.
Proof.
  revert arr. induction ls as [|x ls IH]; intros [|a arr]; simpl; try lia.
  specialize (IH arr). destruct (p x); simpl; lia.
Qed.

Lemma fuse_annotations_charts (a : AnnotationSet) (pred_wbf : list Box)
  (confidences_wbf : list Q) (labels_wbf : list Z) :
  fuse_annotations a = Ok (pred_wbf, confidences_wbf, labels_wbf) ->
  (length (filter (Z.eqb 1) labels_wbf) <= length (chart a))%nat
  /\ StronglySorted (fun x y => y <= x) confidences_wbf.
Proof.
  unfold fuse_annotations. rewrite concat_annotations_eq.
  set (all := table a ++ chart a ++ title a).
  set (ls := repeat 0%Z (length (table a)) ++ repeat 1%Z (length (chart a))
               ++ repeat 2%Z (length (title a))).
  unfold weighted_boxes_fusion. cbv zeta. intro H.
  apply bind_Ok in H. destruct H as [filtered_boxes [Hf H]].
  destruct (length filtered_boxes =? 0)%nat.
  { injection H as <- <- <-. split; [simpl; lia | constructor]. }
  apply bind_Ok in H. destruct H as [overall_boxes [Ho H]].
  injection H as <- <- <-.
  destruct (prefilter_boxes_keys _ _ _ _ _ _ Hf) as [Hkeys _].
  split.
  - rewrite filter_map_length.
    rewrite (sort_by_score_desc_count (fun r => Z.eqb 1 (f_label r))).
    destruct (fuse_buckets_label_count 1 _ _ _ _ _ _ Hkeys Ho) as [Hc _].
    apply (prefilter_boxes_label_count 1) in Hf.
    unfold label_count in *.
    assert (E : length (filter (Z.eqb 1) (concat (map (fun l => [l]) ls)))
                = length (chart a)).
    { assert (Ec : concat (map (fun l : Z => [l]) ls) = ls).
      { clear. induction ls as [|x l IH]; simpl; [reflexivity|].
        now rewrite IH. }
      rewrite Ec. unfold ls. rewrite !filter_app, !length_app.
      assert (R : forall (v : Z) m,
                 length (filter (Z.eqb 1) (repeat v m))
                 = if Z.eqb 1 v then m else 0%nat).
      { intros v m. induction m as [|m IH]; cbn [repeat filter length].
        - now destruct (Z.eqb 1 v).
        - destruct (Z.eqb 1 v); cbn [length]; lia. }
      rewrite !R. simpl. lia. }
    lia.
  - apply StronglySorted_map. apply sort_by_score_desc_sorted.
Qed.

Lemma np_mask_sorted {A : Type} (R : A -> A -> Prop) (arr : list A)
  (mask : list bool) :
  StronglySorted R arr -> StronglySorted R (np_mask arr mask).
Proof.
  intro H. revert mask.
  induction H as [|x arr Hs IH Hx]; intros [|m mask]; simpl;
    try constructor.
  destruct m; [|apply IH].
  constructor; [apply IH | now apply np_mask_Forall].
Qed.

Lemma map2_mkDet_sorted (R : Q -> Q -> Prop) (boxes : list Box)
  (confs : list Q) :
  StronglySorted R confs ->
  StronglySorted R (map confidence (map2 mkDet boxes confs)).
Proof.
  intro H. revert boxes.
  induction H as [|c confs Hs IH Hc]; intros [|b boxes]; simpl;
    try constructor.
  - apply IH.
  - destruct (map2_mkDet_confidence boxes confs) as [Hin _].
    apply Forall_map. eapply Forall_impl; [|exact Hin].
    intros d Hd. simpl in Hd. rewrite Forall_forall in Hc. now apply Hc.
Qed.

Lemma expand_chart_bboxes_chart (a out : AnnotationSet) :
  expand_chart_bboxes a = Ok out ->
  (out = a /\ chart a = [])
  \/ exists pred_wbf confidences_wbf labels_wbf chart_bboxes,
       fuse_annotations a = Ok (pred_wbf, confidences_wbf, labels_wbf)
       /\ chart out
          = map2 mkDet chart_bboxes
              (np_mask confidences_wbf (map (Z.eqb 1) labels_wbf)).
Proof.
  unfold expand_chart_bboxes.
  destruct (length (chart a) =? 0)%nat eqn:E.
  { intro H. injection H as <-. left. split; [reflexivity|].
    apply Nat.eqb_eq in E. now apply length_zero_iff_nil. }
  intro H. right. apply bind_Ok in H.
  destruct H as [[[pred_wbf confidences_wbf] labels_wbf] [Hfuse H]].
  cbv zeta beta iota in H.
  apply bind_Ok in H. destruct H as [st [_ H]].
  apply bind_Ok in H. destruct H as [found [_ H]].
  apply bind_Ok in H. destruct H as [charts1 [_ H]].
  apply bind_Ok in H. destruct H as [no_found [_ H]].
  apply bind_Ok in H. destruct H as [charts2 [_ H]].
  apply Ok_inj in H. subst out. cbn [chart].
  exists pred_wbf, confidences_wbf, labels_wbf, charts2. auto.
Qed.

Lemma expand_chart_bboxes_chart_length (a out : AnnotationSet) :
  expand_chart_bboxes a = Ok out ->
  (length (chart out) <= length (chart a))%nat.
Proof.
  intro H. apply expand_chart_bboxes_chart in H.
  destruct H as [[-> _]|[pred_wbf [confidences_wbf [labels_wbf [charts2
                                                             [Hfuse ->]]]]]];
    [lia|].
  apply fuse_annotations_charts in Hfuse. destruct Hfuse as [Hcount _].
  destruct (map2_mkDet_confidence charts2
              (np_mask confidences_wbf (map (Z.eqb 1) labels_wbf)))
    as [_ Hlen].
  pose proof (np_mask_length_le (Z.eqb 1) labels_wbf confidences_wbf).
  lia.
Qed.

(** X19.  [expand_chart_bboxes] invents no chart: it returns at most as
    many charts as it received.  It returns them in the order of the
    fusion, the most confident first, whatever their order in the
    dictionary received. *)
Theorem expand_chart_bboxes_charts (a out : AnnotationSet) :
  expand_chart_bboxes a = Ok out ->
  (length (chart out) <= length (chart a))%nat
  /\ StronglySorted (fun x y => y <= x) (map confidence (chart out)).
Proof.
  intro H. split; [now apply expand_chart_bboxes_chart_length|].
  apply expand_chart_bboxes_chart in H.
  destruct H as [[-> ->]|[pred_wbf [confidences_wbf [labels_wbf [charts2
                                                             [Hfuse ->]]]]]].
  { constructor. }
  apply fuse_annotations_charts in Hfuse. destruct Hfuse as [_ Hsorted].
  apply map2_mkDet_sorted. now apply np_mask_sorted.
Qed.

Lemma expand_chart_bboxes_charts_witness :
  exists out,
    expand_chart_bboxes sample_two_charts = Ok out
    /\ map confidence (chart out) = [0.75; 0.5]
    /\ (length (chart out) <= length (chart sample_two_charts))%nat
    /\ StronglySorted (fun x y => y <= x) (map confidence (chart out)).
Proof.
  eexists. split; [vm_compute; reflexivity|]. split; [reflexivity|].
  apply (expand_chart_bboxes_charts sample_two_charts).
  vm_compute. reflexivity.
Defined.

(** ** The pipeline, image by image *)

Lemma expand_table_bboxes_chart_length (a : AnnotationSet) :
  length (chart (expand_table_bboxes a)) = length (chart a).
Proof.
  destruct (table a) as [|d ds] eqn:E.
  - unfold expand_table_bboxes. now rewrite E.
  - rewrite expand_table_bboxes_maps by (rewrite E; discriminate).
    simpl. apply length_map.
Qed.

(** X20.  [process_inference_results] works image by image.  It returns
    one dictionary per annotation dictionary it was given (HTTP), or per
    image of the tensor that has a shape (gRPC): without shapes the gRPC
    answer is empty.  In the dictionary of an image the tables are the
    expanded tables at or above [final_thresh] (the fusion does not touch
    them), the titles are not filtered, and the charts are at or above
    [final_thresh] and no more than the image had. *)
Theorem process_inference_results_per_image
  (nms : list Box -> list Q -> Q -> list nat)
  (batched_nms : list Box -> list Q -> list Q -> Q -> list nat)
  (output : model_output) (original_image_shapes : list (list nat))
  (num_classes : nat) (conf_thresh iou_thresh min_score final_thresh : Q)
  (out : list AnnotationSet) :
  process_inference_results nms batched_nms output original_image_shapes
    num_classes conf_thresh iou_thresh min_score final_thresh
  = Ok out ->
  exists results,
    match output with
    | Http output => Ok output
    | Grpc output =>
        pred <- postprocess_model_prediction nms batched_nms output
                  num_classes conf_thresh iou_thresh true ;;
        postprocess_results pred original_image_shapes min_score
    end = Ok results
    /\ length results
       = match output with
         | Http output => length output
         | Grpc output =>
             Nat.min (length original_image_shapes)
               (length (t_images output))
         end
    /\ Forall2 (image_result final_thresh) results out.
Proof.
  unfold process_inference_results. intro H.
  apply bind_Ok in H. destruct H as [results [Hres H]].
  cbv zeta in H.
  apply bind_Ok in H. destruct H as [annotation_dicts [Hd H]].
  apply Ok_inj in H. subst out.
  exists results. split; [exact Hres|]. split.
  - destruct output as [o|t].
    + now injection Hres as ->.
    + apply bind_Ok in Hres. destruct Hres as [pred [Hp Hres]].
      unfold postprocess_results in Hres. apply mapM_length in Hres.
      rewrite length_combine in Hres.
      unfold postprocess_model_prediction in Hp.
      destruct (t_ncols t <? 4)%nat; [discriminate|].
      apply mapM_length in Hp. lia.
  - apply mapM_Ok_Forall2 in Hd. apply Forall2_map_l_iff in Hd.
    apply Forall2_map_right.
    eapply Forall2_impl; [|exact Hd].
    intros a o Ho. simpl in Ho.
    destruct (expand_chart_bboxes_ok (expand_table_bboxes a))
      as [o' [Ho' [Htab [Htit _]]]].
    rewrite Ho in Ho'. apply Ok_inj in Ho'. subst o'.
    unfold image_result, final_filter. cbn [table chart title].
    rewrite Htab, Htit. repeat split.
    + etransitivity; [apply filter_length_le|].
      rewrite <- (expand_table_bboxes_chart_length a).
      now apply expand_chart_bboxes_chart_length.
    + apply Forall_forall. intros d Hd'. apply filter_In in Hd'.
      destruct Hd' as [_ Hd']. now apply Qle_bool_iff in Hd'.
Qed.

Lemma process_inference_results_per_image_witness :
  exists out,
    process_inference_results keep_all keep_all_batched
      (Http [sample_no_table]) [] 3 0.01 0.5 0.1 0.48
    = Ok out
    /\ exists results,
         Ok [sample_no_table] = Ok results
         /\ length results = length [sample_no_table]
         /\ Forall2 (image_result 0.48) results out.
Proof.
  eexists. split; [vm_compute; reflexivity|].
  apply (process_inference_results_per_image keep_all keep_all_batched
           (Http [sample_no_table]) [] 3 0.01 0.5 0.1 0.48).
  vm_compute. reflexivity.
Defined.

(** ** Chart and title fusion: the loop over the charts *)

Lemma title_match_shrinks (chart_bbox : Box) (pool : list Box) (b : Box)
  (pool' : list Box) :
  title_match chart_bbox pool (Some (b, pool')) ->
  (length pool' < length pool)%nat
  /\ (forall t, In t pool' -> In t pool)
  /\ contains b chart_bbox.
Proof.
  intro H. inversion H as [Hex|pre t post Hsplit _ _ _ _|]; subst.
  - destruct Hex as [t [Ht Hiou]]. split; [|split].
    + apply Qlt_bool_iff in Hiou. clear H.
      induction pool as [|u pool IH]; [contradiction|].
      destruct Ht as [->|Ht]; cbn [filter].
      * rewrite Hiou. cbn [negb length].
        pose proof (filter_length_le
                      (fun t => negb (Qlt_bool 0.01 (bb_iou t chart_bbox)))
                      pool).
        lia.
      * specialize (IH Ht).
        destruct (negb (Qlt_bool 0.01 (bb_iou u chart_bbox)));
          cbn [length]; lia.
    + intros u Hu. apply filter_In in Hu. tauto.
    + apply fold_merge_boxes_contains.
  - split; [|split].
    + rewrite !length_app. simpl. lia.
    + intros u Hu. apply in_app_or in Hu. apply in_or_app.
      destruct Hu; [now left | right; now right].
    + unfold contains, merge_boxes; simpl. repeat split; minmax_lra.
Qed.

Lemma match_step_assignment (st st' : match_state) (i : nat) :
  match_step st i = Ok st' ->
  Permutation (st_found_title_idxs st' ++ st_no_found_title_idxs st')
    ((st_found_title_idxs st ++ st_no_found_title_idxs st) ++ [i])
  /\ (length (st_found_title_idxs st') + length (st_title_bboxes st')
      <= length (st_found_title_idxs st) + length (st_title_bboxes st))%nat
  /\ (forall t, In t (st_title_bboxes st') -> In t (st_title_bboxes st))
  /\ length (st_chart_bboxes st') = length (st_chart_bboxes st).
Proof.
  unfold match_step. intro H.
  apply bind_Ok in H. destruct H as [chart_i [_ H]].
  apply bind_Ok in H. destruct H as [m [Hm H]].
  destruct (match_with_title_matches chart_i (st_title_bboxes st))
    as [m' [Hm' Hmatch]].
  rewrite Hm in Hm'. apply Ok_inj in Hm'. subst m'.
  destruct m as [[new_bbox remaining]|]; apply Ok_inj in H; subst st';
    cbn [st_found_title_idxs st_no_found_title_idxs st_title_bboxes
         st_chart_bboxes].
  - apply title_match_shrinks in Hmatch. destruct Hmatch as [Hlt [Hin _]].
    repeat split.
    + rewrite <- !app_assoc. apply Permutation_app_head.
      apply Permutation_app_comm.
    + rewrite length_app. simpl. lia.
    + exact Hin.
    + apply setitem_length.
  - repeat split; auto. now rewrite app_assoc.
Qed.

(** X21.  The loop of [expand_chart_bboxes] over the charts records every
    chart exactly once, either as matched with a title or as not matched,
    and never gives a title to two charts: each matched chart takes at
    least one title out of the pool, the titles left are titles of the
    pool, and the number of chart boxes does not change. *)
Theorem match_loop_assignment (idxs : list nat) (st st' : match_state) :
  match_loop st idxs = Ok st' ->
  Permutation (st_found_title_idxs st' ++ st_no_found_title_idxs st')
    ((st_found_title_idxs st ++ st_no_found_title_idxs st) ++ idxs)
  /\ (length (st_found_title_idxs st') + length (st_title_bboxes st')
      <= length (st_found_title_idxs st) + length (st_title_bboxes st))%nat
  /\ (forall t, In t (st_title_bboxes st') -> In t (st_title_bboxes st))
  /\ length (st_chart_bboxes st') = length (st_chart_bboxes st).
Proof.
  revert st. induction idxs as [|i idxs IH]; intros st H; simpl in H.
  - apply Ok_inj in H. subst st'. rewrite app_nil_r. repeat split; auto.
  - apply bind_Ok in H. destruct H as [st1 [H1 H]].
    apply match_step_assignment in H1.
    destruct H1 as [P1 [L1 [T1 C1]]].
    destruct (IH _ H) as [P2 [L2 [T2 C2]]].
    repeat split.
    + etransitivity; [exact P2|].
      etransitivity; [apply Permutation_app_tail; exact P1|].
      rewrite <- app_assoc. reflexivity.
    + lia.
    + intros t Ht. apply T1. now apply T2.
    + congruence.
Qed.

Lemma match_loop_assignment_witness :
  exists st',
    match_loop
      (mkState [mkBox 0.2 0.2 0.6 0.4] [mkBox 0.2 0.05 0.6 0.18] [] [])
      [0%nat]
    = Ok st'
    /\ Permutation (st_found_title_idxs st' ++ st_no_found_title_idxs st')
         [0%nat].
Proof.
  eexists. split; [vm_compute; reflexivity|].
  eapply (match_loop_assignment [0%nat]
            (mkState [mkBox 0.2 0.2 0.6 0.4] [mkBox 0.2 0.05 0.6 0.18]
               [] [])).
  vm_compute. reflexivity.
Defined.

(** ** The normalizer: the batch *)

Lemma box_corner_length (r : list Q) :
  (4 <= length r)%nat -> length (box_corner r) = length r.
Proof.
  intro H. unfold box_corner. cbv zeta. rewrite length_app, length_skipn.
  simpl. lia.
Qed.

Lemma box_corner_row (cand : list Q) (score k : Q) :
  (5 <= length cand)%nat ->
  corner_of cand (firstn 5 (box_corner cand) ++ [score; k]).
Proof.
  intro H.
  destruct cand as [|cx [|cy [|w [|h [|obj rest]]]]]; simpl in H; try lia.
  unfold corner_of, box_corner. cbn.
  repeat split; try reflexivity; field.
Qed.

(** X22.  [postprocess_model_prediction] returns one entry per image of the
    batch, in order.  When the candidates have the width of the tensor,
    every row kept for an image describes a candidate of that image: its
    box is the corner form of the candidate's centre and size, so its
    width and height are those of the candidate, and its objectness is the
    candidate's. *)
Theorem postprocess_model_prediction_batch
  (nms : list Box -> list Q -> Q -> list nat)
  (batched_nms : list Box -> list Q -> list Q -> Q -> list nat)
  (prediction : Tensor3) (num_classes : nat) (conf_thre nms_thre : Q)
  (class_agnostic : bool) (out : list (option Array2)) :
  Forall (Forall (fun r => length r = t_ncols prediction))
    (t_images prediction) ->
  postprocess_model_prediction nms batched_nms prediction num_classes
    conf_thre nms_thre class_agnostic
  = Ok out ->
  Forall2 (fun image_pred o =>
             forall arr row,
               o = Some arr -> In row (rows arr) ->
               exists cand, In cand image_pred /\ corner_of cand row)
    (t_images prediction) out.
Proof.
  intros Hlen H. unfold postprocess_model_prediction in H.
  destruct (t_ncols prediction <? 4)%nat eqn:E4; [discriminate|].
  apply Nat.ltb_ge in E4.
  apply mapM_Ok_Forall2 in H.
  set (width := t_ncols prediction) in *. clearbody width.
  induction H as [|image_pred o imgs outs Ho _ IH]; [constructor|].
  inversion Hlen as [|? ? Hl Hls]; subst.
  constructor; [|now apply IH].
  intros arr row -> Hrow.
  unfold postprocess_image in Ho.
  destruct (length (map box_corner image_pred) =? 0)%nat; [discriminate|].
  cbv zeta in Ho.
  destruct (Nat.min (width - 5) num_classes =? 0)%nat eqn:Emin;
    [discriminate|].
  apply Nat.eqb_neq in Emin.
  apply bind_Ok in Ho. destruct Ho as [class_conf [Hcc Ho]].
  apply bind_Ok in Ho. destruct Ho as [class_pred [Hcp Ho]].
  match type of Ho with
  | (if ?c then _ else _) = _ => destruct c; [discriminate|]
  end.
  apply bind_Ok in Ho. destruct Ho as [detections [Hrows Ho]].
  injection Ho as <-. simpl in Hrow.
  apply take_rows_In in Hrows. destruct Hrows as [_ Hin].
  rewrite Forall_forall in Hin. apply Hin in Hrow.
  apply filter_In in Hrow. destruct Hrow as [Hrow _].
  clear Hin Hcc Hcp Hlen IH Hls.
  revert row Hrow. generalize (combine class_conf class_pred).
  induction Hl as [|cand image_pred Hc _ IHl]; intros l row Hrow;
    [contradiction|].
  destruct l as [|[cc cp] l]; [contradiction|].
  cbn [map map2] in Hrow. destruct Hrow as [<-|Hrow].
  - exists cand. split; [now left|]. apply box_corner_row. lia.
  - destruct (IHl l row Hrow) as [c [Hc' Hco]].
    exists c. split; [now right | exact Hco].
Qed.

Lemma postprocess_model_prediction_batch_witness :
  exists out,
    postprocess_model_prediction keep_all keep_all_batched sample_tensor 3
      0.01 0.5 true
    = Ok out
    /\ Forall2 (fun image_pred o =>
                  forall arr row,
                    o = Some arr -> In row (rows arr) ->
                    exists cand, In cand image_pred /\ corner_of cand row)
         (t_images sample_tensor) out.
Proof.
  eexists. split; [vm_compute; reflexivity|].
  apply (postprocess_model_prediction_batch keep_all keep_all_batched
           sample_tensor 3 0.01 0.5 true).
  - repeat constructor.
  - vm_compute. reflexivity.
Defined.

(** ** The gRPC path on a well-formed batch *)

Lemma kept_row_label (ncols num_classes : nat) (conf_thre : Q)
  (image_pred : list (list Q)) (row : list Q) :
  kept_row ncols num_classes conf_thre image_pred row ->
  exists k, (k < num_classes)%nat /\ nth 6 row 0 = inject_Z (Z.of_nat k).
Proof.
  intros [r [k [score [v [_ [Hrow [Hlen [Hk _]]]]]]]].
  exists k. split; [exact Hk|]. subst row.
  rewrite length_app in Hlen. cbn [length] in Hlen.
  assert (H5 : length (firstn 5 r) = 5%nat) by lia.
  rewrite app_nth2 by lia. rewrite H5. reflexivity.
Qed.

Lemma postprocess_image_total
  (nms : list Box -> list Q -> Q -> list nat)
  (batched_nms : list Box -> list Q -> list Q -> Q -> list nat)
  (width num_classes : nat) (conf_thre nms_thre : Q)
  (image_pred : list (list Q)) :
  (5 < width)%nat -> (0 < num_classes)%nat ->
  Forall (fun r => length r = width) image_pred ->
  (forall boxes scores thr,
      Forall (fun i => (i < length boxes)%nat) (nms boxes scores thr)) ->
  exists o,
    postprocess_image nms batched_nms width num_classes conf_thre nms_thre
      true image_pred
    = Ok o
    /\ forall arr,
         o = Some arr ->
         ncols arr = 7%nat
         /\ Forall (fun row =>
                      exists k, (k < num_classes)%nat
                                /\ nth 6 row 0 = inject_Z (Z.of_nat k))
              (rows arr).
Proof.
  intros Hc Hn Hall Hnms. unfold postprocess_image.
  destruct (length image_pred =? 0)%nat.
  { exists None. split; [reflexivity | discriminate]. }
  cbv zeta.
  assert (Hmin : (Nat.min (width - 5) num_classes =? 0)%nat = false)
    by (apply Nat.eqb_neq; lia).
  rewrite Hmin.
  assert (Hne : Forall (fun l => l <> [])
                  (map (class_slice width num_classes) image_pred)).
  { apply Forall_map. eapply Forall_impl; [|exact Hall].
    intros r Hlen. now apply class_slice_nonempty. }
  destruct (mapM_total np_max (fun l => l <> []) (fun _ => True) _
              np_max_total Hne) as [ccs [Hccs _]].
  destruct (mapM_total argmax (fun l => l <> []) (fun _ => True) _
              argmax_total Hne) as [cps [Hcps _]].
  rewrite Hccs, Hcps. cbv beta iota delta [bind].
  pose proof (detections_kept width num_classes conf_thre image_pred ccs cps
                Hc Hall Hccs Hcps) as Hkept.
  set (detections :=
         filter (fun d => Qle_bool conf_thre (nth 4 d 0 * nth 5 d 0))
           (map2 (fun r '(cc, cp) =>
                    firstn 5 r ++ [cc; inject_Z (Z.of_nat cp)])
              image_pred (combine ccs cps))) in *.
  destruct (length detections =? 0)%nat.
  { exists None. split; [reflexivity | discriminate]. }
  assert (Hidx : Forall (fun i => (i < length detections)%nat)
                   (nms (map row_box detections)
                      (map (fun d => nth 4 d 0 * nth 5 d 0) detections)
                      nms_thre)).
  { pose proof (Hnms (map row_box detections)
                  (map (fun d => nth 4 d 0 * nth 5 d 0) detections)
                  nms_thre) as H.
    now rewrite length_map in H. }
  destruct (take_rows_total detections _ Hidx) as [kept [Hk [_ Hin]]].
  rewrite Hk. eexists. split; [reflexivity|].
  intros arr E. injection E as <-. simpl. split; [reflexivity|].
  rewrite Forall_forall in *. intros row Hrow.
  eapply kept_row_label. apply Hkept. now apply Hin.
Qed.

Lemma class_labels_in_range (k : nat) :
  (k < 3)%nat ->
  exists l, class_labels (int_of (inject_Z (Z.of_nat k))) = Ok l.
Proof.
  intro H. destruct k as [|[|[|k]]]; [| | |lia]; eexists; reflexivity.
Qed.

Lemma bucket_rows_total (bboxes : list Box) (scores labels : list Q)
  (acc : AnnotationSet) :
  Forall (fun l => exists k, (k < 3)%nat /\ l = inject_Z (Z.of_nat k))
    labels ->
  exists ann, bucket_rows acc bboxes scores labels = Ok ann.
Proof.
  intro H. revert bboxes scores acc.
  induction H as [|l labels [k [Hk ->]] _ IH]; intros bboxes scores acc.
  - destruct bboxes, scores; simpl; eauto.
  - destruct bboxes as [|b bboxes]; [simpl; eauto|].
    destruct scores as [|s scores]; [simpl; eauto|].
    cbn [bucket_rows].
    destruct (class_labels_in_range k Hk) as [lab Hlab].
    rewrite Hlab. cbn [bind]. apply IH.
Qed.

Lemma postprocess_result_total (d0 d1 : nat) (rest : list nat)
  (res : option Array2) (min_score : Q) :
  (forall arr,
      res = Some arr ->
      ncols arr = 7%nat
      /\ Forall (fun row =>
                   exists k, (k < 3)%nat
                             /\ nth 6 row 0 = inject_Z (Z.of_nat k))
           (rows arr)) ->
  exists ann,
    postprocess_result (S d0 :: S d1 :: rest) res min_score = Ok ann.
Proof.
  intro H. destruct res as [[n rws]|]; [|simpl; eauto].
  destruct (H _ eq_refl) as [Hn Hrows]. simpl in Hn, Hrows. subst n.
  unfold postprocess_result, postprocess_try.
  rewrite !column_Ok by (simpl; lia). cbv zeta.
  cbn [getitem nth_error bind py_div].
  apply bucket_rows_total.
  simpl rows. apply Forall_map. apply np_mask_Forall.
  eapply Forall_impl; [|exact Hrows]. intros row Hrow. exact Hrow.
Qed.

Lemma Forall_combine {A B : Type} (P : A -> Prop) (R : B -> Prop)
  (l : list A) (m : list B) :
  Forall P l -> Forall R m ->
  Forall (fun ab => P (fst ab) /\ R (snd ab)) (combine l m).
Proof.
  intro Hl. revert m. induction Hl as [|a l Ha _ IH]; intros m Hm;
    [constructor|].
  destruct Hm as [|b m Hb Hm]; [constructor|].
  simpl. constructor; auto.
Qed.

(** The gRPC path on a tensor of more than five columns: it returns as
    many dictionaries as there are images, or shapes if these are fewer. *)
Lemma grpc_pipeline_total
  (nms : list Box -> list Q -> Q -> list nat)
  (batched_nms : list Box -> list Q -> list Q -> Q -> list nat)
  (prediction : Tensor3) (original_image_shapes : list (list nat))
  (num_classes : nat) (conf_thresh iou_thresh min_score final_thresh : Q) :
  (5 < t_ncols prediction)%nat ->
  (0 < num_classes <= 3)%nat ->
  Forall (Forall (fun r => length r = t_ncols prediction))
    (t_images prediction) ->
  Forall (fun s => exists d0 d1 rest, s = S d0 :: S d1 :: rest)
    original_image_shapes ->
  (forall boxes scores thr,
      Forall (fun i => (i < length boxes)%nat) (nms boxes scores thr)) ->
  exists out,
    process_inference_results nms batched_nms (Grpc prediction)
      original_image_shapes num_classes conf_thresh iou_thresh min_score
      final_thresh
    = Ok out
    /\ length out
       = Nat.min (length original_image_shapes)
           (length (t_images prediction)).
Proof.
  intros Hc [Hn0 Hn3] Hlen Hshapes Hnms.
  unfold process_inference_results, postprocess_model_prediction.
  assert (E4 : (t_ncols prediction <? 4)%nat = false)
    by (apply Nat.ltb_ge; lia).
  rewrite E4.
  destruct (mapM_total
              (fun image_pred =>
                 postprocess_image nms batched_nms (t_ncols prediction)
                   num_classes conf_thresh iou_thresh true
                   (map box_corner image_pred))
              (Forall (fun r => length r = t_ncols prediction))
              (fun o => forall arr,
                   o = Some arr ->
                   ncols arr = 7%nat
                   /\ Forall (fun row =>
                                exists k, (k < 3)%nat
                                          /\ nth 6 row 0
                                             = inject_Z (Z.of_nat k))
                        (rows arr))
              (t_images prediction)) as [pred [Hpred [Hrows Hplen]]].
  { intros image_pred Hl.
    destruct (postprocess_image_total nms batched_nms (t_ncols prediction)
                num_classes conf_thresh iou_thresh
                (map box_corner image_pred) Hc Hn0) as [o [Ho Harr]].
    - apply Forall_map. eapply Forall_impl; [|exact Hl].
      intros r Hr. cbv beta in *. rewrite box_corner_length; lia.
    - exact Hnms.
    - exists o. split; [exact Ho|]. intros arr E.
      destruct (Harr arr E) as [H7 Hk]. split; [exact H7|].
      eapply Forall_impl; [|exact Hk].
      intros row [k [Hk1 Hk2]]. exists k. split; [lia | exact Hk2]. }
  { exact Hlen. }
  rewrite Hpred. cbn [bind]. unfold postprocess_results.
  destruct (mapM_total
              (fun '(original_image_shape, res) =>
                 postprocess_result original_image_shape res min_score)
              (fun ab =>
                 (exists d0 d1 rest, fst ab = S d0 :: S d1 :: rest)
                 /\ (forall arr,
                        snd ab = Some arr ->
                        ncols arr = 7%nat
                        /\ Forall (fun row =>
                                     exists k, (k < 3)%nat
                                               /\ nth 6 row 0
                                                  = inject_Z (Z.of_nat k))
                             (rows arr)))
              (fun _ => True)
              (combine original_image_shapes pred))
    as [results [Hres [_ Hrlen]]].
  { intros [s res] [[d0 [d1 [rest Hs]]] Harr]. simpl in Hs, Harr. subst s.
    destruct (postprocess_result_total d0 d1 rest res min_score Harr)
      as [ann Hann].
    exists ann. auto. }
  { apply (Forall_combine
             (fun s => exists d0 d1 rest, s = S d0 :: S d1 :: rest)
             (fun o => forall arr,
                  o = Some arr ->
                  ncols arr = 7%nat
                  /\ Forall (fun row =>
                               exists k, (k < 3)%nat
                                         /\ nth 6 row 0
                                            = inject_Z (Z.of_nat k))
                       (rows arr))); assumption. }
  rewrite Hres. cbn [bind]. cbv zeta.
  destruct (mapM_total expand_chart_bboxes (fun _ => True) (fun _ => True)
              (map expand_table_bboxes results)) as [outs [Houts [_ Holen]]].
  - intros a _. destruct (expand_chart_bboxes_ok a) as [o [Ho _]]. eauto.
  - apply Forall_forall. auto.
  - rewrite Houts. cbn [bind]. eexists. split; [reflexivity|].
    rewrite length_map, Holen, length_map, Hrlen, length_combine, Hplen.
    reflexivity.
Qed.



(** X23.  The gRPC path does not raise on a well-formed batch: when the
    candidates of the tensor have more than five numbers each (as many as
    the last dimension of the tensor), there are one to three classes,
    every shape given starts with two positive dimensions, and the
    suppression returns indices of the rows it was given,
    [process_inference_results] returns a list of dictionaries. *)
Theorem grpc_pipeline_returns
  (nms : list Box -> list Q -> Q -> list nat)
  (batched_nms : list Box -> list Q -> list Q -> Q -> list nat)
  (prediction : Tensor3) (original_image_shapes : list (list nat))
  (num_classes : nat) (conf_thresh iou_thresh min_score final_thresh : Q) :
  (5 < t_ncols prediction)%nat ->
  (0 < num_classes <= 3)%nat ->
  Forall (Forall (fun r => length r = t_ncols prediction))
    (t_images prediction) ->
  Forall (fun s => exists d0 d1 rest, s = S d0 :: S d1 :: rest)
    original_image_shapes ->
  (forall boxes scores thr,
      Forall (fun i => (i < length boxes)%nat) (nms boxes scores thr)) ->
  exists out,
    process_inference_results nms batched_nms (Grpc prediction)
      original_image_shapes num_classes conf_thresh iou_thresh min_score
      final_thresh
    = Ok out.
Proof.
  intros Hc Hn Hlen Hshapes Hnms.
  destruct (grpc_pipeline_total nms batched_nms prediction
              original_image_shapes num_classes conf_thresh iou_thresh
              min_score final_thresh Hc Hn Hlen Hshapes Hnms)
    as [out [Hout _]].
  exists out. exact Hout.
Qed.

Lemma grpc_pipeline_returns_witness :
  exists out,
    process_inference_results keep_all keep_all_batched (Grpc sample_tensor)
      [[1024; 1024; 3]%nat] 3 0.01 0.5 0.1 0.48
    = Ok out.
Proof.
  apply (grpc_pipeline_returns keep_all keep_all_batched sample_tensor
           [[1024; 1024; 3]%nat] 3 0.01 0.5 0.1 0.48).
  - simpl. lia.
  - lia.
  - repeat constructor.
  - repeat constructor. now exists 1023%nat, 1023%nat, [3%nat].
  - intros boxes scores thr. unfold keep_all.
    apply Forall_forall. intros i Hi. apply in_seq in Hi. lia.
Defined.

(** ** The normalizer on a malformed tensor *)

Lemma mapM_ext {A B : Type} (f g : A -> result B) (l : list A) :
  (forall a, f a = g a) -> mapM f l = mapM g l.
Proof.
  intro H. induction l as [|a l IH]; [reflexivity|].
  simpl. now rewrite H, IH.
Qed.

(** The loop stops at the first image that raises. *)
Lemma mapM_Raise {A B : Type} (f : A -> result B) (e : exn) (l : list A) :
  Forall (fun a => f a = Raise e \/ exists b, f a = Ok b) l ->
  Exists (fun a => f a = Raise e) l ->
  mapM f l = Raise e.
Proof.
  intros Hall Hex. induction Hall as [|a l Ha _ IH]; [inversion Hex|].
  simpl. destruct Ha as [Ha|[b Hb]].
  - now rewrite Ha.
  - rewrite Hb. cbn [bind].
    inversion Hex as [? ? Hr|? ? Hl]; subst; [congruence|].
    now rewrite (IH Hl).
Qed.

(** Without a class score, [torch.max] raises for an image that has a
    candidate. *)
Lemma postprocess_image_short
  (nms : list Box -> list Q -> Q -> list nat)
  (batched_nms : list Box -> list Q -> list Q -> Q -> list nat)
  (width num_classes : nat) (conf_thre nms_thre : Q) (class_agnostic : bool)
  (image_pred : list (list Q)) :
  (width <= 5)%nat ->
  postprocess_image nms batched_nms width num_classes conf_thre nms_thre
    class_agnostic image_pred
  = match image_pred with
    | [] => Ok None
    | _ :: _ => Raise IndexError
    end.
Proof.
  intro H. unfold postprocess_image.
  destruct image_pred as [|r image_pred]; [reflexivity|].
  cbn [length Nat.eqb]. cbv zeta.
  replace (width - 5)%nat with 0%nat by lia. reflexivity.
Qed.

(** With fewer class scores than classes, the maximum is taken over the
    scores that are there. *)
Lemma class_slice_narrow (width num_classes : nat) (r : list Q) :
  (width - 5 <= num_classes)%nat ->
  class_slice width num_classes r = class_slice width (width - 5) r.
Proof.
  intro H. unfold class_slice.
  assert (Hl : (length (skipn 5 (firstn width r)) <= width - 5)%nat).
  { rewrite length_skipn, length_firstn. lia. }
  rewrite (@firstn_all2 _ num_classes (skipn 5 (firstn width r))) by lia.
  rewrite (@firstn_all2 _ (width - 5) (skipn 5 (firstn width r))) by lia.
  reflexivity.
Qed.

Lemma postprocess_image_narrow
  (nms : list Box -> list Q -> Q -> list nat)
  (batched_nms : list Box -> list Q -> list Q -> Q -> list nat)
  (width num_classes : nat) (conf_thre nms_thre : Q) (class_agnostic : bool)
  (image_pred : list (list Q)) :
  (width < 5 + num_classes)%nat ->
  postprocess_image nms batched_nms width num_classes conf_thre nms_thre
    class_agnostic image_pred
  = postprocess_image nms batched_nms width (width - 5) conf_thre nms_thre
      class_agnostic image_pred.
Proof.
  intro H. unfold postprocess_image.
  rewrite (map_ext (class_slice width num_classes)
             (class_slice width (width - 5)))
    by (intro r; apply class_slice_narrow; lia).
  rewrite (Nat.min_l (width - 5) num_classes) by lia.
  rewrite Nat.min_id. reflexivity.
Qed.

(** C8, as the code has it.  No error of the normalizer is about the
    shape of the raw tensor, and none names an image.  When the last
    dimension of the tensor is at most 5, so that a candidate has no class
    score, and an image has a candidate, [postprocess_model_prediction]
    raises a bare [IndexError], and [process_inference_results] with it:
    the whole call is lost, with the dictionaries of all the images.  When
    the last dimension is below [5 + num_classes], the call is the one for
    [t_ncols - 5] classes: above 5 nothing is signalled, and the best class
    is taken among the scores that are there.  When the last dimension is
    above 5, whether or not it is [5 + num_classes] and whether or not
    there are as many shapes as images, the call returns (for candidates of
    the width of the tensor, one to three classes, shapes of two positive
    dimensions and a suppression that returns indices of its rows): it
    gives as many dictionaries as there are images, or shapes if these are
    fewer. *)
Theorem malformed_tensor_is_not_reported
  (nms : list Box -> list Q -> Q -> list nat)
  (batched_nms : list Box -> list Q -> list Q -> Q -> list nat)
  (prediction : Tensor3) (original_image_shapes : list (list nat))
  (num_classes : nat) (conf_thresh iou_thresh min_score final_thresh : Q) :
  ((t_ncols prediction <= 5)%nat ->
   Exists (fun image_pred => image_pred <> []) (t_images prediction) ->
   postprocess_model_prediction nms batched_nms prediction num_classes
     conf_thresh iou_thresh true
   = Raise IndexError
   /\ process_inference_results nms batched_nms (Grpc prediction)
        original_image_shapes num_classes conf_thresh iou_thresh min_score
        final_thresh
      = Raise IndexError)
  /\ ((t_ncols prediction < 5 + num_classes)%nat ->
      process_inference_results nms batched_nms (Grpc prediction)
        original_image_shapes num_classes conf_thresh iou_thresh min_score
        final_thresh
      = process_inference_results nms batched_nms (Grpc prediction)
          original_image_shapes (t_ncols prediction - 5) conf_thresh
          iou_thresh min_score final_thresh)
  /\ ((5 < t_ncols prediction)%nat ->
      (0 < num_classes <= 3)%nat ->
      Forall (Forall (fun r => length r = t_ncols prediction))
        (t_images prediction) ->
      Forall (fun s => exists d0 d1 rest, s = S d0 :: S d1 :: rest)
        original_image_shapes ->
      (forall boxes scores thr,
          Forall (fun i => (i < length boxes)%nat) (nms boxes scores thr)) ->
      exists out,
        process_inference_results nms batched_nms (Grpc prediction)
          original_image_shapes num_classes conf_thresh iou_thresh
          min_score final_thresh
        = Ok out
        /\ length out
           = Nat.min (length original_image_shapes)
               (length (t_images prediction))).
Proof.
  split; [|split].
  - intros Hc Hex.
    assert (Hp : postprocess_model_prediction nms batched_nms prediction
                   num_classes conf_thresh iou_thresh true
                 = Raise IndexError).
    { unfold postprocess_model_prediction.
      destruct (t_ncols prediction <? 4)%nat; [reflexivity|].
      apply mapM_Raise.
      - apply Forall_forall. intros image_pred _.
        rewrite (postprocess_image_short nms batched_nms _ num_classes
                   conf_thresh iou_thresh true _ Hc).
        destruct (map box_corner image_pred); [right; eauto | now left].
      - apply Exists_exists in Hex. destruct Hex as [image_pred [Hin Hne]].
        apply Exists_exists. exists image_pred. split; [exact Hin|].
        rewrite (postprocess_image_short nms batched_nms _ num_classes
                   conf_thresh iou_thresh true _ Hc).
        destruct image_pred; [congruence | reflexivity]. }
    split; [exact Hp|].
    unfold process_inference_results. rewrite Hp. reflexivity.
  - intro Hc. unfold process_inference_results, postprocess_model_prediction.
    destruct (t_ncols prediction <? 4)%nat; [reflexivity|].
    rewrite (mapM_ext
               (fun image_pred =>
                  postprocess_image nms batched_nms (t_ncols prediction)
                    num_classes conf_thresh iou_thresh true
                    (map box_corner image_pred))
               (fun image_pred =>
                  postprocess_image nms batched_nms (t_ncols prediction)
                    (t_ncols prediction - 5) conf_thresh iou_thresh true
                    (map box_corner image_pred)));
      [reflexivity|].
    intro image_pred. now apply postprocess_image_narrow.
  - apply grpc_pipeline_total.
Qed.

Lemma malformed_tensor_is_not_reported_witness :
  process_inference_results keep_all keep_all_batched
    (Grpc sample_tensor_short) sample_shapes 3 0.01 0.5 0.1 0.48
  = Raise IndexError
  /\ process_inference_results keep_all keep_all_batched
       (Grpc sample_tensor_narrow) sample_shapes 3 0.01 0.5 0.1 0.48
     = process_inference_results keep_all keep_all_batched
         (Grpc sample_tensor_narrow) sample_shapes 1 0.01 0.5 0.1 0.48
  /\ process_inference_results keep_all keep_all_batched
       (Grpc sample_tensor_narrow) sample_shapes 3 0.01 0.5 0.1 0.48
     = Ok [mkAnn [mkDet (mkBox 0.4023 0.4317 0.5977 0.5488) 0.7200] [] []].
Proof.
  split; [|split].
  - apply (proj1 (malformed_tensor_is_not_reported keep_all keep_all_batched
                    sample_tensor_short sample_shapes 3 0.01 0.5 0.1 0.48)).
    + simpl. lia.
    + apply Exists_cons_hd. discriminate.
  - apply (proj1 (proj2 (malformed_tensor_is_not_reported keep_all
                           keep_all_batched sample_tensor_narrow
                           sample_shapes 3 0.01 0.5 0.1 0.48))).
    simpl. lia.
  - destruct (proj2 (proj2 (malformed_tensor_is_not_reported keep_all
                              keep_all_batched sample_tensor_narrow
                              sample_shapes 3 0.01 0.5 0.1 0.48)))
      as [out [Hout Hlen]].
    + simpl. lia.
    + lia.
    + repeat constructor.
    + repeat constructor; now exists 1023%nat, 1023%nat, [3%nat].
    + intros boxes scores thr. unfold keep_all.
      apply Forall_forall. intros i Hi. apply in_seq in Hi. lia.
    + pose proof Hout as Hval. vm_compute in Hval.
      injection Hval as <-. exact Hout.
Defined.

(** C8, as the specification states it, fails on a batch of two images
    whose candidates have five numbers each: the call raises a bare
    [IndexError] and returns the dictionary of neither image. *)
Lemma spec_shape_mismatch_is_local_counterexample :
  ~ spec_shape_mismatch_is_local keep_all keep_all_batched
      sample_tensor_short sample_shapes 3 0.01 0.5 0.1 0.48.
Proof.
  intros [out H]. vm_compute in H. discriminate.
Qed.

(** ** The best match of a box *)

(** X24.  When the IoU of the new box with every box of the list is a
    number, [find_matching_box_fast] returns the first box of the list
    whose IoU with the new box is the largest, with that IoU, when it is
    above [match_iou]; it returns no index ([-1]) and [match_iou] itself
    exactly when no box of the list has an IoU above [match_iou], in
    particular for the empty list. *)
Theorem find_matching_box_fast_best (boxes_list : list FusionRecord)
  (new_box : FusionRecord) (match_iou : Q) :
  Forall (fun b => iou_defined (f_box b) (f_box new_box)) boxes_list ->
  match find_matching_box_fast boxes_list new_box match_iou with
  | (Some k, v) =>
      exists b,
        nth_error boxes_list k = Some b
        /\ v = bb_iou (f_box b) (f_box new_box)
        /\ match_iou < v
        /\ (forall b', In b' boxes_list ->
                       bb_iou (f_box b') (f_box new_box) <= v)
        /\ (forall j b', (j < k)%nat -> nth_error boxes_list j = Some b' ->
                         bb_iou (f_box b') (f_box new_box) < v)
  | (None, v) =>
      v = match_iou
      /\ forall b', In b' boxes_list ->
                    bb_iou (f_box b') (f_box new_box) <= match_iou
  end.
Proof.
  intros _.
  unfold find_matching_box_fast, bb_iou_array. rewrite map_map.
  set (ious := map (fun b => bb_iou (f_box b) (f_box new_box)) boxes_list).
  destruct ious as [|iou0 ious'] eqn:E.
  { split; [reflexivity|]. intros b' Hb'.
    destruct boxes_list; [contradiction | discriminate]. }
  cbv zeta.
  assert (Ha : argmax (iou0 :: ious')
               = Ok (argmax_from iou0 0 1 ious')) by reflexivity.
  destruct (argmax_spec _ _ Ha) as [v [Hv [Hfirst Hmax]]].
  set (k := argmax_from iou0 0 1 ious') in *. clearbody k.
  rewrite (nth_error_nth _ _ 0 Hv).
  assert (Hin : forall b', In b' boxes_list ->
                  bb_iou (f_box b') (f_box new_box) <= v).
  { intros b' Hb'. apply Hmax. rewrite <- E. unfold ious.
    apply in_map_iff. exists b'. auto. }
  destruct (Qle_bool v match_iou) eqn:Ele.
  - apply Qle_bool_iff in Ele. split; [reflexivity|].
    intros b' Hb'. specialize (Hin b' Hb'). lra.
  - apply Qle_bool_false in Ele.
    rewrite <- E in Hv, Hfirst. unfold ious in Hv, Hfirst.
    rewrite nth_error_map in Hv.
    destruct (nth_error boxes_list k) as [b|] eqn:Eb; [|discriminate].
    injection Hv as Hv. exists b. repeat split; auto.
    intros j b' Hj Hb'. apply (Hfirst j); [|exact Hj].
    rewrite nth_error_map, Hb'. reflexivity.
Qed.

Lemma find_matching_box_fast_best_witness :
  fst (find_matching_box_fast sample_bucket
         (mkRec 0 0.7 1 2 (mkBox 0.1 0.1 0.4 0.3)) 0.55)
  = Some 0%nat
  /\ snd (find_matching_box_fast sample_bucket
            (mkRec 0 0.7 1 2 (mkBox 0.1 0.1 0.4 0.3)) 0.55)
     == 2 # 3
  /\ (forall b', In b' sample_bucket ->
                 bb_iou (f_box b') (mkBox 0.1 0.1 0.4 0.3)
                 <= snd (find_matching_box_fast sample_bucket
                           (mkRec 0 0.7 1 2 (mkBox 0.1 0.1 0.4 0.3)) 0.55)).
Proof.
  assert (Hdef : Forall (fun b => iou_defined (f_box b)
                                    (f_box (mkRec 0 0.7 1 2
                                              (mkBox 0.1 0.1 0.4 0.3))))
                   sample_bucket).
  { repeat constructor; vm_compute; discriminate. }
  pose proof (find_matching_box_fast_best sample_bucket
                (mkRec 0 0.7 1 2 (mkBox 0.1 0.1 0.4 0.3)) 0.55 Hdef) as H.
  destruct (find_matching_box_fast sample_bucket
              (mkRec 0 0.7 1 2 (mkBox 0.1 0.1 0.4 0.3)) 0.55)
    as [[k|] v] eqn:E; vm_compute in E; [|discriminate].
  injection E as <- <-.
  destruct H as [b [_ [_ [_ [Hmax _]]]]].
  split; [reflexivity|]. split; [reflexivity|]. exact Hmax.
Defined.

(** ** The normalizer: the key of a detection *)

Lemma postprocess_try_labels (original_image_shape : list nat) (arr : Array2)
  (min_score : Q) (bboxes : list Box) (scores labels : list Q) :
  postprocess_try original_image_shape arr min_score
  = inl (bboxes, scores, labels) ->
  labels
  = map (fun r => nth 6 r 0)
      (filter (fun r => Qlt_bool min_score (nth 4 r 0 * nth 5 r 0))
         (rows arr)).
Proof.
  unfold postprocess_try.
  destruct (column arr 4) as [c4|e4] eqn:E4; [|discriminate].
  destruct (column arr 5) as [c5|e5] eqn:E5; [|discriminate].
  apply column_Ok_inv in E4, E5. destruct E4 as [-> _], E5 as [-> _].
  cbv zeta. rewrite map2_map, map_map.
  rewrite np_mask_filter.
  match goal with
  | |- match ?m with Ok _ => _ | Raise _ => _ end = _ -> _ =>
      destruct m as [v|e] eqn:Er; [|discriminate]
  end.
  intro H. injection H as ->.
  apply bind_Ok in Er. destruct Er as [d0 [_ Er]].
  apply bind_Ok in Er. destruct Er as [a [_ Er]].
  apply bind_Ok in Er. destruct Er as [d1 [_ Er]].
  apply bind_Ok in Er. destruct Er as [b [_ Er]].
  cbv zeta in Er.
  apply bind_Ok in Er. destruct Er as [lbls [Hl Er]].
  injection Er as _ _ <-.
  apply column_Ok_inv in Hl. destruct Hl as [-> _]. reflexivity.
Qed.

Lemma bucket_rows_route (bboxes : list Box) (scores labels : list Q)
  (acc ann : AnnotationSet) :
  length scores = length bboxes -> length labels = length bboxes ->
  bucket_rows acc bboxes scores labels = Ok ann ->
  length (table ann)
  = (length (table acc) + length (filter (label_is Table) labels))%nat
  /\ length (chart ann)
     = (length (chart acc) + length (filter (label_is Chart) labels))%nat
  /\ length (title ann)
     = (length (title acc) + length (filter (label_is Title) labels))%nat.
Proof.
  revert scores labels acc.
  induction bboxes as [|b bboxes IH]; intros scores labels acc Hs Hl H.
  - destruct scores; [|discriminate]. destruct labels; [|discriminate].
    simpl in H. apply Ok_inj in H. subst ann. simpl. lia.
  - destruct scores as [|s scores]; [discriminate|].
    destruct labels as [|l labels]; [discriminate|].
    cbn [bucket_rows] in H. apply bind_Ok in H.
    destruct H as [class_name [Hc H]].
    apply IH in H; [|simpl in *; lia ..].
    destruct H as [Ht [Hch Hti]].
    assert (E : forall c, label_is c l = Label_eqb class_name c)
      by (intro c; unfold label_is; now rewrite Hc).
    cbn [filter]. rewrite !E, Ht, Hch, Hti.
    destruct class_name; simpl; rewrite ?length_app; simpl; lia.
Qed.

(** X25.  [postprocess_results] files every detection under the key that
    its class number selects in [["table", "chart", "title"]]: for an image
    that it returns, the numbers of tables, charts and titles are the
    numbers of rows above [min_score] whose class number is 0, 1 and 2
    (or, with Python's negative indices, -3, -2 and -1). *)
Theorem postprocess_result_routing (original_image_shape : list nat)
  (arr : Array2) (min_score : Q) (ann : AnnotationSet) :
  postprocess_result original_image_shape (Some arr) min_score = Ok ann ->
  let kept :=
    filter (fun r => Qlt_bool min_score (nth 4 r 0 * nth 5 r 0)) (rows arr)
  in
  length (table ann)
  = length (filter (fun r => label_is Table (nth 6 r 0)) kept)
  /\ length (chart ann)
     = length (filter (fun r => label_is Chart (nth 6 r 0)) kept)
  /\ length (title ann)
     = length (filter (fun r => label_is Title (nth 6 r 0)) kept)
  /\ (forall l c, label_is c l = true <->
                  class_labels (int_of l) = Ok c).
Proof.
  intro H. cbv zeta. unfold postprocess_result in H.
  destruct (postprocess_try original_image_shape arr min_score)
    as [[[bboxes scores] labels]|[shp e]] eqn:Et; [|discriminate].
  pose proof (postprocess_try_labels _ _ _ _ _ _ Et) as Hlab.
  apply postprocess_try_inl in Et. cbv zeta in Et.
  destruct Et as [Hb [Hl [Hs _]]].
  apply bucket_rows_route in H.
  - destruct H as [Ht [Hc Hti]]. rewrite Ht, Hc, Hti, Hlab.
    rewrite !filter_map_length. simpl. repeat split.
    + unfold label_is. destruct (class_labels (int_of l)) as [c'|e'];
        [|discriminate].
      destruct c', c; simpl; intro E; try discriminate; reflexivity.
    + unfold label_is. intros ->. now destruct c.
  - rewrite Hs, length_map. lia.
  - lia.
Qed.

Lemma postprocess_result_routing_witness :
  exists ann,
    postprocess_result [1024; 1024; 3]%nat
      (Some (mkArr 7 [[100; 200; 500; 600; 0.9; 0.8; 0];
                      [10; 20; 50; 60; 0.9; 0.9; -1]])) 0.1
    = Ok ann
    /\ length (table ann) = 1%nat /\ length (title ann) = 1%nat.
Proof.
  eexists. split; [vm_compute; reflexivity|].
  destruct (postprocess_result_routing [1024; 1024; 3]%nat
              (mkArr 7 [[100; 200; 500; 600; 0.9; 0.8; 0];
                        [10; 20; 50; 60; 0.9; 0.9; -1]]) 0.1
              _ eq_refl) as [Ht [_ [Hti _]]].
  split; [exact Ht | exact Hti].
Defined.
